(** * RocketVisualization: the data-processing core of the scatter-plot view

    A shallow embedding of [src/components/RocketVisualization.tsx]:
    [parseCSV], [zoomToFit], [buildGridPaths], [handleSelectionExport] and
    [clearSelection], with the properties the design document states about
    them.

    - JavaScript numbers are IEEE-754 binary64 values; they are modelled by
      Rocq's primitive [float]s, whose [+], [-], [*], [/] and comparisons
      are the IEEE operations JavaScript uses.  The host functions the
      component calls are written out from their ECMAScript definitions:
      [Math.floor], [Math.ceil], [Math.max], [Math.min] and [%] in
      [Module Js], [parseFloat] and [Number.prototype.toString] in
      [Module JsConv].  [Math.log2] is left to the host: it is a parameter
      of [zoomToFit].
    - Strings are sequences of code units below 256 ([Module JsString]).
    - The [for] loops of [buildGridPaths] run on fuel, and that they end is
      a theorem.
    - [throw new Error(...)] is the [Throw] of a [completion]; [undefined]
      is the [None] of an [option].

    The definitions come first, the properties after them. *)

From Stdlib Require Import ZArith List Bool Lia Floats String Ascii DecimalString.
Import ListNotations.

#[local] Set Warnings "-inexact-float".
#[local] Open Scope float_scope.

(** ** JavaScript numbers *)

Module Js.

Definition number := float.

(** [ToBoolean] of a number: false for [+0], [-0] and [NaN]. *)
Definition truthy (x : number) : bool := negb (x =? 0) && negb (is_nan x).

(** [Number.isFinite]. *)
Definition isFinite (x : number) : bool := is_finite x.

(** The finite values of the format: zeros and [±m·2^e]. *)
Definition finiteSF (x : spec_float) : bool :=
  match x with
  | S754_zero _ | S754_finite _ _ _ => true
  | _ => false
  end.

(** [Math.max] of two arguments: [NaN] if either is [NaN]; [+0] is larger
    than [-0]. *)
Definition max2 (a b : number) : number :=
  if is_nan a || is_nan b then nan
  else if a <? b then b
  else if b <? a then a
  else if get_sign a then b else a.

(** [Math.min] of two arguments: [NaN] if either is [NaN]; [-0] is smaller
    than [+0]. *)
Definition min2 (a b : number) : number :=
  if is_nan a || is_nan b then nan
  else if a <? b then a
  else if b <? a then b
  else if get_sign a then a else b.

(** [Math.max(...xs)] and [Math.min(...xs)]: the n-ary functions start from
    [-Infinity] and [+Infinity]. *)
Definition max_list (xs : list number) : number := fold_left max2 xs neg_infinity.
Definition min_list (xs : list number) : number := fold_left min2 xs infinity.

(** [Math.floor] and [Math.ceil] on the exact value [±m·2^e]: zeros,
    infinities and [NaN] are returned as they are, and so is a finite value
    whose exponent is not negative (an integer). The sign of a zero result
    is the sign of the argument. *)
Definition floorSF (x : spec_float) : spec_float :=
  match x with
  | S754_finite s m e =>
      if (0 <=? e)%Z then x
      else binary_normalize prec emax (Z.shiftr (cond_Zopp s (Zpos m)) (- e)) 0 s
  | _ => x
  end.

Definition ceilSF (x : spec_float) : spec_float :=
  match x with
  | S754_finite s m e =>
      if (0 <=? e)%Z then x
      else binary_normalize prec emax
             (- Z.shiftr (- cond_Zopp s (Zpos m)) (- e)) 0 s
  | _ => x
  end.

Definition floor (x : number) : number := SF2Prim (floorSF (Prim2SF x)).
Definition ceil (x : number) : number := SF2Prim (ceilSF (Prim2SF x)).

(** The [%] operator on numbers: the exact remainder of the truncating
    division, with the sign of the dividend. *)
Definition remSF (a b : spec_float) : spec_float :=
  match a, b with
  | S754_nan, _ | _, S754_nan => S754_nan
  | S754_infinity _, _ => S754_nan
  | _, S754_zero _ => S754_nan
  | S754_zero _, _ => a
  | _, S754_infinity _ => a
  | S754_finite sa ma ea, S754_finite _ mb eb =>
      let e := Z.min ea eb in
      let za := Z.shiftl (Zpos ma) (ea - e) in
      let zb := Z.shiftl (Zpos mb) (eb - e) in
      binary_normalize prec emax (cond_Zopp sa (Z.rem za zb)) e sa
  end.

Definition rem (a b : number) : number := SF2Prim (remSF (Prim2SF a) (Prim2SF b)).

End Js.

(** ** The grid builder *)

(** One entry of the list [buildGridPaths] returns:
    [{ path: [[x0, y0], [x1, y1]], major }]. *)
Record GridLine := {
  path : (float * float) * (float * float);
  major : bool
}.

Definition Bounds : Type := float * float * float * float.

Definition MAX : nat := 400.

(** [const safeStep = step || Math.max(dx, dy) / 10]. *)
Definition safeStep (bounds : Bounds) (step : option float) : float :=
  let '(minX, minY, maxX, maxY) := bounds in
  let dx := maxX - minX in
  let dy := maxY - minY in
  match step with
  | Some s => if Js.truthy s then s else Js.max2 dx dy / 10
  | None => Js.max2 dx dy / 10
  end.

(** [gridStep || undefined], the step that [layers] passes on from the
    [number | null] of the step field. *)
Definition stepArgument (gridStep : option float) : option float :=
  match gridStep with
  | Some g => if Js.truthy g then Some g else None
  | None => None
  end.

(** [Math.abs((c / safeStep) % 5) < 1e-9]. *)
Definition isMajor (c step : float) : bool :=
  abs (Js.rem (c / step) 5) <? 1e-9.

(** Modelled from the spec: a line is major when its coordinate, divided
    by the step, is a multiple of 5 within epsilon, that is, when the
    quotient is less than 1e-9 away from a multiple of 5, be it the one
    below the quotient or the one above it.  To be compared with
    [isMajor], which is the test of the source. *)
Definition majorWithinEpsilon (c step : float) : bool :=
  let r := abs (Js.rem (c / step) 5) in
  (r <? 1e-9) || (5 - r <? 1e-9).

Definition verticalLine (step startY endY x : float) : GridLine :=
  {| path := ((x, startY), (x, endY)); major := isMajor x step |}.

Definition horizontalLine (step startX endX y : float) : GridLine :=
  {| path := ((startX, y), (endX, y)); major := isMajor y step |}.

(** The two [for] loops of [buildGridPaths] have one shape:

      for (let c = start; c <= end + 1e-9; c += safeStep) {
        lines.push(line(c));
        if (++count > cap) break;
      }

    [gridLoop] runs it from the state [(c, count, lines)]; the fuel bounds
    the number of times the loop condition is evaluated, and [None] means
    that the fuel ran out before the loop ended. *)
Fixpoint gridLoop (fuel : nat) (line : float -> GridLine) (stop step : float)
    (cap : nat) (c : float) (count : nat) (lines : list GridLine)
    : option (nat * list GridLine) :=
  match fuel with
  | O => None
  | S fuel' =>
      if c <=? stop + 1e-9 then
        let lines := lines ++ [line c] in
        let count := S count in
        if (cap <? count)%nat then Some (count, lines)
        else gridLoop fuel' line stop step cap (c + step) count lines
      else Some (count, lines)
  end.

(** The state after the first loop: the counter and the vertical lines. *)
Definition verticalPass (fuel : nat) (bounds : Bounds) (step : option float)
    : option (nat * list GridLine) :=
  let '(minX, minY, maxX, maxY) := bounds in
  let safeStep := safeStep bounds step in
  let startX := Js.floor (minX / safeStep) * safeStep in
  let endX := Js.ceil (maxX / safeStep) * safeStep in
  let startY := Js.floor (minY / safeStep) * safeStep in
  let endY := Js.ceil (maxY / safeStep) * safeStep in
  gridLoop fuel (verticalLine safeStep startY endY) endX safeStep MAX startX 0 [].

Definition buildGridPaths (fuel : nat) (bounds : Bounds) (step : option float)
    : option (list GridLine) :=
  let '(minX, minY, maxX, maxY) := bounds in
  let safeStep := safeStep bounds step in
  let startX := Js.floor (minX / safeStep) * safeStep in
  let endX := Js.ceil (maxX / safeStep) * safeStep in
  let startY := Js.floor (minY / safeStep) * safeStep in
  let endY := Js.ceil (maxY / safeStep) * safeStep in
  match verticalPass fuel bounds step with
  | None => None
  | Some (count, lines) =>
      match gridLoop fuel (horizontalLine safeStep startX endX) endY safeStep
              (MAX * 2) startY count lines with
      | None => None
      | Some (_, lines) => Some lines
      end
  end.

(** ** JavaScript strings

    A string is a sequence of code units; the model keeps the code units
    below 256, which is all the component's own literals use. *)

Module JsString.

#[local] Open Scope char_scope.
#[local] Open Scope string_scope.

Definition TAB : ascii := "009".
Definition LF : ascii := "010".
Definition CR : ascii := "013".

Definition code (c : ascii) : N := N_of_ascii c.

(** White space and line terminators, as [String.prototype.trim] and
    [parseFloat] skip them: TAB, LF, VT, FF, CR, SP and NBSP. *)
Definition isWhiteSpace (c : ascii) : bool :=
  let n := code c in
  ((9 <=? n) && (n <=? 13) || (n =? 32) || (n =? 160))%N.

Fixpoint trimStart (s : string) : string :=
  match s with
  | String c r => if isWhiteSpace c then trimStart r else s
  | EmptyString => EmptyString
  end.

Fixpoint trimEnd (s : string) : string :=
  match s with
  | String c r =>
      match trimEnd r with
      | EmptyString => if isWhiteSpace c then EmptyString else String c EmptyString
      | r' => String c r'
      end
  | EmptyString => EmptyString
  end.

Definition trim (s : string) : string := trimEnd (trimStart s).

(** [String.prototype.toLowerCase] on one code unit: A-Z, and the Latin-1
    capitals other than the multiplication sign. *)
Definition lowerChar (c : ascii) : ascii :=
  let n := code c in
  if ((65 <=? n) && (n <=? 90) || (192 <=? n) && (n <=? 222) && negb (n =? 215))%N
  then ascii_of_N (n + 32) else c.

Fixpoint toLowerCase (s : string) : string :=
  match s with
  | String c r => String (lowerChar c) (toLowerCase r)
  | EmptyString => EmptyString
  end.

(** [s.includes(c)] for a one-character search string. *)
Fixpoint includes (s : string) (c : ascii) : bool :=
  match s with
  | String d r => Ascii.eqb d c || includes r c
  | EmptyString => false
  end.

(** [s.startsWith(p)]. *)
Fixpoint startsWith (p s : string) : bool :=
  match p, s with
  | EmptyString, _ => true
  | String a p', String b s' => Ascii.eqb a b && startsWith p' s'
  | String _ _, EmptyString => false
  end.

(** [s.endsWith(c)] for a one-character string. *)
Fixpoint endsWithChar (c : ascii) (s : string) : bool :=
  match s with
  | EmptyString => false
  | String d EmptyString => Ascii.eqb d c
  | String _ r => endsWithChar c r
  end.

(** Every code unit of [s] satisfies [p]. *)
Fixpoint allChars (p : ascii -> bool) (s : string) : bool :=
  match s with
  | String c r => p c && allChars p r
  | EmptyString => true
  end.

Definition isNot (d : ascii) (c : ascii) : bool := negb (Ascii.eqb c d).

(** [s.split(d)] for a one-character separator: never empty. *)
Fixpoint split (d : ascii) (s : string) : list string :=
  match s with
  | EmptyString => [EmptyString]
  | String c r =>
      if Ascii.eqb c d then EmptyString :: split d r
      else match split d r with
           | h :: t => String c h :: t
           | [] => [String c EmptyString]
           end
  end.

(** [s.split(/\r?\n/)]: a piece ends at LF, or at CR when LF follows it. *)
Fixpoint splitLines (s : string) : list string :=
  match s with
  | EmptyString => [EmptyString]
  | String c r =>
      let keep :=
        match splitLines r with
        | h :: t => String c h :: t
        | [] => [String c EmptyString]
        end in
      if Ascii.eqb c LF then EmptyString :: splitLines r
      else if Ascii.eqb c CR then
        match r with
        | String c' r' => if Ascii.eqb c' LF then EmptyString :: splitLines r' else keep
        | EmptyString => keep
        end
      else keep
  end.

(** [ToBoolean] of a string, the test of [.filter(Boolean)]. *)
Definition nonEmpty (s : string) : bool :=
  match s with EmptyString => false | _ => true end.

(** [cells.join(sep)]: an [undefined] cell is written as the empty
    string. *)
Definition cellText (c : option string) : string :=
  match c with Some s => s | None => EmptyString end.

Fixpoint join (sep : string) (cells : list (option string)) : string :=
  match cells with
  | [] => EmptyString
  | [c] => cellText c
  | c :: rest => cellText c ++ sep ++ join sep rest
  end.

(** [xs.indexOf(x)]: the first index holding [x], or -1. *)
Fixpoint indexOf (xs : list string) (x : string) : Z :=
  match xs with
  | [] => -1
  | y :: ys =>
      if String.eqb y x then 0
      else let i := indexOf ys x in if (i <? 0)%Z then -1 else (i + 1)%Z
  end.

(** [xs[i]]: [undefined] outside the array. *)
Definition at_ (xs : list string) (i : Z) : option string :=
  if (i <? 0)%Z then None else nth_error xs (Z.to_nat i).

(** [String(n)] for a non-negative integer. *)
Definition ofNat (n : nat) : string :=
  DecimalString.NilZero.string_of_uint (Nat.to_uint n).

(** *** Regular expressions

    The fragment of the pattern language the component uses: characters,
    the assertions [^] and [$] (without the multiline flag), sequence and
    alternation. *)
Inductive regex :=
| Chr (c : ascii)
| Bol
| Eol
| Cat (r1 r2 : regex)
| Alt (r1 r2 : regex).

(** [Canonicalize] under the [i] flag: the upper-case form of a code
    unit. *)
Definition canonicalize (ignoreCase : bool) (c : ascii) : ascii :=
  let n := code c in
  if ignoreCase &&
     ((97 <=? n) && (n <=? 122) || (224 <=? n) && (n <=? 254) && negb (n =? 247))%N
  then ascii_of_N (n - 32) else c.

(** Backtracking matcher: [matchAt ic r i s k] matches [r] at index [i],
    where [s] is the input from [i] on, and hands the index and the rest
    after the match to the continuation [k]. *)
Fixpoint matchAt (ic : bool) (r : regex) (i : nat) (s : string)
    (k : nat -> string -> bool) : bool :=
  match r with
  | Chr c =>
      match s with
      | String d s' =>
          if Ascii.eqb (canonicalize ic c) (canonicalize ic d) then k (S i) s' else false
      | EmptyString => false
      end
  | Bol => if Nat.eqb i 0 then k i s else false
  | Eol => match s with EmptyString => k i s | _ => false end
  | Cat r1 r2 => matchAt ic r1 i s (fun i' s' => matchAt ic r2 i' s' k)
  | Alt r1 r2 => matchAt ic r1 i s k || matchAt ic r2 i s k
  end.

Fixpoint searchFrom (ic : bool) (r : regex) (i : nat) (s : string) : bool :=
  matchAt ic r i s (fun _ _ => true) ||
  match s with
  | String _ s' => searchFrom ic r (S i) s'
  | EmptyString => false
  end.

(** [re.test(s)]: is there a match starting at some index of [s]. *)
Definition test (ic : bool) (r : regex) (s : string) : bool := searchFrom ic r 0 s.

End JsString.

(** ** Numbers and their text *)

Module JsConv.

#[local] Open Scope char_scope.
#[local] Open Scope string_scope.
#[local] Open Scope Z_scope.

Import JsString.

Definition isDigit (c : ascii) : bool :=
  let n := code c in ((48 <=? n) && (n <=? 57))%N.

Definition digitVal (c : ascii) : Z := Z.of_N (code c) - 48.

(** The longest run of decimal digits at the head of [s]: its value on top
    of [acc], the number of digits on top of [cnt], and the rest. *)
Fixpoint takeDigits (acc : Z) (cnt : nat) (s : string) : Z * nat * string :=
  match s with
  | String c r =>
      if isDigit c then takeDigits (10 * acc + digitVal c) (S cnt) r
      else (acc, cnt, s)
  | EmptyString => (acc, cnt, s)
  end.

(** The number value of [±m × 10^e]: the nearest binary64 value, ties to
    even; a quotient is rounded once, from its exact remainder. *)
Definition decimalSF (neg : bool) (m e : Z) : spec_float :=
  if m =? 0 then S754_zero neg
  else if 0 <=? e then binary_normalize prec emax (cond_Zopp neg (m * 10 ^ e)) 0 neg
  else
    let '(q, e', l) := SFdiv_core_binary prec emax m 0 (10 ^ (- e)) 0 in
    binary_round_aux prec emax neg q e' l.

Definition takeSign (s : string) : bool * string :=
  match s with
  | String "-" r => (true, r)
  | String "+" r => (false, r)
  | _ => (false, s)
  end.

(** The exponent part [e±ddd] at the head of [s], or 0 when there is none
    (an [e] that no digit follows is not part of the number). *)
Definition exponentPart (s : string) : Z :=
  match s with
  | String c r =>
      if Ascii.eqb c "e" || Ascii.eqb c "E" then
        let '(eneg, r') := takeSign r in
        let '(ev, en, _) := takeDigits 0 0 r' in
        match en with O => 0 | _ => cond_Zopp eneg ev end
      else 0
  | EmptyString => 0
  end.

(** [parseFloat(s)]: leading white space is skipped, then the longest
    prefix that is a decimal literal is read; [NaN] when there is none. *)
Definition parseFloat (input : string) : float :=
  let '(neg, s) := takeSign (trimStart input) in
  if startsWith "Infinity" s then (if neg then neg_infinity else infinity)
  else
    let '(iv, ic, s1) := takeDigits 0 0 s in
    let '(fv, fc, s2) :=
      match s1 with
      | String "." r => takeDigits iv 0 r
      | _ => (iv, O, s1)
      end in
    match ic, fc with
    | O, O => nan
    | _, _ => SF2Prim (decimalSF neg fv (exponentPart s2 - Z.of_nat fc))
    end.

(** [parseFloat(cols[i])]: an [undefined] argument is first converted to the
    string ["undefined"]. *)
Definition parseFloatCell (c : option string) : float :=
  match c with
  | Some s => parseFloat s
  | None => parseFloat "undefined"
  end.

(** Modelled from the spec: a field is numeric when it is, as a whole, the
    text of a number: an optional sign, digits with an optional point
    among them, an optional exponent, and nothing else.  [numberLiteral]
    is the test on the bare text, [numericText] the one on a field, around
    which white space does not count. *)
Definition numberLiteral (s : string) : bool :=
  let '(_, r) := takeSign s in
  let '(_, ic, r1) := takeDigits 0 0 r in
  let '(_, fc, r2) :=
    match r1 with
    | String "." t => takeDigits 0 0 t
    | _ => (0, O, r1)
    end in
  let r3 :=
    match r2 with
    | String c t =>
        if Ascii.eqb c "e" || Ascii.eqb c "E" then
          let '(_, t') := takeSign t in
          let '(_, en, t'') := takeDigits 0 0 t' in
          match en with O => r2 | _ => t'' end
        else r2
    | EmptyString => r2
    end in
  negb ((ic + fc =? 0)%nat) && (r3 =? "")%string.

Definition numericText (s : string) : bool := numberLiteral (trim s).

(** The fields that begin with a number: after white space and an optional
    sign comes a digit, or a point and a digit. *)
Definition startsNumber (s : string) : bool :=
  match snd (takeSign (trimStart s)) with
  | String c t =>
      isDigit c ||
      (Ascii.eqb c "." && match t with String d _ => isDigit d | EmptyString => false end)
  | EmptyString => false
  end.

(** The characters that cannot continue a number. *)
Definition endsNumber (c : ascii) : bool :=
  negb (isDigit c || Ascii.eqb c "." || Ascii.eqb c "e" || Ascii.eqb c "E").

(** *** [Number.prototype.toString]

    For a finite [x > 0] with exact value [num/den], ECMAScript asks for
    integers [n], [k], [s] with [10^(k-1) <= s < 10^k] such that
    [s × 10^(n-k)] has number value [x] and [k] is as small as possible,
    [s] being the closest to [x] among the candidates. *)

Definition ratOf (m : positive) (e : Z) : Z * Z :=
  if 0 <=? e then (Zpos m * 2 ^ e, 1) else (Zpos m, 2 ^ (- e)).

(** Is [num/den < 10^n]. *)
Definition belowPow10 (num den n : Z) : bool :=
  if 0 <=? n then num <? 10 ^ n * den else num * 10 ^ (- n) <? den.

(** The [n] with [10^(n-1) <= num/den < 10^n], searched upwards. *)
Fixpoint magnitude (fuel : nat) (num den n : Z) : Z :=
  match fuel with
  | O => n
  | S f => if belowPow10 num den n then n else magnitude f num den (n + 1)
  end.

(** [floor ((num/den) / 10^p)]. *)
Definition scaled (num den p : Z) : Z :=
  if 0 <=? p then num / (den * 10 ^ p) else (num * 10 ^ (- p)) / den.

(** [2·(num/den)] against [(2s+1)·10^p]: which of [s] and [s+1] is the
    closer to [num/den] at the scale [10^p]. *)
Definition midpoint (num den s p : Z) : comparison :=
  if 0 <=? p then 2 * num ?= (2 * s + 1) * 10 ^ p * den
  else 2 * num * 10 ^ (- p) ?= (2 * s + 1) * den.

Definition readsAs (x : spec_float) (s p : Z) : bool :=
  SFeqb (decimalSF false s p) x.

Definition normalizeDigits (s n k : Z) : Z * Z * Z :=
  if s =? 10 ^ k then (10 ^ (k - 1), n + 1, k) else (s, n, k).

Fixpoint shortest (fuel : nat) (x : spec_float) (num den n k : Z) : Z * Z * Z :=
  let p := n - k in
  let s0 := scaled num den p in
  let lo := readsAs x s0 p in
  let hi := readsAs x (s0 + 1) p in
  let nearest :=
    match midpoint num den s0 p with
    | Lt => s0
    | Gt => s0 + 1
    | Eq => if Z.even s0 then s0 else s0 + 1
    end in
  match fuel with
  | O => normalizeDigits nearest n k
  | S f =>
      if lo && hi then normalizeDigits nearest n k
      else if lo then normalizeDigits s0 n k
      else if hi then normalizeDigits (s0 + 1) n k
      else shortest f x num den n (k + 1)
  end.

Definition ofZ (z : Z) : string :=
  DecimalString.NilZero.string_of_uint (N.to_uint (Z.to_N z)).

Fixpoint zeros (n : nat) : string :=
  match n with O => EmptyString | S n' => String "0" (zeros n') end.

Definition formatDigits (s n k : Z) : string :=
  let ds := ofZ s in
  if (k <=? n) && (n <=? 21) then ds ++ zeros (Z.to_nat (n - k))
  else if (0 <? n) && (n <=? 21) then
    substring 0 (Z.to_nat n) ds ++ "." ++ substring (Z.to_nat n) (Z.to_nat (k - n)) ds
  else if (-6 <? n) && (n <=? 0) then "0." ++ zeros (Z.to_nat (- n)) ++ ds
  else
    let e := n - 1 in
    let es := (if e <? 0 then "-" else "+") ++ ofZ (Z.abs e) in
    if k =? 1 then ds ++ "e" ++ es
    else substring 0 1 ds ++ "." ++ substring 1 (Z.to_nat (k - 1)) ds ++ "e" ++ es.

Definition numberToString (x : float) : string :=
  match Prim2SF x with
  | S754_nan => "NaN"
  | S754_zero _ => "0"
  | S754_infinity s => if s then "-Infinity" else "Infinity"
  | S754_finite sg m e =>
      let '(num, den) := ratOf m e in
      let n := magnitude 640 num den (-323) in
      let '(s, n', k) := shortest 16 (S754_finite false m e) num den n 1 in
      (if sg then "-" else "") ++ formatDigits s n' k
  end.

Definition booleanToString (b : bool) : string := if b then "true" else "false".

(** The characters [numberToString] writes. *)
Definition numberChar (c : ascii) : bool := isDigit c || includes ".e+-NaInfity" c.

End JsConv.

(** ** The component's data *)

(** [interface RocketData].  The text fields are read with [cols[i]], which
    is [undefined] when the row has fewer cells than the header: [None]. *)
Record RocketData := {
  id : option string;
  latentx1 : float;
  latentx2 : float;
  design_var_1 : option string;
  design_var_2 : option string;
  feasible : bool
}.

(** [interface ViewState]. *)
Record ViewState := {
  target : float * float * float;
  zoom : float;
  bounds : option Bounds
}.

(** A function either returns or throws [new Error(message)]. *)
Inductive completion (A : Type) : Type :=
| Return (a : A)
| Throw (message : string).

Arguments Return {A} a.
Arguments Throw {A} message.

(** ** The tabular parser *)

Section Parser.

Import JsString JsConv.
#[local] Open Scope char_scope.
#[local] Open Scope string_scope.

(** The error the design document calls [SchemaError]. *)
Definition SchemaError : string :=
  "CSV must include 'latentx1' and 'latentx2' columns".

(** [/^true|1$/i]: the alternation binds loosest, so the pattern is
    [^true] or [1$]. *)
Definition feasiblePattern : regex :=
  Alt (Cat Bol (Cat (Chr "t") (Cat (Chr "r") (Cat (Chr "u") (Chr "e")))))
      (Cat (Chr "1") Eol).

Definition feasibleOf (rawFeas : string) : bool :=
  test true feasiblePattern (trim rawFeas).

(** [const delim = text.includes('\t') ? '\t' : (text.includes(';') ? ';' : ',')]. *)
Definition delimOf (text : string) : ascii :=
  if includes text TAB then TAB else if includes text ";" then ";" else ",".

(** [text.split(/\r?\n/).filter(Boolean)]. *)
Definition linesOf (text : string) : list string :=
  filter nonEmpty (splitLines text).

(** The column indices found in the header. *)
Record Columns := {
  ix : Z;
  iy : Z;
  iid : Z;
  idv1 : Z;
  idv2 : Z;
  ifeas : Z
}.

Definition columnsOf (delim : ascii) (header : string) : Columns :=
  let headers := map trim (split delim header) in
  let lower := map toLowerCase headers in
  {| ix := indexOf lower "latentx1";
     iy := indexOf lower "latentx2";
     iid := indexOf lower "id";
     idv1 := indexOf lower "design_var_1";
     idv2 := indexOf lower "design_var_2";
     ifeas := indexOf lower "feasible" |}.

(** The names the header is searched for: its cells, trimmed and in lower
    case. *)
Definition headerNames (text header : string) : list string :=
  map toLowerCase (map trim (split (delimOf text) header)).

(** The body of the row loop for [lines[i]]: [None] is the [continue] of a
    row whose coordinates are not both finite. *)
Definition parseRow (delim : ascii) (c : Columns) (i : nat) (line : string)
    : option RocketData :=
  let cols := map trim (split delim line) in
  let x := parseFloatCell (at_ cols (ix c)) in
  let y := parseFloatCell (at_ cols (iy c)) in
  if negb (Js.isFinite x) || negb (Js.isFinite y) then None
  else
    let rawFeas :=
      if (0 <=? ifeas c)%Z
      then match at_ cols (ifeas c) with Some s => s | None => "" end
      else "" in
    Some {| id := if (0 <=? iid c)%Z then at_ cols (iid c) else Some (ofNat (i - 1));
            latentx1 := x;
            latentx2 := y;
            design_var_1 := if (0 <=? idv1 c)%Z then at_ cols (idv1 c) else Some "";
            design_var_2 := if (0 <=? idv2 c)%Z then at_ cols (idv2 c) else Some "";
            feasible := feasibleOf rawFeas |}.

(** [for (let i = 1; i < lines.length; i++) { ... rows.push(...) }], run on
    the lines from index [i] on. *)
Fixpoint parseRows (delim : ascii) (c : Columns) (i : nat) (lines : list string)
    (rows : list RocketData) : list RocketData :=
  match lines with
  | [] => rows
  | line :: rest =>
      match parseRow delim c i line with
      | None => parseRows delim c (S i) rest rows
      | Some r => parseRows delim c (S i) rest (rows ++ [r])
      end
  end.

Definition parseCSV (text : string) : completion (list RocketData) :=
  let delim := delimOf text in
  match linesOf text with
  | [] => Return []
  | header :: rest =>
      let c := columnsOf delim header in
      if (ix c <? 0)%Z || (iy c <? 0)%Z then Throw SchemaError
      else Return (parseRows delim c 1 rest [])
  end.

End Parser.

(** ** The viewport fit *)

Section Viewport.

(** [Math.log2] is approximated by the host; [window.innerWidth] and
    [window.innerHeight] are read from the host. *)
Variable log2 : float -> float.
Variables innerWidth innerHeight : float.

Definition zoomToFit (data : list RocketData) (margin : float) : ViewState :=
  let xs := map latentx1 data in
  let ys := map latentx2 data in
  let minX := Js.min_list xs in
  let maxX := Js.max_list xs in
  let minY := Js.min_list ys in
  let maxY := Js.max_list ys in
  let w := Js.max2 1e-9 (maxX - minX) in
  let h := Js.max2 1e-9 (maxY - minY) in
  let cx := (minX + maxX) / 2 in
  let cy := (minY + maxY) / 2 in
  let vw := Js.max2 1 innerWidth in
  let vh := Js.max2 1 innerHeight in
  let span := Js.max2 w h * (1 + margin) in
  let screenSpan := Js.min2 vw vh in
  let scale := screenSpan / span in
  let zoom := log2 (Js.max2 scale 1e-6) in
  {| target := (cx, cy, 0); zoom := zoom; bounds := Some (minX, minY, maxX, maxY) |}.

End Viewport.

(** One host's [Math.log2], for the examples: [x = m·2^e] with [m] brought
    into [[0.75, 1.5)], and the series of [ln m] in [(m - 1) / (m + 1)].
    The theorems about [zoomToFit] hold for every [log2]. *)
Definition log2Approx (x : float) : float :=
  if is_nan x || (x <? 0) then nan
  else if x =? 0 then neg_infinity
  else if is_infinity x then infinity
  else
    let '(m0, e0) := frshiftexp x in
    let e := of_uint63 e0 - 2101 in
    let '(m, e) := if m0 <? 0.75 then (m0 * 2, e - 1) else (m0, e) in
    let z := (m - 1) / (m + 1) in
    let z2 := z * z in
    let series :=
      1 + z2 * (1 / 3 + z2 * (1 / 5 + z2 * (1 / 7 + z2 * (1 / 9 + z2 * (1 / 11 +
          z2 * (1 / 13 + z2 * (1 / 15 + z2 * (1 / 17 + z2 * (1 / 19 +
          z2 * (1 / 21 + z2 / 23)))))))))) in
    e + 2 * z * series / 0.6931471805599453.

(** The default of the [margin] parameter. *)
Definition defaultMargin : float := 0.1.

(** ** The selection and its export *)

Section Selection.

Import JsString JsConv.
#[local] Open Scope char_scope.
#[local] Open Scope string_scope.

(** [Map<string, RocketData>]: the entries in insertion order, one per
    key. *)
Definition SelectionMap : Type := list (option string * RocketData).

Definition exportHeader : list (option string) :=
  [Some "id"; Some "latentx1"; Some "latentx2";
   Some "design_var_1"; Some "design_var_2"; Some "feasible"].

Definition exportRow (d : RocketData) : list (option string) :=
  [id d; Some (numberToString (latentx1 d)); Some (numberToString (latentx2 d));
   design_var_1 d; design_var_2 d; Some (booleanToString (feasible d))].

(** The text [handleSelectionExport] puts in the download:
    [rows.map(r => r.join(',')).join('\n')]. *)
Definition exportText (selected : SelectionMap) : string :=
  let rows := exportHeader :: map (fun kv => exportRow (snd kv)) selected in
  join (String LF "") (map (fun r => Some (join "," r)) rows).

(** [handleSelectionExport] returns before it builds anything when the
    selection is empty: [None]. *)
Definition handleSelectionExport (selected : SelectionMap) : option string :=
  match selected with
  | [] => None
  | _ => Some (exportText selected)
  end.

(** The header line and the line of a record in the exported text. *)
Definition exportHeaderLine : string := join "," exportHeader.
Definition exportLine (d : RocketData) : string := join "," (exportRow d).


(** A character that is none of the separators the parser chooses from,
    nor a line feed. *)
Definition plainChar (c : ascii) : bool :=
  isNot TAB c && isNot ";" c && isNot "," c && isNot LF c.






(** A text field as the parser leaves it: when defined it is trimmed and
    holds no line feed. *)
Definition parsedField (f : option string) : Prop :=
  forall s, f = Some s -> trim s = s /\ allChars (isNot LF) s = true.

(** The selection state of the component. *)
Record SelectionState := {
  selected : SelectionMap;
  isSelecting : bool;
  selectionBounds : option (float * float * float * float)
}.

Definition clearSelection (st : SelectionState) : SelectionState :=
  {| selected := []; isSelecting := isSelecting st; selectionBounds := None |}.

(** The finalized rectangle of a drag, in world coordinates: two opposite
    corners [(x0, y0, x1, y1)]. *)
Definition WorldRect : Type := float * float * float * float.

(** Modelled from the spec: the handler that ends a drag gesture is not in
    the source, which declares the selection state and writes it in
    [clearSelection] only.  The design document has it add, to the
    selection, every record of the dataset whose point lies within the
    finalized rectangle in world coordinates, the entries being keyed by
    the record's id; entries already there are kept.  [inRect] is the
    containment test, the sides included. *)
Definition inRect (rect : WorldRect) (d : RocketData) : bool :=
  let '(x0, y0, x1, y1) := rect in
  (Js.min2 x0 x1 <=? latentx1 d)%float && (latentx1 d <=? Js.max2 x0 x1)%float &&
  (Js.min2 y0 y1 <=? latentx2 d)%float && (latentx2 d <=? Js.max2 y0 y1)%float.

Definition keyEqb (a b : option string) : bool :=
  match a, b with
  | Some x, Some y => String.eqb x y
  | None, None => true
  | _, _ => false
  end.

(** [map.set(k, v)]: the value of an existing key is replaced where it
    stands, a new key is added at the end. *)
Fixpoint mapSet (k : option string) (v : RocketData) (m : SelectionMap) : SelectionMap :=
  match m with
  | [] => [(k, v)]
  | (k', v') :: rest =>
      if keyEqb k k' then (k, v) :: rest else (k', v') :: mapSet k v rest
  end.

Fixpoint mapGet (k : option string) (m : SelectionMap) : option RocketData :=
  match m with
  | [] => None
  | (k', v') :: rest => if keyEqb k k' then Some v' else mapGet k rest
  end.

(** Modelled from the spec: the union of the selection with the records of
    [data] inside [rect]. *)
Definition selectRect (data : list RocketData) (rect : WorldRect)
    (m : SelectionMap) : SelectionMap :=
  fold_left (fun m d => if inRect rect d then mapSet (id d) d m else m) data m.

(** The writes of [selectRect], for records that are all inside the
    rectangle. *)
Definition setAll (records : list RocketData) (m : SelectionMap) : SelectionMap :=
  fold_left (fun m d => mapSet (id d) d m) records m.

(** Modelled from the spec: the end of a drag gesture, back in the idle
    state. *)
Definition endDrag (data : list RocketData) (rect : WorldRect)
    (st : SelectionState) : SelectionState :=
  {| selected := selectRect data rect (selected st);
     isSelecting := false;
     selectionBounds := None |}.

End Selection.

(** ** Loading *)

Section Loading.

Import JsString JsConv.
#[local] Open Scope string_scope.

(** A value that is thrown or that a promise is rejected with: an [Error]
    with its message, or something that is not an [Error]. *)
Inductive thrown :=
| ErrorValue (message : string)
| OtherValue.

(** What [response.text()] comes to. *)
Inductive bodyText :=
| TextRejects (e : thrown)
| TextResolves (text : string).

(** What [fetch('/data/combined.csv', ...)] comes to: a rejection, or a
    response with its [ok] flag and its body. *)
Inductive fetched :=
| FetchRejects (e : thrown)
| FetchResolves (ok : bool) (body : bodyText).

(** The argument of [toast]; [destructive] is [variant: "destructive"]. *)
Record Toast := {
  title : string;
  description : string;
  destructive : bool
}.

(** The calls a handler makes on the component's state and on the host, in
    the order it makes them. *)
Inductive Effect :=
| SetLoading (b : bool)
| SetData (d : list RocketData)
| SetViewState (v : ViewState)
| SetSelected (m : SelectionMap)
| SetSelectionBounds (b : option (float * float * float * float))
| ShowToast (t : Toast)
| ConsoleError (e : thrown).

Variable log2 : float -> float.
Variables innerWidth innerHeight : float.

(** The [try] block of [loadCSV] from the settled fetch on: the calls it
    makes, and the value it throws if it does.  ([zoomToFit] is taken to
    return: the argument limit of a spread call is the engine's and is not
    modelled.) *)
Definition loadCSVTry (f : fetched) : list Effect * option thrown :=
  match f with
  | FetchRejects e => ([], Some e)
  | FetchResolves ok body =>
      if negb ok then
        ([], Some (ErrorValue
           "CSV not found at /data/combined.csv. Please ensure the file exists."))
      else
        match body with
        | TextRejects e => ([], Some e)
        | TextResolves text =>
            match parseCSV text with
            | Throw message => ([], Some (ErrorValue message))
            | Return parsedData =>
                let newViewState :=
                  zoomToFit log2 innerWidth innerHeight parsedData defaultMargin in
                ([SetData parsedData;
                  SetViewState newViewState;
                  ShowToast {| title := "Data loaded successfully";
                               description := "Loaded " ++ ofNat (List.length parsedData)
                                              ++ " rocket designs";
                               destructive := false |}],
                 None)
            end
        end
  end.

(** The [catch] block: [error instanceof Error ? error.message : 'Failed to
    load CSV']. *)
Definition loadCSVCatch (error : thrown) : list Effect :=
  let message :=
    match error with
    | ErrorValue m => m
    | OtherValue => "Failed to load CSV"
    end in
  [ConsoleError error;
   ShowToast {| title := "Error loading data"; description := message;
                destructive := true |}].

(** [loadCSV]: [setLoading(true)], the [try] block, the [catch] block when
    something was thrown, and [setLoading(false)] in [finally]. *)
Definition loadCSV (f : fetched) : list Effect :=
  let '(done, error) := loadCSVTry f in
  (SetLoading true :: done ++
   match error with Some e => loadCSVCatch e | None => [] end ++
   [SetLoading false])%list.

(** The state of the component that the handlers write. *)
Record AppState := {
  data : list RocketData;
  loading : bool;
  viewState : ViewState;
  selection : SelectionState;
  toasts : list Toast
}.

Definition applyEffect (st : AppState) (e : Effect) : AppState :=
  match e with
  | SetLoading b =>
      {| data := data st; loading := b; viewState := viewState st;
         selection := selection st; toasts := toasts st |}
  | SetData d =>
      {| data := d; loading := loading st; viewState := viewState st;
         selection := selection st; toasts := toasts st |}
  | SetViewState v =>
      {| data := data st; loading := loading st; viewState := v;
         selection := selection st; toasts := toasts st |}
  | SetSelected m =>
      {| data := data st; loading := loading st; viewState := viewState st;
         selection := {| selected := m; isSelecting := isSelecting (selection st);
                         selectionBounds := selectionBounds (selection st) |};
         toasts := toasts st |}
  | SetSelectionBounds b =>
      {| data := data st; loading := loading st; viewState := viewState st;
         selection := {| selected := selected (selection st);
                         isSelecting := isSelecting (selection st);
                         selectionBounds := b |};
         toasts := toasts st |}
  | ShowToast t =>
      {| data := data st; loading := loading st; viewState := viewState st;
         selection := selection st; toasts := (toasts st ++ [t])%list |}
  | ConsoleError _ => st
  end.

Definition applyEffects (st : AppState) (es : list Effect) : AppState :=
  fold_left applyEffect es st.

End Loading.

(** ** The step field *)

(** [onChange] of the step field:
    [setGridStep(e.target.value ? parseFloat(e.target.value) : null)]. *)
Definition gridStepOfInput (value : string) : option float :=
  if JsString.nonEmpty value then Some (JsConv.parseFloat value) else None.

(** * Properties *)

(** ** Facts about binary64 numbers *)

Lemma SFcompare_refl (x : spec_float) :
  x <> S754_nan -> SFcompare x x = Some Eq.
Proof.
  destruct x as [s | s | | s m e]; simpl; try congruence; intros _.
  - now destruct s.
  - destruct s; rewrite Z.compare_refl, Pos.compare_cont_refl; reflexivity.
Qed.

Lemma is_nan_spec (x : float) : is_nan x = true <-> Prim2SF x = S754_nan.
Proof.
  unfold is_nan. rewrite FloatAxioms.eqb_spec. unfold SFeqb. split.
  - intros H. destruct (Prim2SF x) eqn:E; try reflexivity;
      rewrite SFcompare_refl in H by congruence; discriminate.
  - intros ->. reflexivity.
Qed.

Lemma is_nan_eq (x : float) : is_nan x = true <-> x = nan.
Proof.
  rewrite is_nan_spec. split.
  - intros H. apply Prim2SF_inj. rewrite H. reflexivity.
  - intros ->. reflexivity.
Qed.

Lemma eqb_zero_spec (x : float) :
  (x =? 0) = true <-> exists s, Prim2SF x = S754_zero s.
Proof.
  rewrite FloatAxioms.eqb_spec. change (Prim2SF 0) with (S754_zero false). unfold SFeqb.
  destruct (Prim2SF x) as [s | s | | s m e]; simpl.
  - split; eauto.
  - split; [destruct s; discriminate | intros [s' H']; discriminate].
  - split; [discriminate | intros [s' H']; discriminate].
  - split; [destruct s; discriminate | intros [s' H']; discriminate].
Qed.

Lemma eqb_zero_eq (x : float) : (x =? 0) = true <-> x = 0 \/ x = (-0).
Proof.
  rewrite eqb_zero_spec. split.
  - intros [s H]. destruct s; [right | left]; apply Prim2SF_inj; rewrite H; reflexivity.
  - intros [-> | ->]; eexists; reflexivity.
Qed.

Lemma truthy_spec (x : float) :
  Js.truthy x = false <-> x = 0 \/ x = (-0) \/ x = nan.
Proof.
  unfold Js.truthy. rewrite andb_false_iff, !negb_false_iff, eqb_zero_eq, is_nan_eq.
  tauto.
Qed.

Lemma leb_nan_l (x y : float) : x = nan -> (x <=? y) = false.
Proof. intros ->. rewrite FloatAxioms.leb_spec. reflexivity. Qed.

(** A number divided by a zero is infinite or [NaN]. *)
Lemma div_zero_class (x z : float) s :
  Prim2SF z = S754_zero s ->
  Prim2SF (x / z) = S754_nan \/ exists s', Prim2SF (x / z) = S754_infinity s'.
Proof.
  intros Hz. rewrite div_spec, Hz. unfold SF64div, SFdiv.
  destruct (Prim2SF x); eauto.
Qed.

Lemma floor_not_finite (x : float) :
  (forall s m e, Prim2SF x <> S754_finite s m e) -> Js.floor x = x.
Proof.
  intros H. unfold Js.floor, Js.floorSF. destruct (Prim2SF x) eqn:E;
    try (rewrite <- E; apply SF2Prim_Prim2SF).
  exfalso. eapply H. reflexivity.
Qed.

Lemma ceil_not_finite (x : float) :
  (forall s m e, Prim2SF x <> S754_finite s m e) -> Js.ceil x = x.
Proof.
  intros H. unfold Js.ceil, Js.ceilSF. destruct (Prim2SF x) eqn:E;
    try (rewrite <- E; apply SF2Prim_Prim2SF).
  exfalso. eapply H. reflexivity.
Qed.

(** [Math.floor(x / z) * z] is [NaN] when [z] is a zero or [NaN]: the
    first grid coordinate of a degenerate step. *)
Lemma floor_div_mul_falsy (x z : float) :
  Js.truthy z = false -> Js.floor (x / z) * z = nan.
Proof.
  intros H. apply is_nan_eq, is_nan_spec. rewrite mul_spec.
  assert (Hz : (exists s, Prim2SF z = S754_zero s) \/ Prim2SF z = S754_nan).
  { apply truthy_spec in H. destruct H as [-> | [-> | ->]];
      [left; exists false | left; exists true | right]; reflexivity. }
  destruct Hz as [[s Hz] | Hz].
  - destruct (div_zero_class x z s Hz) as [Hd | [s' Hd]].
    + rewrite floor_not_finite by (rewrite Hd; congruence). rewrite Hd. reflexivity.
    + rewrite floor_not_finite by (rewrite Hd; congruence). rewrite Hd, Hz. reflexivity.
  - rewrite Hz. unfold SF64mul, SFmul. destruct (Prim2SF (Js.floor (x / z))); reflexivity.
Qed.

(** ** More facts about binary64 numbers *)

Lemma SFcompare_antisym (x y : spec_float) :
  SFcompare y x = option_map CompOpp (SFcompare x y).
Proof.
  destruct x as [sx | sx | | sx mx ex], y as [sy | sy | | sy my ey]; simpl;
    try reflexivity; try (destruct sx; reflexivity); try (destruct sy; reflexivity);
    try (destruct sx, sy; reflexivity).
  destruct sx, sy; simpl; try reflexivity;
    rewrite (Z.compare_antisym ex ey); destruct (ex ?= ey)%Z; simpl; try reflexivity;
    rewrite (Pos.compare_cont_antisym mx my Eq); simpl;
    try rewrite CompOpp_involutive; reflexivity.
Qed.

Lemma is_finite_spec (x : float) : is_finite x = Js.finiteSF (Prim2SF x).
Proof.
  unfold is_finite, is_infinity. destruct (is_nan x) eqn:N.
  - apply is_nan_spec in N. now rewrite N.
  - cbn [orb]. rewrite FloatAxioms.eqb_spec, abs_spec.
    change (Prim2SF infinity) with (S754_infinity false).
    destruct (Prim2SF x) as [s | s | | s m e] eqn:E; try reflexivity.
    assert (is_nan x = true) by now apply is_nan_spec. congruence.
Qed.

Lemma leb_not_nan (a b : float) : (a <=? b) = true -> is_nan a = false /\ is_nan b = false.
Proof.
  rewrite FloatAxioms.leb_spec. intros H. split.
  - destruct (is_nan a) eqn:N; [| reflexivity]. apply is_nan_spec in N.
    rewrite N in H. discriminate.
  - destruct (is_nan b) eqn:N; [| reflexivity]. apply is_nan_spec in N.
    rewrite N in H. unfold SFleb in H. destruct (Prim2SF a); discriminate.
Qed.

Lemma ltb_leb (a b : float) : (a <? b) = true -> (a <=? b) = true.
Proof.
  rewrite FloatAxioms.ltb_spec, FloatAxioms.leb_spec. unfold SFltb, SFleb.
  destruct (SFcompare _ _) as [[] |]; congruence.
Qed.

Lemma not_ltb_leb (a b : float) :
  is_nan a = false -> is_nan b = false -> (a <? b) = false -> (b <=? a) = true.
Proof.
  intros Na Nb. rewrite FloatAxioms.ltb_spec, FloatAxioms.leb_spec. unfold SFltb, SFleb.
  rewrite (SFcompare_antisym (Prim2SF a) (Prim2SF b)).
  destruct (SFcompare (Prim2SF a) (Prim2SF b)) as [[] |] eqn:E; simpl; try congruence.
  exfalso. destruct (Prim2SF a) eqn:Ea, (Prim2SF b) eqn:Eb; simpl in E; try discriminate.
  - assert (is_nan b = true) by now apply is_nan_spec. congruence.
  - assert (is_nan b = true) by now apply is_nan_spec. congruence.
  - assert (is_nan a = true) by now apply is_nan_spec. congruence.
  - assert (is_nan a = true) by now apply is_nan_spec. congruence.
  - assert (is_nan a = true) by now apply is_nan_spec. congruence.
  - assert (is_nan a = true) by now apply is_nan_spec. congruence.
  - assert (is_nan b = true) by now apply is_nan_spec. congruence.
Qed.

Lemma is_finite_not_nan (x : float) : is_finite x = true -> is_nan x = false.
Proof. unfold is_finite. destruct (is_nan x); [discriminate | reflexivity]. Qed.

(** A finite number minus itself is [+0]. *)
Lemma sub_self (x : float) : is_finite x = true -> x - x = 0.
Proof.
  rewrite is_finite_spec. intros H. apply Prim2SF_inj. rewrite sub_spec.
  change (Prim2SF 0) with (S754_zero false).
  destruct (Prim2SF x) as [s | s | | s m e]; try discriminate.
  - now destruct s.
  - unfold SF64sub, SFsub. rewrite Z.sub_diag. reflexivity.
Qed.

Lemma min2_infinity (x : float) : Js.min2 infinity x = x.
Proof.
  unfold Js.min2. change (is_nan infinity) with false. cbn [orb].
  destruct (is_nan x) eqn:N; [symmetry; now apply is_nan_eq |].
  assert ((infinity <? x) = false) as ->.
  { rewrite FloatAxioms.ltb_spec. change (Prim2SF infinity) with (S754_infinity false).
    unfold SFltb. destruct (Prim2SF x) as [s | s | | s m e]; try reflexivity.
    now destruct s. }
  destruct (x <? infinity); reflexivity.
Qed.

Lemma max2_neg_infinity (x : float) : Js.max2 neg_infinity x = x.
Proof.
  unfold Js.max2. change (is_nan neg_infinity) with false. cbn [orb].
  destruct (is_nan x) eqn:N; [symmetry; now apply is_nan_eq |].
  destruct (neg_infinity <? x); [reflexivity |].
  assert ((x <? neg_infinity) = false) as ->.
  { rewrite FloatAxioms.ltb_spec. change (Prim2SF neg_infinity) with (S754_infinity true).
    unfold SFltb. destruct (Prim2SF x) as [s | s | | s m e]; try reflexivity;
      now destruct s. }
  reflexivity.
Qed.

(** [Math.max(1, v)] of a viewport side [v] of at most 2^31 - 1 pixels lies
    between 1 and 2^31 - 1. *)
Lemma max2_one_range (v : float) :
  (v <=? 2147483647) = true ->
  (1 <=? Js.max2 1 v) = true /\ (Js.max2 1 v <=? 2147483647) = true.
Proof.
  intros H. destruct (leb_not_nan _ _ H) as [N _]. unfold Js.max2.
  change (is_nan 1) with false. rewrite N. cbn [orb].
  destruct (1 <? v) eqn:L; [split; [now apply ltb_leb | exact H] |].
  assert (Hone : (1 <=? 1) = true /\ (1 <=? 2147483647) = true) by (split; reflexivity).
  destruct (v <? 1); [exact Hone |]. change (get_sign 1) with false. exact Hone.
Qed.

Lemma min2_range (a b lo hi : float) :
  (lo <=? a) = true /\ (a <=? hi) = true ->
  (lo <=? b) = true /\ (b <=? hi) = true ->
  (lo <=? Js.min2 a b) = true /\ (Js.min2 a b <=? hi) = true.
Proof.
  intros Ha Hb. destruct (leb_not_nan _ _ (proj2 Ha)) as [Na _].
  destruct (leb_not_nan _ _ (proj2 Hb)) as [Nb _].
  unfold Js.min2. rewrite Na, Nb. cbn [orb].
  destruct (a <? b); [exact Ha |]. destruct (b <? a); [exact Hb |].
  destruct (get_sign a); assumption.
Qed.

(** [Math.max(a, 1e-6)] of a finite [a] is finite and at least 1e-6. *)
Lemma max2_floor (a : float) :
  is_finite a = true ->
  is_finite (Js.max2 a 1e-6) = true /\ (1e-6 <=? Js.max2 a 1e-6) = true.
Proof.
  intros F. pose proof (is_finite_not_nan _ F) as N. unfold Js.max2.
  rewrite N. change (is_nan 1e-6) with false. cbn [orb].
  assert (Hfloor : is_finite 1e-6 = true /\ (1e-6 <=? 1e-6) = true) by (split; reflexivity).
  destruct (a <? 1e-6) eqn:L1; [exact Hfloor |].
  destruct (1e-6 <? a) eqn:L2; [split; [exact F | now apply ltb_leb] |].
  destruct (get_sign a); [exact Hfloor |].
  split; [exact F |]. now apply not_ltb_leb.
Qed.

Lemma leb_floor_positive (s : float) : (1e-6 <=? s) = true -> (0 <? s) = true.
Proof.
  rewrite FloatAxioms.leb_spec, FloatAxioms.ltb_spec.
  change (Prim2SF 1e-6) with (S754_finite false 4722366482869645 (-72)).
  change (Prim2SF 0) with (S754_zero false). unfold SFleb, SFltb.
  destruct (Prim2SF s) as [sg | sg | | sg m e]; simpl; try discriminate;
    destruct sg; try discriminate; reflexivity.
Qed.

(** ** Rounding does not overflow on small quotients *)

Section Rounding.

#[local] Open Scope Z_scope.

Lemma digits2_size (p : positive) : digits2_pos p = Pos.size p.
Proof. induction p; simpl; congruence. Qed.

Lemma Zdigits2_upper (m k : Z) : 0 <= m < 2 ^ k -> 0 <= k -> Zdigits2 m <= k.
Proof.
  intros [H0 Hm] Hk. destruct m as [| p | p]; simpl; [assumption | | lia].
  rewrite digits2_size. pose proof (Pos.size_le p) as H.
  assert (H' : 2 ^ Zpos (Pos.size p) <= 2 * Zpos p).
  { change (Zpos p~0) with (2 * Zpos p) in *.
    rewrite <- Pos2Z.inj_pow. change (2 * Zpos p) with (Zpos p~0). exact H. }
  assert (Hlt : 2 ^ Zpos (Pos.size p) < 2 ^ (k + 1)).
  { rewrite Z.pow_add_r by lia. lia. }
  apply Z.pow_lt_mono_r_iff in Hlt; lia.
Qed.

Lemma Zdigits2_mantissa (p : positive) (k : Z) :
  Zpos (digits2_pos p) = k -> Zpos p < 2 ^ k.
Proof.
  intros <-. rewrite digits2_size. pose proof (Pos.size_gt p) as H.
  rewrite <- Pos2Z.inj_pow. exact H.
Qed.

Lemma shr_1_bound (mrs : shr_record) :
  0 <= shr_m mrs -> 0 <= shr_m (shr_1 mrs) <= shr_m mrs.
Proof.
  destruct mrs as [m r s]. simpl. destruct m as [| p | p]; [simpl; lia | | lia].
  intros _. destruct p; simpl; lia.
Qed.

Lemma iter_shr_1_bound (p : positive) : forall mrs,
  0 <= shr_m mrs -> 0 <= shr_m (iter_pos shr_1 p mrs) <= shr_m mrs.
Proof.
  induction p as [p IH | p IH |]; intros mrs H; simpl.
  - pose proof (shr_1_bound mrs H) as H1.
    pose proof (IH _ (proj1 H1)) as H2. pose proof (IH _ (proj1 H2)) as H3. lia.
  - pose proof (IH _ H) as H2. pose proof (IH _ (proj1 H2)) as H3. lia.
  - now apply shr_1_bound.
Qed.

Lemma shr_record_of_loc_m (m : Z) (l : location) : shr_m (shr_record_of_loc m l) = m.
Proof. destruct l as [| []]; reflexivity. Qed.

Lemma shr_fexp_bounds (m e : Z) (l : location) :
  0 <= m ->
  0 <= shr_m (fst (shr_fexp prec emax m e l)) <= m /\
  snd (shr_fexp prec emax m e l) = Z.max e (fexp prec emax (Zdigits2 m + e)).
Proof.
  intros Hm. unfold shr_fexp, shr.
  destruct (fexp prec emax (Zdigits2 m + e) - e) as [| p | p] eqn:E; simpl.
  - rewrite shr_record_of_loc_m. lia.
  - pose proof (iter_shr_1_bound p (shr_record_of_loc m l)) as H.
    rewrite shr_record_of_loc_m in H. specialize (H Hm). lia.
  - rewrite shr_record_of_loc_m. lia.
Qed.

Lemma round_nearest_even_bounds (m : Z) (l : location) :
  m <= round_nearest_even m l <= m + 1.
Proof.
  unfold round_nearest_even. destruct l as [| []]; try lia. destruct (Z.even m); lia.
Qed.

(** A mantissa below 2^64 at an exponent of at most 900 rounds to a finite
    value. *)
Lemma binary_round_aux_finite (sx : bool) (mx ex : Z) (lx : location) :
  0 <= mx < 2 ^ 64 -> ex <= 900 ->
  Js.finiteSF (binary_round_aux prec emax sx mx ex lx) = true.
Proof.
  intros Hm He. unfold binary_round_aux.
  pose proof (shr_fexp_bounds mx ex lx (proj1 Hm)) as [Hm1 He1].
  destruct (shr_fexp prec emax mx ex lx) as [mrs' e1]. simpl in Hm1, He1.
  pose proof (round_nearest_even_bounds (shr_m mrs') (loc_of_shr_record mrs')) as Hr.
  set (m1 := round_nearest_even (shr_m mrs') (loc_of_shr_record mrs')) in *.
  assert (Hm1' : 0 <= m1 < 2 ^ 65).
  { change (2 ^ 65) with (2 * 2 ^ 64). lia. }
  pose proof (shr_fexp_bounds m1 e1 loc_Exact (proj1 Hm1')) as [Hm2 He2].
  destruct (shr_fexp prec emax m1 e1 loc_Exact) as [mrs'' e2]. simpl in Hm2, He2.
  pose proof (Zdigits2_upper mx 64 Hm ltac:(lia)) as Hd.
  pose proof (Zdigits2_upper m1 65 Hm1' ltac:(lia)) as Hd1.
  assert (Hd0 : 0 <= Zdigits2 mx) by (destruct mx; simpl; lia).
  assert (Hd10 : 0 <= Zdigits2 m1) by (destruct m1; simpl; lia).
  assert (He2' : e2 <= 971).
  { unfold fexp, emin, prec, emax in *. lia. }
  destruct (shr_m mrs'') as [| p | p]; [reflexivity | | lia].
  apply Z.leb_le in He2'. change (emax - prec) with 971. now rewrite He2'.
Qed.

(** The quotient of a number between 1 and 2^31 - 1 by the span of a single
    point, [1e-9 * 1.1], is finite. *)
Lemma SFdiv_point_span (m : positive) (e : Z) :
  Zpos (digits2_pos m) = 53 -> -52 <= e <= -22 ->
  Js.finiteSF (SFdiv prec emax (S754_finite false m e)
                 (S754_finite false 5319273606304369 (-82))) = true.
Proof.
  intros Hd He. unfold SFdiv, SFdiv_core_binary. cbn [Zdigits2]. rewrite Hd.
  change (Zpos (digits2_pos 5319273606304369)) with 53.
  replace (Z.min (fexp prec emax (53 + e - (53 + -82))) (e - -82)) with (e + 29)
    by (unfold fexp, emin, prec, emax; lia).
  replace (e - -82 - (e + 29)) with 53 by lia. cbv iota.
  rewrite Z.shiftl_mul_pow2 by lia.
  pose proof (Zdigits2_mantissa m 53 Hd) as Hm.
  pose proof (Z_div_mod (Zpos m * 2 ^ 53) 5319273606304369 eq_refl) as Hdiv.
  destruct (Z.div_eucl (Zpos m * 2 ^ 53) 5319273606304369) as [q r].
  destruct Hdiv as [Hq Hr].
  apply binary_round_aux_finite; [| lia].
  assert (0 < Zpos m) by lia.
  change (2 ^ 53) with 9007199254740992 in *. change (2 ^ 64) with 18446744073709551616.
  nia.
Qed.

End Rounding.

(** ** The grid builder *)

Section GridLoop.

Variable line : float -> GridLine.
Variables stop step : float.
Variable cap : nat.

(** A run of the loop only appends lines, one per increment of the counter,
    and leaves the counter at most one past the larger of its start and the
    cap. *)
Lemma gridLoop_appends : forall fuel c count lines count' lines',
  gridLoop fuel line stop step cap c count lines = Some (count', lines') ->
  exists added,
    lines' = (lines ++ added)%list /\
    count' = (count + List.length added)%nat /\
    (count' <= S (Nat.max count cap))%nat.
Proof.
  induction fuel as [| fuel IH]; intros c count lines count' lines' H; simpl in H.
  - discriminate.
  - destruct (c <=? stop + 1e-9).
    + destruct (Nat.ltb_spec cap (S count)).
      * injection H as <- <-. exists [line c]. simpl. repeat split; lia.
      * apply IH in H. destruct H as (added & -> & -> & Hle).
        exists (line c :: added). rewrite <- app_assoc. simpl. repeat split; lia.
    + injection H as <- <-. exists []. rewrite app_nil_r. simpl. repeat split; lia.
Qed.

(** The loop ends within [S cap - count] evaluations of its condition (and
    one evaluation at least). *)
Lemma gridLoop_returns : forall fuel c count lines,
  (1 <= fuel)%nat -> (S cap - count <= fuel)%nat ->
  exists r, gridLoop fuel line stop step cap c count lines = Some r.
Proof.
  induction fuel as [| fuel IH]; intros c count lines H1 H2; [lia |]. simpl.
  destruct (c <=? stop + 1e-9); [| eauto].
  destruct (Nat.ltb_spec cap (S count)); [eauto |].
  apply IH; lia.
Qed.

Lemma gridLoop_fuel_mono : forall fuel fuel' c count lines r,
  gridLoop fuel line stop step cap c count lines = Some r ->
  (fuel <= fuel')%nat ->
  gridLoop fuel' line stop step cap c count lines = Some r.
Proof.
  induction fuel as [| fuel IH]; intros fuel' c count lines r H Hle; [discriminate |].
  destruct fuel' as [| fuel']; [lia |]. simpl in *.
  destruct (c <=? stop + 1e-9); [| assumption].
  destruct (cap <? S count)%nat; [assumption |].
  apply IH; [assumption | lia].
Qed.

(** The loop does not run from a [NaN] coordinate. *)
Lemma gridLoop_nan : forall fuel count lines,
  gridLoop (S fuel) line stop step cap nan count lines = Some (count, lines).
Proof.
  intros. simpl. rewrite leb_nan_l; reflexivity.
Qed.

End GridLoop.

Section GridChain.

#[local] Open Scope float_scope.

Variable line : float -> GridLine.
Variables stop step : float.
Variable cap : nat.

(** A run of the loop from [c] appends the lines at [c], [c + step],
    [c + step + step], ...: all of them up to the first one that is beyond
    the end of the range, unless the counter ends the loop before. *)
Lemma gridLoop_chain : forall fuel c count lines count' lines',
  gridLoop fuel line stop step cap c count lines = Some (count', lines') ->
  exists n,
    lines' = (lines ++ map (fun k => line (Nat.iter k (fun c => c + step) c)) (seq 0 n))%list /\
    count' = (count + n)%nat /\
    (forall k, (k < n)%nat -> (Nat.iter k (fun c => c + step) c <=? stop + 1e-9) = true) /\
    ((cap < count')%nat \/ (Nat.iter n (fun c => c + step) c <=? stop + 1e-9) = false).
Proof.
  induction fuel as [| fuel IH]; intros c count lines count' lines' H; simpl in H.
  - discriminate.
  - destruct (c <=? stop + 1e-9) eqn:Hc.
    + destruct (Nat.ltb_spec cap (S count)) as [Hcap | Hcap].
      * injection H as <- <-. exists 1%nat.
        split; [reflexivity |]. split; [lia |]. split.
        -- intros k Hk. assert (k = 0%nat) as -> by lia. exact Hc.
        -- left. lia.
      * apply IH in H. destruct H as (n & -> & -> & Hin & Hend).
        exists (S n). split; [| split; [| split]].
        -- rewrite <- app_assoc. f_equal. cbn [seq map app Nat.iter]. f_equal.
           rewrite <- seq_shift, map_map. apply map_ext. intros k.
           now rewrite Nat.iter_succ_r.
        -- lia.
        -- intros [| k] Hk; [exact Hc |]. rewrite Nat.iter_succ_r. apply Hin. lia.
        -- rewrite Nat.iter_succ_r. destruct Hend as [Hend | Hend]; [left; lia | now right].
    + injection H as <- <-. exists 0%nat. simpl. rewrite app_nil_r.
      split; [reflexivity |]. split; [lia |]. split; [intros k Hk; lia | now right].
Qed.

End GridChain.

Lemma verticalPass_fuel_mono fuel fuel' bounds step r :
  verticalPass fuel bounds step = Some r -> (fuel <= fuel')%nat ->
  verticalPass fuel' bounds step = Some r.
Proof.
  destruct bounds as [[[minX minY] maxX] maxY]. unfold verticalPass.
  apply gridLoop_fuel_mono.
Qed.

Lemma buildGridPaths_fuel_mono fuel fuel' bounds step lines :
  buildGridPaths fuel bounds step = Some lines -> (fuel <= fuel')%nat ->
  buildGridPaths fuel' bounds step = Some lines.
Proof.
  destruct bounds as [[[minX minY] maxX] maxY]. unfold buildGridPaths. intros H Hle.
  destruct (verticalPass fuel _ _) as [[count vertical] |] eqn:Hv; [| discriminate].
  rewrite (verticalPass_fuel_mono _ _ _ _ _ Hv Hle).
  match type of H with
  | match ?g with _ => _ end = _ => destruct g as [[count' lines'] |] eqn:Hh; [| discriminate]
  end.
  rewrite (gridLoop_fuel_mono _ _ _ _ _ _ _ _ _ _ Hh Hle). assumption.
Qed.

Lemma verticalPass_returns fuel bounds step :
  (S MAX <= fuel)%nat -> exists r, verticalPass fuel bounds step = Some r.
Proof.
  intros H. destruct bounds as [[[minX minY] maxX] maxY]. unfold verticalPass.
  apply gridLoop_returns; lia.
Qed.

Lemma verticalPass_cap fuel bounds step count vertical :
  verticalPass fuel bounds step = Some (count, vertical) ->
  count = List.length vertical /\ (count <= S MAX)%nat.
Proof.
  destruct bounds as [[[minX minY] maxX] maxY]. unfold verticalPass. intros H.
  apply gridLoop_appends in H. destruct H as (added & -> & -> & Hle).
  simpl in *. split; [reflexivity | lia].
Qed.

(** Claim C1, as amended.  For every bounds and step the builder returns,
    and the length of its list is bounded whatever the step and the bounds
    are: the loops stop early through one counter that counts the vertical
    and the horizontal lines together.  The vertical lines come first, and
    their loop is not cut before the counter has reached [MAX]; the loop of
    the horizontal lines is not cut before the counter of all lines has
    reached [MAX * 2], so the horizontal lines have no cap of their own. *)
Theorem buildGridPaths_line_cap :
  exists N : nat, forall (minX minY maxX maxY : float) (step : option float),
    let bounds := (minX, minY, maxX, maxY) in
    let s := safeStep bounds step in
    let startX := Js.floor (minX / s) * s in
    let endX := Js.ceil (maxX / s) * s in
    let startY := Js.floor (minY / s) * s in
    let endY := Js.ceil (maxY / s) * s in
    exists vertical horizontal,
      (forall fuel, (S (MAX * 2) <= fuel)%nat ->
         verticalPass fuel bounds step = Some (List.length vertical, vertical) /\
         buildGridPaths fuel bounds step = Some (vertical ++ horizontal)%list) /\
      (List.length (vertical ++ horizontal) <= N)%nat /\
      ((List.length vertical < MAX)%nat ->
       (Nat.iter (List.length vertical) (fun c => c + s) startX <=? endX + 1e-9) = false) /\
      ((List.length vertical + List.length horizontal < MAX * 2)%nat ->
       (Nat.iter (List.length horizontal) (fun c => c + s) startY <=? endY + 1e-9) = false).
Proof.
  exists (S (MAX * 2)). intros minX minY maxX maxY step. cbv zeta.
  destruct (verticalPass_returns (S (MAX * 2)) (minX, minY, maxX, maxY) step)
    as [[count vertical] Hv]; [unfold MAX; lia |].
  pose proof (verticalPass_cap _ _ _ _ _ Hv) as [Hc Hcap].
  assert (Hb : exists lines, buildGridPaths (S (MAX * 2)) (minX, minY, maxX, maxY) step = Some lines).
  { unfold buildGridPaths. rewrite Hv.
    match goal with
    | |- exists _, match ?g with _ => _ end = _ =>
        destruct g as [[count' lines] |] eqn:Hh; [eauto |]
    end.
    edestruct gridLoop_returns as [r Hr]; cycle 2;
      [rewrite Hr in Hh; discriminate | lia | lia]. }
  destruct Hb as [lines Hb].
  pose proof Hb as Hb'. unfold buildGridPaths in Hb'. rewrite Hv in Hb'.
  match type of Hb' with
  | match ?g with _ => _ end = _ => destruct g as [[count' all] |] eqn:Hh; [| discriminate]
  end.
  injection Hb' as <-.
  pose proof Hv as Hv'. unfold verticalPass in Hv'.
  apply gridLoop_chain in Hv'. destruct Hv' as (nx & Hvert & Hnx & _ & Hxend).
  pose proof (gridLoop_appends _ _ _ _ _ _ _ _ _ _ Hh) as (horizontal & -> & Hcount & Hle).
  apply gridLoop_chain in Hh. destruct Hh as (ny & Hall & Hny & _ & Hyend).
  assert (Hlen : List.length horizontal = ny) by lia.
  assert (Hlenv : List.length vertical = nx) by lia.
  exists vertical, horizontal. split; [| split; [| split]].
  - intros fuel Hfuel. rewrite <- Hc. split.
    + eapply verticalPass_fuel_mono; eassumption.
    + eapply buildGridPaths_fuel_mono; eassumption.
  - rewrite length_app. unfold MAX in *. lia.
  - intros Hlt. rewrite Hlenv. destruct Hxend as [Hcut | Hend]; [| exact Hend].
    unfold MAX in *. lia.
  - intros Hlt. rewrite Hlen. destruct Hyend as [Hcut | Hend]; [| exact Hend].
    unfold MAX in *. lia.
Qed.

(** Claim C1, as stated, fails.  With the bounds (0, 0, 1, 500) and the
    step 1 there are 2 vertical lines and 501 horizontal ones: more than
    400 horizontal lines. *)
Lemma buildGridPaths_over_400 :
  exists count vertical lines,
    verticalPass 801 (0, 0, 1, 500) (Some 1) = Some (count, vertical) /\
    buildGridPaths 801 (0, 0, 1, 500) (Some 1) = Some lines /\
    List.length vertical = 2%nat /\
    (List.length lines - List.length vertical = 501)%nat /\
    ~ (List.length lines - List.length vertical <= 400)%nat.
Proof.
  destruct (verticalPass 801 (0, 0, 1, 500) (Some 1)) as [[count vertical] |] eqn:Hv;
    [| vm_compute in Hv; discriminate].
  destruct (buildGridPaths 801 (0, 0, 1, 500) (Some 1)) as [lines |] eqn:Hb;
    [| vm_compute in Hb; discriminate].
  exists count, vertical, lines. split; [reflexivity |]. split; [reflexivity |].
  assert (option_map (fun r => List.length (snd r)) (verticalPass 801 (0, 0, 1, 500) (Some 1)) = Some 2%nat)
    as H1 by (vm_compute; reflexivity).
  assert (option_map (@List.length _) (buildGridPaths 801 (0, 0, 1, 500) (Some 1)) = Some 503%nat)
    as H2 by (vm_compute; reflexivity).
  rewrite Hv in H1. rewrite Hb in H2. simpl in H1, H2.
  injection H1 as H1. injection H2 as H2. rewrite H1, H2.
  split; [reflexivity |]. split; [reflexivity | simpl; lia].
Qed.

(** The counter is tested after the line is pushed, [if (++count > MAX)
    break]: a loop that is cut has pushed one line more than the constant
    it is compared with.  With the bounds (0, 0, 1000, 1000) and the step 1
    the first loop leaves 401 lines and the list has 801. *)
Example buildGridPaths_counter_overshoot :
  option_map (fun r => List.length (snd r)) (verticalPass 801 (0, 0, 1000, 1000) (Some 1))
    = Some 401%nat /\
  option_map (@List.length GridLine) (buildGridPaths 801 (0, 0, 1000, 1000) (Some 1))
    = Some 801%nat.
Proof. split; vm_compute; reflexivity. Qed.

(** Claim C4, as amended.  The effective step is the explicit step when
    that is a number other than [0], [-0] and [NaN] (a negative or an
    infinite one included), and a tenth of the larger span when the step is
    absent, a zero or [NaN]; the argument that [layers] passes on gives the
    same step. *)
Theorem safeStep_explicit_or_fallback (minX minY maxX maxY : float) :
  let bounds := (minX, minY, maxX, maxY) in
  let fallback := Js.max2 (maxX - minX) (maxY - minY) / 10 in
  safeStep bounds None = fallback /\
  (forall s, s = 0 \/ s = (-0) \/ s = nan -> safeStep bounds (Some s) = fallback) /\
  (forall s, s <> 0 -> s <> (-0) -> s <> nan -> safeStep bounds (Some s) = s) /\
  (forall g, safeStep bounds (stepArgument g) = safeStep bounds g).
Proof.
  cbv zeta. split; [reflexivity |]. split; [| split].
  - intros s Hs. apply truthy_spec in Hs. unfold safeStep. rewrite Hs. reflexivity.
  - intros s H0 H1 H2. unfold safeStep.
    destruct (Js.truthy s) eqn:E; [reflexivity |].
    apply truthy_spec in E. tauto.
  - intros [g |]; [| reflexivity]. unfold stepArgument, safeStep.
    destruct (Js.truthy g) eqn:E; [rewrite E |]; reflexivity.
Qed.

(** Claim C4, as stated, fails: the negative step -5 and the step
    [Infinity] are kept as they are, where a tenth of the larger span
    is 1. *)
Lemma safeStep_keeps_negative :
  safeStep (0, 0, 10, 10) (Some (-5)) = (-5) /\
  (-5 <? 0) = true /\
  Js.max2 (10 - 0) (10 - 0) / 10 = 1 /\
  safeStep (0, 0, 10, 10) (Some infinity) = infinity /\
  is_finite infinity = false.
Proof. repeat split; vm_compute; reflexivity. Qed.

(** The grid of the bounds (0, 0, 10, 10) with the step 5, for any fuel
    from 4 on: three vertical lines and then three horizontal lines, at 0,
    5 and 10, the two at 0 being the major ones, since [(c / 5) % 5] is 0,
    1 and 2. *)
Theorem buildGridPaths_step_5 (fuel : nat) :
  buildGridPaths (4 + fuel) (0, 0, 10, 10) (Some 5) =
    Some [ {| path := ((0, 0), (0, 10)); major := true |};
           {| path := ((5, 0), (5, 10)); major := false |};
           {| path := ((10, 0), (10, 10)); major := false |};
           {| path := ((0, 0), (10, 0)); major := true |};
           {| path := ((0, 5), (10, 5)); major := false |};
           {| path := ((0, 10), (10, 10)); major := false |} ] /\
  map (fun c => Js.rem (c / 5) 5) [0; 5; 10] = [0; 1; 2] /\
  map (fun c => isMajor c 5) [0; 5; 10] = [true; false; false].
Proof.
  split; [| split; vm_compute; reflexivity].
  apply buildGridPaths_fuel_mono with (fuel := 4%nat); [| lia].
  vm_compute. reflexivity.
Qed.

(** The test of the source is one half of the rule of the design
    document: a remainder that is less than 1e-9 is less than 1e-9 away
    from a multiple of 5. *)
Lemma isMajor_within (c step : float) :
  isMajor c step = true -> majorWithinEpsilon c step = true.
Proof. unfold isMajor, majorWithinEpsilon. intros ->. reflexivity. Qed.

(** Claim C9.  The example holds: for the bounds (0, 0, 10, 10) and the
    step 5 there are three vertical and three horizontal lines, at 0, 5 and
    10, and only the two at 0 are major.  The rule does not hold of the
    code: the test of the source, [Math.abs((c / step) % 5) < 1e-9], finds
    a quotient that is just above a multiple of 5 and misses one that is
    just below.  For the bounds (0, 0, 1, 1) and the step 0.1 (also the
    automatic step there) the eleventh vertical line is at
    0.99999999999999989, ten steps from 0: its quotient
    9.9999999999999982 is less than 1e-9 away from 10, the remainder is
    4.9999999999999982, and the line is not flagged, while the lines at 0
    and at 0.5 are. *)
Theorem isMajor_misses_below :
  (forall fuel,
     buildGridPaths (4 + fuel) (0, 0, 10, 10) (Some 5) =
       Some [ {| path := ((0, 0), (0, 10)); major := true |};
              {| path := ((5, 0), (5, 10)); major := false |};
              {| path := ((10, 0), (10, 10)); major := false |};
              {| path := ((0, 0), (10, 0)); major := true |};
              {| path := ((0, 5), (10, 5)); major := false |};
              {| path := ((0, 10), (10, 10)); major := false |} ]) /\
  (forall c step, isMajor c step = true -> majorWithinEpsilon c step = true) /\
  (forall step, step = Some 0.1 \/ step = None ->
     option_map (fun r => map (fun l => (fst (fst (path l)), major l)) (snd r))
       (verticalPass 801 (0, 0, 1, 1) step) =
     Some [(0, true); (0.10000000000000001, false); (0.20000000000000001, false);
           (0.30000000000000004, false); (0.40000000000000002, false); (0.5, true);
           (0.59999999999999998, false); (0.69999999999999996, false);
           (0.79999999999999993, false); (0.89999999999999991, false);
           (0.99999999999999989, false)]) /\
  Nat.iter 10 (fun c => c + 0.1) 0 = 0.99999999999999989 /\
  0.99999999999999989 / 0.1 = 9.9999999999999982 /\
  (abs (0.99999999999999989 / 0.1 - 2 * 5) <? 1e-9) = true /\
  Js.rem (0.99999999999999989 / 0.1) 5 = 4.9999999999999982 /\
  majorWithinEpsilon 0.99999999999999989 0.1 = true /\
  isMajor 0.99999999999999989 0.1 = false.
Proof.
  split; [intros fuel; apply (buildGridPaths_step_5 fuel) |].
  split; [exact isMajor_within |].
  split; [intros step [-> | ->]; vm_compute; reflexivity |].
  repeat split; vm_compute; reflexivity.
Qed.

(** Claim C10.  The grid builder returns for every bounds and step: 801
    evaluations of a loop condition are enough for each loop, whatever the
    step does to the coordinate, since the counter ends the loop; and with
    an effective step that is a zero or [NaN] (a span of zero or [NaN] and
    no explicit step) neither loop runs at all. *)
Theorem buildGridPaths_terminates (bounds : Bounds) (step : option float) :
  (exists lines, forall fuel, (S (MAX * 2) <= fuel)%nat ->
     buildGridPaths fuel bounds step = Some lines) /\
  (Js.truthy (safeStep bounds step) = false ->
   forall fuel, buildGridPaths (S fuel) bounds step = Some []).
Proof.
  split.
  - assert (H : exists lines, buildGridPaths (S (MAX * 2)) bounds step = Some lines).
    { destruct (verticalPass_returns (S (MAX * 2)) bounds step) as [[count vertical] Hv];
        [unfold MAX; lia |].
      pose proof (verticalPass_cap _ _ _ _ _ Hv) as [_ Hc].
      destruct bounds as [[[minX minY] maxX] maxY]. unfold buildGridPaths. rewrite Hv.
      match goal with
      | |- exists _, match ?g with _ => _ end = _ =>
          destruct g as [[count' lines] |] eqn:Hh; [eauto |]
      end.
      edestruct gridLoop_returns as [r Hr]; cycle 2;
        [rewrite Hr in Hh; discriminate | lia | lia]. }
    destruct H as [lines H]. exists lines. intros fuel Hle.
    eapply buildGridPaths_fuel_mono; eassumption.
  - intros Hs fuel. destruct bounds as [[[minX minY] maxX] maxY].
    unfold buildGridPaths, verticalPass.
    rewrite !floor_div_mul_falsy by assumption.
    rewrite !gridLoop_nan. reflexivity.
Qed.

(** A negative step moves the coordinate away from the end of the range:
    both loops stop on the counter. *)
Example buildGridPaths_negative_step :
  option_map (@List.length GridLine) (buildGridPaths 801 (0, 0, 10, 10) (Some (-5)))
    = Some 801%nat /\
  option_map (fun r => List.length (snd r)) (verticalPass 801 (0, 0, 10, 10) (Some (-5)))
    = Some 401%nat.
Proof. split; vm_compute; reflexivity. Qed.

(** A single point and no explicit step: the step is a zero. *)
Example buildGridPaths_single_point :
  Js.truthy (safeStep (3, 4, 3, 4) None) = false /\
  buildGridPaths 1 (3, 4, 3, 4) None = Some [].
Proof. split; vm_compute; reflexivity. Qed.

(** ** The viewport fit *)

(** The screen span over the span of a single point is a finite number. *)
Lemma scale_point_finite (screenSpan : float) :
  (1 <=? screenSpan) = true -> (screenSpan <=? 2147483647) = true ->
  is_finite (screenSpan / (1e-9 * (1 + defaultMargin))) = true.
Proof.
  intros H1 H2. rewrite is_finite_spec, div_spec.
  change (Prim2SF (1e-9 * (1 + defaultMargin)))
    with (S754_finite false 5319273606304369 (-82)).
  rewrite FloatAxioms.leb_spec in H1, H2.
  change (Prim2SF 1) with (S754_finite false 4503599627370496 (-52)) in H1.
  change (Prim2SF 2147483647) with (S754_finite false 9007199250546688 (-22)) in H2.
  pose proof (Prim2SF_valid screenSpan) as Hv.
  destruct (Prim2SF screenSpan) as [s | s | | s m e].
  - discriminate H1.
  - destruct s; [discriminate H1 | discriminate H2].
  - discriminate H1.
  - destruct s; [discriminate H1 |].
    assert (He1 : (-52 <= e)%Z).
    { unfold SFleb, SFcompare in H1. destruct (Z.compare_spec (-52) e); [lia | lia | discriminate]. }
    assert (He2 : (e <= -22)%Z).
    { unfold SFleb, SFcompare in H2. destruct (Z.compare_spec e (-22)); [lia | lia | discriminate]. }
    apply SFdiv_point_span; [| lia].
    simpl in Hv. unfold bounded, canonical_mantissa in Hv.
    apply andb_true_iff in Hv. destruct Hv as [Hc _]. apply Z.eqb_eq in Hc.
    unfold fexp, emin, prec, emax in Hc. lia.
Qed.

(** Claim C8.  The fit of a single point with finite coordinates, in a viewport whose
    sides are at most 2^31 - 1 pixels: the bounds are the point itself, and
    the zoom is [Math.log2] of a finite number that is at least 1e-6, hence
    finite for every [Math.log2] that is finite on the finite positive
    numbers. *)
Theorem zoomToFit_single_point (log2 : float -> float)
    (innerWidth innerHeight : float) (r : RocketData) :
  is_finite (latentx1 r) = true -> is_finite (latentx2 r) = true ->
  (innerWidth <=? 2147483647) = true -> (innerHeight <=? 2147483647) = true ->
  let v := zoomToFit log2 innerWidth innerHeight [r] defaultMargin in
  bounds v = Some (latentx1 r, latentx2 r, latentx1 r, latentx2 r) /\
  (exists s, zoom v = log2 s /\
     is_finite s = true /\ (1e-6 <=? s) = true /\ (0 <? s) = true) /\
  ((forall t, is_finite t = true -> (0 <? t) = true -> is_finite (log2 t) = true) ->
   is_finite (zoom v) = true).
Proof.
  intros Fx Fy Hw Hh v.
  assert (Hv : v =
    {| target := ((latentx1 r + latentx1 r) / 2, (latentx2 r + latentx2 r) / 2, 0);
       zoom := log2 (Js.max2
                 (Js.min2 (Js.max2 1 innerWidth) (Js.max2 1 innerHeight) /
                  (1e-9 * (1 + defaultMargin))) 1e-6);
       bounds := Some (latentx1 r, latentx2 r, latentx1 r, latentx2 r) |}).
  { unfold v, zoomToFit, Js.min_list, Js.max_list. cbn [map fold_left].
    rewrite !min2_infinity, !max2_neg_infinity, !sub_self by assumption.
    reflexivity. }
  rewrite Hv. cbn [bounds zoom].
  pose proof (min2_range _ _ _ _ (max2_one_range _ Hw) (max2_one_range _ Hh)) as [S1 S2].
  pose proof (scale_point_finite _ S1 S2) as Fs.
  destruct (max2_floor _ Fs) as [Fm Lm].
  pose proof (leb_floor_positive _ Lm) as Pm.
  split; [reflexivity |]. split; [eauto 6 |].
  intros Hlog. now apply Hlog.
Qed.

(** Claim C8 for one point at (3, 4) in a window of 1920 by 1080 pixels. *)
Lemma zoomToFit_single_point_witness :
  let r := {| id := Some "a"%string; latentx1 := 3; latentx2 := 4;
              design_var_1 := None; design_var_2 := None; feasible := true |} in
  let v := zoomToFit log2Approx 1920 1080 [r] defaultMargin in
  bounds v = Some (3, 4, 3, 4) /\
  (exists s, zoom v = log2Approx s /\
     is_finite s = true /\ (1e-6 <=? s) = true /\ (0 <? s) = true).
Proof.
  cbv zeta.
  destruct (zoomToFit_single_point log2Approx 1920 1080
              {| id := Some "a"%string; latentx1 := 3; latentx2 := 4;
                 design_var_1 := None; design_var_2 := None; feasible := true |}
              eq_refl eq_refl eq_refl eq_refl) as (H1 & H2 & _).
  split; [exact H1 | exact H2].
Defined.

(** The same fit, evaluated. *)
Example zoomToFit_single_point_value :
  zoomToFit log2Approx 1920 1080
    [{| id := Some "a"%string; latentx1 := 3; latentx2 := 4;
        design_var_1 := None; design_var_2 := None; feasible := true |}] defaultMargin =
  {| target := (3, 4, 0); zoom := log2Approx 981818181818.18164;
     bounds := Some (3, 4, 3, 4) |}.
Proof. vm_compute. reflexivity. Qed.

(** ** The tabular parser *)

Section ParserFacts.

Import JsString JsConv.
#[local] Open Scope char_scope.
#[local] Open Scope string_scope.

Lemma indexOf_lower_bound (xs : list string) (x : string) : (-1 <= indexOf xs x)%Z.
Proof.
  induction xs as [| y ys IH]; simpl; [lia |].
  destruct (String.eqb y x); [lia |].
  destruct (Z.ltb_spec (indexOf ys x) 0); lia.
Qed.

Lemma indexOf_absent (xs : list string) (x : string) :
  (indexOf xs x <? 0)%Z = true <-> ~ In x xs.
Proof.
  induction xs as [| y ys IH]; simpl.
  - split; [tauto | reflexivity].
  - destruct (String.eqb_spec y x) as [-> | Hne].
    + split; [discriminate | tauto].
    + pose proof (indexOf_lower_bound ys x).
      destruct (Z.ltb_spec (indexOf ys x) 0) as [Hlt | Hge].
      * split; [intros _ | reflexivity]. intros [H' | H']; [congruence |].
        apply IH in H'; [assumption | reflexivity].
      * split; [intros H'; apply Z.ltb_lt in H'; lia |].
        intros Hn. exfalso. assert (Hf : (false = true) <-> ~ In x ys) by exact IH.
        apply Hn. right. destruct (in_dec string_dec x ys) as [Hin | Hin]; [assumption |].
        apply Hf in Hin. discriminate.
Qed.

Lemma ix_columnsOf text header :
  ix (columnsOf (delimOf text) header) = indexOf (headerNames text header) "latentx1".
Proof. reflexivity. Qed.

Lemma iy_columnsOf text header :
  iy (columnsOf (delimOf text) header) = indexOf (headerNames text header) "latentx2".
Proof. reflexivity. Qed.

(** Claim C3, as amended.  [parseCSV] throws, with the message of
    [SchemaError], exactly when the text has a first non-empty line and
    that line lacks one of the two coordinate names in any case; a text
    without any non-empty line yields the empty dataset. *)
Theorem parseCSV_schema_error (text : string) :
  (linesOf text = [] -> parseCSV text = Return []) /\
  (forall header rest, linesOf text = header :: rest ->
     ~ In "latentx1" (headerNames text header) \/ ~ In "latentx2" (headerNames text header) ->
     parseCSV text = Throw SchemaError) /\
  (forall message, parseCSV text = Throw message ->
     message = SchemaError /\
     exists header rest, linesOf text = header :: rest /\
       (~ In "latentx1" (headerNames text header) \/ ~ In "latentx2" (headerNames text header))).
Proof.
  unfold parseCSV. split; [| split].
  - intros ->. reflexivity.
  - intros header rest -> H. rewrite ix_columnsOf, iy_columnsOf.
    destruct H as [H | H]; apply indexOf_absent in H; rewrite H;
      [| rewrite orb_true_r]; reflexivity.
  - intros message. destruct (linesOf text) as [| header rest]; [discriminate |].
    rewrite ix_columnsOf, iy_columnsOf.
    destruct (_ || _) eqn:E; [| discriminate].
    intros H. injection H as <-. split; [reflexivity |].
    exists header, rest. split; [reflexivity |].
    apply orb_true_iff in E. destruct E as [E | E]; apply indexOf_absent in E; tauto.
Qed.

(** Claim C3, as stated, fails: the empty text and a text of line breaks
    only are not rejected (a header of blanks is). *)
Lemma parseCSV_empty_text :
  parseCSV "" = Return [] /\
  linesOf "" = [] /\
  parseCSV (String LF (String CR (String LF ""))) = Return [] /\
  parseCSV "   " = Throw SchemaError.
Proof. repeat split; vm_compute; reflexivity. Qed.

(** *** The feasible flag *)

Lemma canon_lower (c d : ascii) :
  In c ["t"%char; "r"%char; "u"%char; "e"%char; "1"%char] ->
  Ascii.eqb (canonicalize true c) (canonicalize true d) = Ascii.eqb c (lowerChar d).
Proof.
  intros H. simpl in H.
  destruct H as [<- | [<- | [<- | [<- | [<- | []]]]]];
    destruct d as [[] [] [] [] [] [] [] []]; reflexivity.
Qed.

Lemma searchFrom_feasible_inside (i : nat) (s : string) :
  searchFrom true feasiblePattern (S i) s = endsWithChar "1" s.
Proof.
  revert i. induction s as [| d r IH]; intros i; [reflexivity |].
  cbn [searchFrom]. rewrite IH.
  cbn [feasiblePattern matchAt Nat.eqb orb].
  rewrite canon_lower by (simpl; tauto).
  destruct r as [| d' r'].
  - cbn [endsWithChar]. destruct d as [[] [] [] [] [] [] [] []]; reflexivity.
  - destruct (Ascii.eqb "1" (lowerChar d)); reflexivity.
Qed.

Lemma matchAt_true_prefix (s : string) :
  matchAt true (Cat Bol (Cat (Chr "t") (Cat (Chr "r") (Cat (Chr "u") (Chr "e"))))) 0 s
    (fun _ _ => true) = startsWith "true" (toLowerCase s).
Proof.
  cbn [matchAt Nat.eqb].
  destruct s as [| c1 s]; [reflexivity |]. rewrite canon_lower by (simpl; tauto).
  cbn [toLowerCase startsWith]. destruct (Ascii.eqb "t" (lowerChar c1)); [| reflexivity].
  destruct s as [| c2 s]; [reflexivity |]. rewrite canon_lower by (simpl; tauto).
  cbn [toLowerCase startsWith andb]. destruct (Ascii.eqb "r" (lowerChar c2)); [| reflexivity].
  destruct s as [| c3 s]; [reflexivity |]. rewrite canon_lower by (simpl; tauto).
  cbn [toLowerCase startsWith andb]. destruct (Ascii.eqb "u" (lowerChar c3)); [| reflexivity].
  destruct s as [| c4 s]; [reflexivity |]. rewrite canon_lower by (simpl; tauto).
  cbn [toLowerCase startsWith andb]. destruct (Ascii.eqb "e" (lowerChar c4)); [| reflexivity].
  destruct (toLowerCase s); reflexivity.
Qed.

(** Claim C6, as amended.  The flag of a cell is true exactly when its
    trimmed text begins with "true" in any case, or ends with the
    character 1. *)
Theorem feasibleOf_spec (rawFeas : string) :
  feasibleOf rawFeas =
    startsWith "true" (toLowerCase (trim rawFeas)) || endsWithChar "1" (trim rawFeas).
Proof.
  unfold feasibleOf, test. generalize (trim rawFeas) as s. intros s.
  destruct s as [| d r]; [reflexivity |].
  cbn [searchFrom]. rewrite searchFrom_feasible_inside.
  change feasiblePattern with
    (Alt (Cat Bol (Cat (Chr "t") (Cat (Chr "r") (Cat (Chr "u") (Chr "e")))))
         (Cat (Chr "1") Eol)).
  cbn [matchAt]. fold (matchAt true (Cat Bol (Cat (Chr "t") (Cat (Chr "r") (Cat (Chr "u") (Chr "e"))))) 0 (String d r) (fun _ _ => true)).
  rewrite <- orb_assoc. f_equal.
  - pose proof (matchAt_true_prefix (String d r)) as H. cbn [matchAt Nat.eqb] in H. exact H.
  - rewrite canon_lower by (simpl; tauto). destruct r as [| d' r'].
    + cbn [endsWithChar]. destruct d as [[] [] [] [] [] [] [] []]; reflexivity.
    + cbn [endsWithChar].
      destruct (Ascii.eqb "1" (lowerChar d)); reflexivity.
Qed.

(** Claim C6, as stated, fails: the cell 01 is feasible though it neither
    begins with "true" nor is the string 1, and so is 11, a 1 followed by
    a further character. *)
Lemma feasibleOf_ends_with_1 :
  feasibleOf "01" = true /\
  startsWith "true" (toLowerCase (trim "01")) = false /\
  String.eqb (trim "01") "1" = false /\
  feasibleOf "11" = true /\
  feasibleOf "1x" = false.
Proof. repeat split; vm_compute; reflexivity. Qed.

(** *** Rows *)

Lemma parseRows_acc delim c lines : forall i rows,
  parseRows delim c i lines rows = (rows ++ parseRows delim c i lines [])%list.
Proof.
  induction lines as [| line rest IH]; intros i rows; simpl.
  - now rewrite app_nil_r.
  - destruct (parseRow delim c i line) as [r |]; [| apply IH].
    rewrite IH, (IH _ ([] ++ [r])%list), app_assoc. reflexivity.
Qed.

Lemma parseRows_app delim c l1 : forall l2 i rows,
  parseRows delim c i (l1 ++ l2) rows =
  parseRows delim c (i + List.length l1) l2 (parseRows delim c i l1 rows).
Proof.
  induction l1 as [| line rest IH]; intros l2 i rows; simpl.
  - now rewrite Nat.add_0_r.
  - destruct (parseRow delim c i line); rewrite IH; f_equal; lia.
Qed.

(** [parseFloat] reads the longest numeric prefix of a cell: a cell that
    begins with digits counts as the number they spell. *)
Example parseCSV_numeric_prefix :
  parseFloat "12abc" = 12%float /\
  parseCSV ("latentx1,latentx2" ++ String LF "12abc,2") =
    Return [ {| id := Some "0"; latentx1 := 12; latentx2 := 2;
                design_var_1 := Some ""; design_var_2 := Some ""; feasible := false |} ].
Proof. split; vm_compute; reflexivity. Qed.

End ParserFacts.

(** ** Text: characters, cells and lines *)

Section TextFacts.

Import JsString JsConv.
#[local] Open Scope char_scope.
#[local] Open Scope string_scope.

Lemma allChars_app p a b : allChars p (a ++ b) = allChars p a && allChars p b.
Proof.
  induction a as [| c a IH]; simpl; [reflexivity |].
  now rewrite IH, andb_assoc.
Qed.

Lemma allChars_weaken (p q : ascii -> bool) s :
  (forall c, p c = true -> q c = true) ->
  allChars p s = true -> allChars q s = true.
Proof.
  intros Hpq. induction s as [| c s IH]; simpl; [reflexivity |].
  rewrite !andb_true_iff. intros [Hc Hs]. auto.
Qed.

Lemma allChars_substring p s : forall n m,
  allChars p s = true -> allChars p (substring n m s) = true.
Proof.
  induction s as [| c s IH]; intros n m H.
  - destruct n, m; reflexivity.
  - simpl in H. apply andb_true_iff in H. destruct H as [Hc Hs].
    destruct n as [| n]; [destruct m as [| m] |]; simpl; auto.
    rewrite Hc. simpl. auto.
Qed.


Lemma nonEmpty_app_char a c b : nonEmpty (a ++ String c b) = true.
Proof. destruct a; reflexivity. Qed.

Lemma endsWithChar_app c a d b :
  endsWithChar c (a ++ String d b) = endsWithChar c (String d b).
Proof.
  induction a as [| x a IH]; [reflexivity |].
  change (String x a ++ String d b) with (String x (a ++ String d b)).
  cbn [endsWithChar]. destruct (a ++ String d b) eqn:E; [| exact IH].
  destruct a; discriminate.
Qed.

(** *** Cells *)

Lemma split_whole d s : allChars (isNot d) s = true -> split d s = [s].
Proof.
  induction s as [| c s IH]; simpl; [reflexivity |].
  rewrite andb_true_iff. unfold isNot at 1. intros [Hc Hs].
  apply negb_true_iff in Hc. rewrite Hc, IH by assumption. reflexivity.
Qed.



(** *** Lines *)

Lemma splitLines_whole s : allChars (isNot LF) s = true -> splitLines s = [s].
Proof.
  induction s as [| c s IH]; [reflexivity |]. simpl.
  rewrite andb_true_iff. unfold isNot at 1. intros [Hc Hs]. apply negb_true_iff in Hc.
  rewrite Hc, IH by assumption.
  destruct (Ascii.eqb c CR); [| reflexivity].
  destruct s as [| c' s']; [reflexivity |].
  simpl in Hs. apply andb_true_iff in Hs. destruct Hs as [Hc' _].
  unfold isNot in Hc'. apply negb_true_iff in Hc'. now rewrite Hc'.
Qed.

(** A line that has no LF and does not end with CR is cut off whole at the
    LF after it. *)
Lemma splitLines_app a b :
  allChars (isNot LF) a = true -> endsWithChar CR a = false ->
  splitLines (a ++ String LF b) = a :: splitLines b.
Proof.
  induction a as [| c a IH]; [reflexivity |].
  change (String c a ++ String LF b) with (String c (a ++ String LF b)).
  cbn [allChars splitLines]. rewrite andb_true_iff. unfold isNot at 1.
  intros [Hc Ha] He. apply negb_true_iff in Hc. rewrite Hc.
  assert (Hrec : splitLines (a ++ String LF b) = a :: splitLines b).
  { apply IH; [assumption |]. destruct a; [reflexivity | exact He]. }
  rewrite Hrec.
  destruct (Ascii.eqb_spec c CR) as [-> | Hne]; [| reflexivity].
  destruct a as [| c' a']; [simpl in He; discriminate |].
  change (String c' a' ++ String LF b) with (String c' (a' ++ String LF b)). cbv iota.
  simpl in Ha. apply andb_true_iff in Ha. destruct Ha as [Hc' _].
  unfold isNot in Hc'. apply negb_true_iff in Hc'. now rewrite Hc'.
Qed.

Lemma splitLines_join (lines : list string) :
  lines <> [] ->
  Forall (fun l => allChars (isNot LF) l = true /\ endsWithChar CR l = false) lines ->
  splitLines (join (String LF "") (map Some lines)) = lines.
Proof.
  induction lines as [| l rest IH]; [congruence |]. intros _ H.
  inversion H as [| ? ? [Hl He] Hrest]; subst.
  destruct rest as [| l' rest'].
  - simpl. now apply splitLines_whole.
  - change (join (String LF "") (map Some (l :: l' :: rest')))
      with (l ++ String LF (join (String LF "") (map Some (l' :: rest')))).
    rewrite splitLines_app by assumption. rewrite IH by (auto; congruence). reflexivity.
Qed.


(** *** Trimming *)

Lemma trimEnd_idem s : trimEnd (trimEnd s) = trimEnd s.
Proof.
  induction s as [| c s IH]; [reflexivity |]. simpl.
  destruct (trimEnd s) as [| c' s'] eqn:E.
  - destruct (isWhiteSpace c) eqn:W; [reflexivity |]. simpl. now rewrite W.
  - simpl in IH |- *. destruct (trimEnd s') eqn:E'.
    + destruct (isWhiteSpace c'); [discriminate |]. now rewrite IH.
    + now rewrite IH.
Qed.

Lemma trimStart_fixed s :
  match s with String c _ => isWhiteSpace c = false | EmptyString => True end ->
  trimStart s = s.
Proof. destruct s as [| c s]; simpl; [reflexivity |]. now intros ->. Qed.

Lemma trimStart_head s :
  match trimStart s with String c _ => isWhiteSpace c = false | EmptyString => True end.
Proof.
  induction s as [| c s IH]; simpl; [exact I |].
  destruct (isWhiteSpace c) eqn:W; [exact IH | exact W].
Qed.

Lemma trimEnd_head s :
  match s with String c _ => isWhiteSpace c = false | EmptyString => True end ->
  match trimEnd s with String c _ => isWhiteSpace c = false | EmptyString => True end.
Proof.
  destruct s as [| c s]; simpl; [trivial |]. intros W.
  destruct (trimEnd s); [rewrite W |]; exact W.
Qed.

Lemma trim_idem s : trim (trim s) = trim s.
Proof.
  unfold trim. rewrite (trimStart_fixed (trimEnd (trimStart s))).
  - apply trimEnd_idem.
  - apply trimEnd_head, trimStart_head.
Qed.

Lemma trimEnd_plain s : allChars (fun c => negb (isWhiteSpace c)) s = true -> trimEnd s = s.
Proof.
  induction s as [| c s IH]; simpl; [reflexivity |].
  rewrite andb_true_iff, negb_true_iff. intros [W Hs]. rewrite IH by assumption.
  destruct s; [now rewrite W | reflexivity].
Qed.

Lemma trim_plain s : allChars (fun c => negb (isWhiteSpace c)) s = true -> trim s = s.
Proof.
  intros H. unfold trim. rewrite trimStart_fixed; [now apply trimEnd_plain |].
  destruct s as [| c s]; [exact I |]. simpl in H.
  apply andb_true_iff in H. now apply negb_true_iff.
Qed.

Lemma allChars_trimStart p s : allChars p s = true -> allChars p (trimStart s) = true.
Proof.
  induction s as [| c s IH]; simpl; [reflexivity |]. intros H.
  destruct (isWhiteSpace c); [| exact H].
  apply andb_true_iff in H. now apply IH.
Qed.

Lemma allChars_trimEnd p s : allChars p s = true -> allChars p (trimEnd s) = true.
Proof.
  induction s as [| c s IH]; simpl; [reflexivity |].
  rewrite andb_true_iff. intros [Hc Hs]. specialize (IH Hs).
  destruct (trimEnd s); [destruct (isWhiteSpace c); simpl; [reflexivity | now rewrite Hc] |].
  simpl in *. now rewrite Hc, IH.
Qed.

Lemma allChars_trim p s : allChars p s = true -> allChars p (trim s) = true.
Proof. intros H. now apply allChars_trimEnd, allChars_trimStart. Qed.

End TextFacts.

(** ** Export and re-parse *)

Section RoundTrip.

Import JsString JsConv.
#[local] Open Scope char_scope.
#[local] Open Scope string_scope.

Lemma string_of_uint_digits (d : Decimal.uint) :
  allChars isDigit (NilEmpty.string_of_uint d) = true.
Proof. induction d; simpl; auto. Qed.

Lemma ofZ_digits (z : Z) : allChars isDigit (ofZ z) = true.
Proof.
  unfold ofZ, NilZero.string_of_uint.
  destruct (N.to_uint (Z.to_N z)) eqn:E; try reflexivity;
    rewrite <- E; apply string_of_uint_digits.
Qed.

Lemma ofNat_digits (n : nat) : allChars isDigit (ofNat n) = true.
Proof.
  unfold ofNat, NilZero.string_of_uint.
  destruct (Nat.to_uint n) eqn:E; try reflexivity;
    rewrite <- E; apply string_of_uint_digits.
Qed.

Lemma digit_numberChar c : isDigit c = true -> numberChar c = true.
Proof. unfold numberChar. now intros ->. Qed.

Lemma zeros_chars n : allChars numberChar (zeros n) = true.
Proof. induction n; simpl; auto. Qed.

Lemma formatDigits_chars s n k : allChars numberChar (formatDigits s n k) = true.
Proof.
  pose proof (allChars_weaken _ _ _ digit_numberChar (ofZ_digits s)) as Hs.
  pose proof (fun z => allChars_weaken _ _ _ digit_numberChar (ofZ_digits z)) as Hz.
  unfold formatDigits.
  repeat match goal with
  | |- context [if ?b then _ else _] => destruct b
  end;
  repeat rewrite allChars_app;
  repeat rewrite allChars_substring by exact Hs;
  repeat rewrite zeros_chars; repeat rewrite Hs; repeat rewrite Hz; reflexivity.
Qed.

Lemma numberToString_chars (x : float) : allChars numberChar (numberToString x) = true.
Proof.
  unfold numberToString. destruct (Prim2SF x) as [s | s | | s m e]; try reflexivity.
  - destruct s; reflexivity.
  - destruct (ratOf m e) as [num den].
    destruct (shortest _ _ _ _ _ _) as [[s' n'] k].
    rewrite allChars_app, formatDigits_chars. destruct s; reflexivity.
Qed.

Lemma numberChar_plain c : numberChar c = true -> plainChar c = true.
Proof. destruct c as [[] [] [] [] [] [] [] []]; vm_compute; congruence. Qed.

Lemma numberChar_not_space c : numberChar c = true -> negb (isWhiteSpace c) = true.
Proof. destruct c as [[] [] [] [] [] [] [] []]; vm_compute; congruence. Qed.

Lemma digit_plain c : isDigit c = true -> plainChar c = true.
Proof. intros H. now apply numberChar_plain, digit_numberChar. Qed.

Lemma plainChar_parts c :
  plainChar c = true ->
  isNot TAB c = true /\ isNot ";" c = true /\ isNot "," c = true /\ isNot LF c = true.
Proof. unfold plainChar. rewrite !andb_true_iff. tauto. Qed.




Lemma exportHeader_plain :
  Forall (fun c => allChars plainChar (cellText c) = true) exportHeader.
Proof. repeat constructor. Qed.




End RoundTrip.

Section RoundTripText.

Import JsString JsConv.
#[local] Open Scope char_scope.
#[local] Open Scope string_scope.

Lemma allChars_join p sep cells :
  allChars p sep = true ->
  Forall (fun c => allChars p (cellText c) = true) cells ->
  allChars p (join sep cells) = true.
Proof.
  intros Hsep. induction 1 as [| c rest Hc Hrest IH]; [reflexivity |].
  destruct rest as [| c' rest']; [exact Hc |].
  change (join sep (c :: c' :: rest')) with (cellText c ++ sep ++ join sep (c' :: rest')).
  now rewrite !allChars_app, Hc, Hsep, IH.
Qed.

Lemma endsWithChar_cons c x r :
  nonEmpty r = true -> endsWithChar c (String x r) = endsWithChar c r.
Proof. destruct r; [discriminate | reflexivity]. Qed.

Lemma endsWithChar_append c a b :
  nonEmpty b = true -> endsWithChar c (a ++ b) = endsWithChar c b.
Proof. destruct b as [| d b]; [discriminate |]. intros _. apply endsWithChar_app. Qed.

Lemma join_nonEmpty_last sep (cells : list (option string)) (last : string) :
  nonEmpty last = true -> nonEmpty (join sep (cells ++ [Some last])) = true.
Proof.
  intros H. induction cells as [| c rest IH]; [exact H |].
  change ((c :: rest) ++ [Some last])%list with (c :: (rest ++ [Some last]))%list.
  destruct (rest ++ [Some last])%list as [| c' rest'] eqn:E; [destruct rest; discriminate |].
  change (join sep (c :: c' :: rest')) with (cellText c ++ sep ++ join sep (c' :: rest')).
  destruct (cellText c); [| reflexivity]. destruct sep; [exact IH | reflexivity].
Qed.

(** A joined line ends as its last cell does. *)
Lemma endsWithChar_join c x (cells : list (option string)) (last : string) :
  nonEmpty last = true ->
  endsWithChar c (join (String x "") (cells ++ [Some last])) = endsWithChar c last.
Proof.
  intros H. induction cells as [| c0 rest IH]; [reflexivity |].
  change ((c0 :: rest) ++ [Some last])%list with (c0 :: (rest ++ [Some last]))%list.
  pose proof (join_nonEmpty_last (String x "") rest last H) as Hne.
  destruct (rest ++ [Some last])%list as [| c' rest'] eqn:E; [destruct rest; discriminate |].
  change (join (String x "") (c0 :: c' :: rest'))
    with (cellText c0 ++ String x (join (String x "") (c' :: rest'))).
  rewrite endsWithChar_app, endsWithChar_cons by exact Hne. exact IH.
Qed.




Lemma exportText_lines (sel : SelectionMap) :
  exportText sel =
  join (String LF "") (map Some (exportHeaderLine :: map exportLine (map snd sel))).
Proof.
  unfold exportText. cbn [map]. rewrite !map_map. reflexivity.
Qed.


End RoundTripText.

Section ParsedRecords.

Import JsString JsConv.
#[local] Open Scope char_scope.
#[local] Open Scope string_scope.

Lemma splitLines_no_LF_bounded (n : nat) : forall s,
  (String.length s <= n)%nat ->
  Forall (fun l => allChars (isNot LF) l = true) (splitLines s).
Proof.
  induction n as [| n IH]; intros s Hlen.
  - destruct s; [repeat constructor | simpl in Hlen; lia].
  - destruct s as [| c r]; [repeat constructor |]. simpl in Hlen.
    assert (Hr : Forall (fun l => allChars (isNot LF) l = true) (splitLines r))
      by (apply IH; lia).
    assert (Hkeep : Ascii.eqb c LF = false ->
              Forall (fun l => allChars (isNot LF) l = true)
                match splitLines r with
                | h :: t => String c h :: t
                | [] => [String c ""]
                end).
    { intros Hc. destruct (splitLines r) as [| h t].
      - repeat constructor. simpl. unfold isNot. now rewrite Hc.
      - inversion Hr; subst. constructor; [| assumption].
        simpl. unfold isNot at 1. now rewrite Hc. }
    cbn [splitLines]. destruct (Ascii.eqb c LF) eqn:Hc; [constructor; [reflexivity | exact Hr] |].
    destruct (Ascii.eqb c CR); [| now apply Hkeep].
    destruct r as [| c' r']; [now apply Hkeep |].
    destruct (Ascii.eqb c' LF); [| now apply Hkeep].
    constructor; [reflexivity |]. apply IH. simpl in Hlen. lia.
Qed.

Lemma splitLines_no_LF s : Forall (fun l => allChars (isNot LF) l = true) (splitLines s).
Proof. now apply (splitLines_no_LF_bounded (String.length s)). Qed.

Lemma split_chars p d s :
  allChars p s = true -> Forall (fun x => allChars p x = true) (split d s).
Proof.
  induction s as [| c s IH]; simpl; [repeat constructor |].
  rewrite andb_true_iff. intros [Hc Hs]. specialize (IH Hs).
  destruct (Ascii.eqb c d); [constructor; [reflexivity | exact IH] |].
  destruct (split d s) as [| h t]; [repeat constructor; simpl; now rewrite Hc |].
  inversion IH; subst. constructor; [simpl; now rewrite Hc | assumption].
Qed.

Lemma at_In (xs : list string) (i : Z) (s : string) : at_ xs i = Some s -> In s xs.
Proof.
  unfold at_. destruct (i <? 0)%Z; [discriminate |]. apply nth_error_In.
Qed.

Lemma cell_parsedField delim line i :
  allChars (isNot LF) line = true ->
  parsedField (at_ (map trim (split delim line)) i).
Proof.
  intros Hline s Hs. apply at_In, in_map_iff in Hs. destruct Hs as (s0 & <- & Hin).
  split; [apply trim_idem |]. apply allChars_trim.
  pose proof (split_chars _ delim _ Hline) as H. rewrite Forall_forall in H. now apply H.
Qed.

Lemma digits_parsedField s : allChars isDigit s = true -> parsedField (Some s).
Proof.
  intros H s' E. injection E as <-. split.
  - apply trim_plain. eapply allChars_weaken; [| exact H].
    intros c Hc. now apply numberChar_not_space, digit_numberChar.
  - eapply allChars_weaken; [| exact H]. intros c Hc.
    apply digit_plain, plainChar_parts in Hc. tauto.
Qed.

(** A record the row loop keeps has finite coordinates and text fields as
    [parsedField] describes. *)
Lemma parseRow_shape delim c i line d :
  allChars (isNot LF) line = true ->
  parseRow delim c i line = Some d ->
  parsedField (id d) /\ parsedField (design_var_1 d) /\ parsedField (design_var_2 d) /\
  Js.isFinite (latentx1 d) = true /\ Js.isFinite (latentx2 d) = true.
Proof.
  intros Hline. unfold parseRow.
  destruct (Js.isFinite (parseFloatCell (at_ _ (ix c)))) eqn:Fx; [| discriminate].
  destruct (Js.isFinite (parseFloatCell (at_ _ (iy c)))) eqn:Fy; [| discriminate].
  cbn [negb orb]. intros H. injection H as <-. cbn [id design_var_1 design_var_2 latentx1 latentx2].
  split; [| split; [| split; [| split; assumption]]].
  - destruct (0 <=? iid c)%Z; [now apply cell_parsedField |].
    apply digits_parsedField, ofNat_digits.
  - destruct (0 <=? idv1 c)%Z; [now apply cell_parsedField |]. now apply digits_parsedField.
  - destruct (0 <=? idv2 c)%Z; [now apply cell_parsedField |]. now apply digits_parsedField.
Qed.

Lemma parseRows_In delim c lines : forall i rows d,
  In d (parseRows delim c i lines rows) ->
  In d rows \/ exists i' line, In line lines /\ parseRow delim c i' line = Some d.
Proof.
  induction lines as [| line rest IH]; intros i rows d H; simpl in H; [now left |].
  destruct (parseRow delim c i line) as [r |] eqn:E.
  - apply IH in H. destruct H as [H | (i' & l & Hl & Hr)].
    + apply in_app_iff in H. destruct H as [H | [<- | []]]; [now left |].
      right. exists i, line. split; [now left | assumption].
    + right. exists i', l. split; [now right | assumption].
  - apply IH in H. destruct H as [H | (i' & l & Hl & Hr)]; [now left |].
    right. exists i', l. split; [now right | assumption].
Qed.

Lemma parseCSV_shape text dataset d :
  parseCSV text = Return dataset -> In d dataset ->
  parsedField (id d) /\ parsedField (design_var_1 d) /\ parsedField (design_var_2 d) /\
  Js.isFinite (latentx1 d) = true /\ Js.isFinite (latentx2 d) = true.
Proof.
  unfold parseCSV. destruct (linesOf text) as [| header rest] eqn:Hlines.
  - intros H. injection H as <-. intros [].
  - destruct (_ || _); [discriminate |]. intros H. injection H as <-. intros Hd.
    apply parseRows_In in Hd. destruct Hd as [[] | (i & line & Hline & Hrow)].
    eapply parseRow_shape; [| exact Hrow].
    assert (Hin : In line (linesOf text)) by (rewrite Hlines; now right).
    unfold linesOf in Hin. apply filter_In in Hin. destruct Hin as [Hin _].
    pose proof (splitLines_no_LF text) as H. rewrite Forall_forall in H. now apply H.
Qed.





(** A cell the row did not have is exported as the empty text and read
    back as such, and the negative zero is printed as 0. *)
Example export_reparse_other_losses :
  let text := "latentx1,latentx2,id" ++ String LF "1,2" in
  let r := {| id := None; latentx1 := 1; latentx2 := 2;
              design_var_1 := Some ""; design_var_2 := Some ""; feasible := false |} in
  parseCSV text = Return [r] /\
  parseCSV (exportText [(None, r)]) =
    Return [ {| id := Some ""; latentx1 := 1; latentx2 := 2;
                design_var_1 := Some ""; design_var_2 := Some ""; feasible := false |} ] /\
  numberToString (-0) = "0" /\ parseFloat "0" = 0%float /\
  PrimFloat.Leibniz.eqb (-0) 0 = false.
Proof. cbv zeta. repeat split; vm_compute; reflexivity. Qed.

End ParsedRecords.

(** ** The rows that are left out *)

Section SkippedRows.

Import JsString JsConv.
#[local] Open Scope char_scope.
#[local] Open Scope string_scope.

Lemma takeSign_cons (a : ascii) (s : string) :
  takeSign (String a s) =
    if Ascii.eqb a "-" then (true, s)
    else if Ascii.eqb a "+" then (false, s)
    else (false, String a s).
Proof.
  destruct (Ascii.eqb_spec a "-") as [-> | Hm]; [reflexivity |].
  destruct (Ascii.eqb_spec a "+") as [-> | Hp]; [reflexivity |].
  destruct a as [[] [] [] [] [] [] [] []]; try reflexivity; congruence.
Qed.

Lemma point_cons (A : Type) (a : ascii) (s : string) (f : string -> A) (g : A) :
  match String a s with String "." r => f r | _ => g end =
    if Ascii.eqb a "." then f s else g.
Proof.
  destruct (Ascii.eqb_spec a ".") as [-> | Hm]; [reflexivity |].
  destruct a as [[] [] [] [] [] [] [] []]; try reflexivity; congruence.
Qed.

Lemma takeDigits_stop acc cnt (c : ascii) (s : string) :
  isDigit c = false -> takeDigits acc cnt (String c s) = (acc, cnt, String c s).
Proof. intros H. simpl. now rewrite H. Qed.

(** The digits that are taken do not depend on what is read before them,
    and neither does the rest. *)
Lemma takeDigits_shape (s : string) : forall acc cnt acc' cnt',
  snd (takeDigits acc cnt s) = snd (takeDigits acc' cnt' s) /\
  (snd (fst (takeDigits acc cnt s)) - cnt = snd (fst (takeDigits acc' cnt' s)) - cnt')%nat /\
  (cnt <= snd (fst (takeDigits acc cnt s)))%nat.
Proof.
  induction s as [| c s IH]; intros acc cnt acc' cnt'; cbn [takeDigits].
  - cbn [fst snd]. repeat split; lia.
  - destruct (isDigit c); [| cbn [fst snd]; repeat split; lia].
    destruct (IH (10 * acc + digitVal c)%Z (S cnt) (10 * acc' + digitVal c)%Z (S cnt'))
      as (H1 & H2 & H3).
    pose proof (IH (10 * acc' + digitVal c)%Z (S cnt') 0%Z O) as (_ & _ & H4).
    repeat split; [exact H1 | lia | lia].
Qed.

(** What comes after a text, behind a character that is not a digit, is
    not taken. *)
Lemma takeDigits_app (s : string) (c : ascii) (t : string) : forall acc cnt,
  isDigit c = false ->
  takeDigits acc cnt (s ++ String c t) =
    let '(v, n, r) := takeDigits acc cnt s in (v, n, r ++ String c t).
Proof.
  induction s as [| a s IH]; intros acc cnt Hc; simpl.
  - now rewrite Hc.
  - destruct (isDigit a); [now apply IH | reflexivity].
Qed.

Lemma whiteSpace_not_number (a : ascii) :
  isWhiteSpace a = true ->
  isDigit a = false /\ Ascii.eqb a "-" = false /\ Ascii.eqb a "+" = false /\
  Ascii.eqb a "." = false.
Proof.
  destruct a as [[] [] [] [] [] [] [] []]; vm_compute; intros H;
    try discriminate H; repeat split.
Qed.

(** A field that does not begin with a number is read as [NaN] or as an
    infinity. *)
Lemma parseFloat_no_number (s : string) :
  startsNumber s = false ->
  parseFloat s = nan \/ parseFloat s = infinity \/ parseFloat s = neg_infinity.
Proof.
  unfold startsNumber, parseFloat.
  destruct (takeSign (trimStart s)) as [neg r]. cbn [snd].
  destruct (startsWith "Infinity" r).
  { intros _. destruct neg; auto. }
  destruct r as [| c t]; [intros _; left; reflexivity |].
  rewrite orb_false_iff. intros [Hc Hp]. left.
  rewrite takeDigits_stop by exact Hc.
  rewrite point_cons. destruct (Ascii.eqb c ".") eqn:Ec; [| reflexivity].
  cbn [andb] in Hp. destruct t as [| d t']; [reflexivity |].
  rewrite takeDigits_stop by exact Hp. reflexivity.
Qed.

Lemma parseFloat_no_number_finite (s : string) :
  startsNumber s = false -> Js.isFinite (parseFloat s) = false.
Proof.
  intros H. destruct (parseFloat_no_number s H) as [-> | [-> | ->]]; reflexivity.
Qed.

Lemma takeSign_app (a : ascii) (s R : string) :
  takeSign (String a s ++ R) =
    (fst (takeSign (String a s)), snd (takeSign (String a s)) ++ R).
Proof.
  change (String a s ++ R) with (String a (s ++ R)). rewrite !takeSign_cons.
  destruct (Ascii.eqb a "-"); [reflexivity |]. destruct (Ascii.eqb a "+"); reflexivity.
Qed.

(** The exponent of a text that ends after the digits of its exponent, or
    has none, is not changed by what follows. *)
Lemma exponentPart_app (r2 : string) (c : ascii) (t : string) :
  isDigit c = false -> Ascii.eqb c "e" = false -> Ascii.eqb c "E" = false ->
  match r2 with
  | String b u =>
      if Ascii.eqb b "e" || Ascii.eqb b "E" then
        let '(_, t') := takeSign u in
        let '(_, en, t'') := takeDigits 0 0 t' in
        match en with O => r2 | _ => t'' end
      else r2
  | EmptyString => r2
  end = "" ->
  exponentPart (r2 ++ String c t) = exponentPart r2.
Proof.
  intros Hd He HE. destruct r2 as [| b u]; intros H3.
  - simpl. now rewrite He, HE.
  - change (String b u ++ String c t) with (String b (u ++ String c t)).
    unfold exponentPart.
    destruct (Ascii.eqb b "e" || Ascii.eqb b "E"); [| discriminate H3].
    destruct u as [| x u'].
    + simpl in H3. discriminate H3.
    + rewrite takeSign_app. destruct (takeSign (String x u')) as [sg t']. cbn [fst snd].
      rewrite takeDigits_app by exact Hd.
      destruct (takeDigits 0 0 t') as [[ev en] t'']. reflexivity.
Qed.

(** What follows a number in a field is not read. *)
Lemma parseFloat_prefix (s : string) (c : ascii) (t : string) :
  numberLiteral s = true -> endsNumber c = true ->
  parseFloat (s ++ String c t) = parseFloat s.
Proof.
  unfold endsNumber. rewrite negb_true_iff, !orb_false_iff.
  intros Hs (((Hd & Hp) & He) & HE).
  destruct s as [| a s']; [discriminate Hs |].
  destruct (isWhiteSpace a) eqn:Hw.
  { exfalso. destruct (whiteSpace_not_number a Hw) as (W1 & W2 & W3 & W4).
    unfold numberLiteral in Hs. rewrite takeSign_cons, W2, W3 in Hs.
    rewrite takeDigits_stop in Hs by exact W1. rewrite point_cons, W4 in Hs.
    discriminate Hs. }
  unfold parseFloat.
  change (String a s' ++ String c t) with (String a (s' ++ String c t)).
  cbn [trimStart]. rewrite Hw.
  change (String a (s' ++ String c t)) with (String a s' ++ String c t).
  rewrite takeSign_app.
  unfold numberLiteral in Hs.
  destruct (takeSign (String a s')) as [neg r]. cbn [fst snd].
  assert (Hhead : match r with
                  | String b _ => isDigit b = true \/ Ascii.eqb b "." = true
                  | EmptyString => False
                  end).
  { destruct r as [| b r']; [discriminate Hs |].
    destruct (isDigit b) eqn:Db; [now left |].
    destruct (Ascii.eqb b ".") eqn:Pb; [now right |].
    rewrite takeDigits_stop in Hs by exact Db. rewrite point_cons, Pb in Hs.
    discriminate Hs. }
  assert (Hinf : startsWith "Infinity" r = false /\
                 forall R, startsWith "Infinity" (r ++ R) = false).
  { destruct r as [| b r']; [destruct Hhead |].
    cbn [append startsWith].
    destruct (Ascii.eqb_spec "I" b) as [<- | _]; [| split; reflexivity].
    destruct Hhead as [H | H]; discriminate H. }
  destruct Hinf as [Hinf0 Hinf]. rewrite Hinf, Hinf0.
  rewrite takeDigits_app by exact Hd.
  destruct (takeDigits 0 0 r) as [[iv ic] r1].
  assert (Hpoint :
    match r1 ++ String c t with
    | String "." u => takeDigits iv 0 u
    | _ => (iv, O, r1 ++ String c t)
    end =
    let '(fv, fc, r2) :=
      match r1 with String "." u => takeDigits iv 0 u | _ => (iv, O, r1) end in
    (fv, fc, r2 ++ String c t)).
  { destruct r1 as [| b u].
    - cbn [append]. rewrite point_cons, Hp. reflexivity.
    - change (String b u ++ String c t) with (String b (u ++ String c t)).
      rewrite !point_cons. destruct (Ascii.eqb b "."); [| reflexivity].
      now rewrite takeDigits_app by exact Hd. }
  rewrite Hpoint. clear Hpoint.
  assert (Hfrac :
    snd (match r1 with String "." u => takeDigits 0 0 u | _ => (0%Z, O, r1) end) =
    snd (match r1 with String "." u => takeDigits iv 0 u | _ => (iv, O, r1) end) /\
    snd (fst (match r1 with String "." u => takeDigits 0 0 u | _ => (0%Z, O, r1) end)) =
    snd (fst (match r1 with String "." u => takeDigits iv 0 u | _ => (iv, O, r1) end))).
  { destruct r1 as [| b u]; [split; reflexivity |].
    rewrite !point_cons. destruct (Ascii.eqb b "."); [| split; reflexivity].
    destruct (takeDigits_shape u 0%Z O iv O) as (H1 & H2 & _). split; [exact H1 | lia]. }
  destruct Hfrac as [Hrest Hcount].
  destruct (match r1 with String "." u => takeDigits 0 0 u | _ => (0%Z, O, r1) end)
    as [[fv0 fc0] r20].
  destruct (match r1 with String "." u => takeDigits iv 0 u | _ => (iv, O, r1) end)
    as [[fv fc] r2].
  cbn [fst snd] in Hrest, Hcount. subst r20 fc0.
  apply andb_true_iff in Hs. destruct Hs as [Hcnt H3]. apply String.eqb_eq in H3.
  rewrite (exponentPart_app r2 c t Hd He HE H3). reflexivity.
Qed.

Lemma parseFloatCell_bad (cell : option string) :
  Js.isFinite (parseFloatCell cell) = false <->
  match cell with
  | None => True
  | Some s => startsNumber s = false \/ Js.isFinite (parseFloat s) = false
  end.
Proof.
  destruct cell as [s |]; simpl.
  - split; [now right |]. intros [H | H]; [now apply parseFloat_no_number_finite | exact H].
  - split; [trivial | intros _; vm_compute; reflexivity].
Qed.

(** Claim C7, as amended.  A row is left out exactly when its x or y field
    is missing, or does not begin with a number, or is not read as a finite
    number (an infinity, or a number too large); nothing is thrown, and the
    rows before and after it are read as they are without it, each at its
    own line index.  What follows the number in a field is not read: a
    field such as [12abc] counts as the number it begins with.  The
    four-line example of the design document gives the records 1 and 3. *)
Theorem parseCSV_skips_bad_row :
  (forall s, startsNumber s = false -> Js.isFinite (parseFloat s) = false) /\
  (forall s c t, numberLiteral s = true -> endsNumber c = true ->
     parseFloat (s ++ String c t) = parseFloat s) /\
  (forall (delim : ascii) (c : Columns) (i : nat) (line : string),
     let cols := map trim (split delim line) in
     parseRow delim c i line = None <->
     match at_ cols (ix c) with
     | None => True
     | Some s => startsNumber s = false \/ Js.isFinite (parseFloat s) = false
     end \/
     match at_ cols (iy c) with
     | None => True
     | Some s => startsNumber s = false \/ Js.isFinite (parseFloat s) = false
     end) /\
  (forall (text header bad : string) (before after : list string),
     linesOf text = (header :: before ++ bad :: after)%list ->
     In "latentx1" (headerNames text header) ->
     In "latentx2" (headerNames text header) ->
     let delim := delimOf text in
     let c := columnsOf delim header in
     parseRow delim c (1 + List.length before) bad = None ->
     parseCSV text =
       Return (parseRows delim c 1 before [] ++
               parseRows delim c (2 + List.length before) after [])%list) /\
  parseCSV ("id,latentx1,latentx2,feasible" ++ String LF "1,0.5,0.5,true" ++
            String LF "2,abc,1.0,false" ++ String LF "3,2.0,2.0,1") =
    Return [ {| id := Some "1"; latentx1 := 0.5; latentx2 := 0.5;
                design_var_1 := Some ""; design_var_2 := Some ""; feasible := true |};
             {| id := Some "3"; latentx1 := 2; latentx2 := 2;
                design_var_1 := Some ""; design_var_2 := Some ""; feasible := true |} ] /\
  map parseFloat ["12abc"; "1.2.3"; "0x1F"; "1e5x"; "1e"; "1e+"; "2ex"; ".5"; "  42"; "1e-400"] =
    [12; 1.2; 0; 100000; 1; 1; 2; 0.5; 42; 0]%float /\
  map (fun s => Js.isFinite (parseFloat s))
      ["abc"; ""; "."; "-"; "e5"; "Infinity"; "-Infinity"; "1e400"; "-1e400"; "1.8e308"] =
    [false; false; false; false; false; false; false; false; false; false] /\
  parseCSV ("latentx1,latentx2,id" ++ String LF "1,2,a" ++ String LF "3" ++
            String LF "1e400,2,c" ++ String LF "5,6,d") =
    Return [ {| id := Some "a"; latentx1 := 1; latentx2 := 2;
                design_var_1 := Some ""; design_var_2 := Some ""; feasible := false |};
             {| id := Some "d"; latentx1 := 5; latentx2 := 6;
                design_var_1 := Some ""; design_var_2 := Some ""; feasible := false |} ].
Proof.
  split; [exact parseFloat_no_number_finite |].
  split; [exact parseFloat_prefix |].
  split; [| split; [| repeat split; vm_compute; reflexivity]].
  - intros delim c i line cols.
    rewrite <- !parseFloatCell_bad. unfold parseRow. fold cols.
    destruct (Js.isFinite (parseFloatCell (at_ cols (ix c))));
      destruct (Js.isFinite (parseFloatCell (at_ cols (iy c)))); cbn [negb orb];
      split; try reflexivity; try discriminate; try (intros [H | H]; discriminate H);
      auto.
  - intros text header bad before after Hlines Hx Hy delim c Hrow.
    unfold parseCSV. rewrite Hlines. fold delim. fold c.
    assert (Hix : (ix c <? 0)%Z = false).
    { destruct (ix c <? 0)%Z eqn:E; [| reflexivity].
      unfold c, delim in E. rewrite ix_columnsOf in E. apply indexOf_absent in E. tauto. }
    assert (Hiy : (iy c <? 0)%Z = false).
    { destruct (iy c <? 0)%Z eqn:E; [| reflexivity].
      unfold c, delim in E. rewrite iy_columnsOf in E. apply indexOf_absent in E. tauto. }
    rewrite Hix, Hiy. cbn [orb]. f_equal.
    rewrite parseRows_app. cbn [parseRows]. rewrite Hrow.
    rewrite parseRows_acc. reflexivity.
Qed.

(** Claim C7 on the design document's example: the x field of the line of
    record 2 does not begin with a number, and that line is the one left
    out. *)
Lemma parseCSV_skips_bad_row_witness :
  let text := "id,latentx1,latentx2,feasible" ++ String LF "1,0.5,0.5,true" ++
              String LF "2,abc,1.0,false" ++ String LF "3,2.0,2.0,1" in
  startsNumber "abc" = false /\
  parseCSV text =
    Return (parseRows "," (columnsOf "," "id,latentx1,latentx2,feasible") 1 ["1,0.5,0.5,true"] [] ++
            parseRows "," (columnsOf "," "id,latentx1,latentx2,feasible") 3 ["3,2.0,2.0,1"] [])%list.
Proof.
  cbv zeta. split; [reflexivity |].
  destruct parseCSV_skips_bad_row as (_ & _ & Hrow & Haround & _).
  refine (Haround
            ("id,latentx1,latentx2,feasible" ++ String LF "1,0.5,0.5,true" ++
             String LF "2,abc,1.0,false" ++ String LF "3,2.0,2.0,1")
            "id,latentx1,latentx2,feasible" "2,abc,1.0,false"
            ["1,0.5,0.5,true"] ["3,2.0,2.0,1"] _ _ _ _).
  - vm_compute; reflexivity.
  - vm_compute; auto.
  - vm_compute; auto.
  - apply Hrow. left.
    change (at_ _ _) with (Some "abc"). left. reflexivity.
Defined.

(** Claim C7, as stated, fails.  The fields [12abc], [1.2.3] and [0x1F]
    are not the text of a number, and the rows that have them as x are
    kept, with the numbers 12, 1.2 and 0 that the fields begin with. *)
Lemma parseCSV_keeps_number_prefix :
  numericText "12abc" = false /\ numericText "1.2.3" = false /\ numericText "0x1F" = false /\
  parseCSV ("id,latentx1,latentx2,feasible" ++ String LF "1,0.5,0.5,true" ++
            String LF "2,12abc,1.0,false" ++ String LF "3,1.2.3,2.0,1" ++
            String LF "4,0x1F,3.0,1") =
    Return [ {| id := Some "1"; latentx1 := 0.5; latentx2 := 0.5;
                design_var_1 := Some ""; design_var_2 := Some ""; feasible := true |};
             {| id := Some "2"; latentx1 := 12; latentx2 := 1;
                design_var_1 := Some ""; design_var_2 := Some ""; feasible := false |};
             {| id := Some "3"; latentx1 := 1.2; latentx2 := 2;
                design_var_1 := Some ""; design_var_2 := Some ""; feasible := true |};
             {| id := Some "4"; latentx1 := 0; latentx2 := 3;
                design_var_1 := Some ""; design_var_2 := Some ""; feasible := true |} ].
Proof. repeat split; vm_compute; reflexivity. Qed.

End SkippedRows.

(** ** The selection *)

Section SelectionFacts.

Lemma keyEqb_eq (a b : option string) : keyEqb a b = true <-> a = b.
Proof.
  destruct a as [x |], b as [y |]; simpl; try (split; congruence).
  rewrite String.eqb_eq. split; congruence.
Qed.

Lemma keyEqb_refl (a : option string) : keyEqb a a = true.
Proof. now apply keyEqb_eq. Qed.

Lemma keyEqb_neq (a b : option string) : keyEqb a b = false <-> a <> b.
Proof.
  rewrite <- keyEqb_eq. destruct (keyEqb a b); split; congruence.
Qed.

Lemma keyEqb_sym (a b : option string) : keyEqb a b = keyEqb b a.
Proof.
  destruct (keyEqb b a) eqn:E.
  - apply keyEqb_eq in E. subst. apply keyEqb_refl.
  - apply keyEqb_neq. apply keyEqb_neq in E. congruence.
Qed.

Lemma mapGet_set_same k v m : mapGet k (mapSet k v m) = Some v.
Proof.
  induction m as [| [k' v'] rest IH]; simpl.
  - now rewrite keyEqb_refl.
  - destruct (keyEqb k k') eqn:E; simpl; [now rewrite keyEqb_refl | now rewrite E].
Qed.

Lemma mapGet_set_other k k' v m :
  k <> k' -> mapGet k' (mapSet k v m) = mapGet k' m.
Proof.
  intros Hne. induction m as [| [k0 v0] rest IH]; simpl.
  - apply keyEqb_neq in Hne. now rewrite keyEqb_sym, Hne.
  - destruct (keyEqb k k0) eqn:E; simpl.
    + apply keyEqb_eq in E. subst k0.
      assert (keyEqb k' k = false) as -> by (apply keyEqb_neq; congruence). reflexivity.
    + destruct (keyEqb k' k0); [reflexivity | exact IH].
Qed.

(** Writing the value a key already has changes nothing. *)
Lemma mapSet_same k v m : mapGet k m = Some v -> mapSet k v m = m.
Proof.
  induction m as [| [k' v'] rest IH]; simpl; [discriminate |].
  destruct (keyEqb k k') eqn:E.
  - apply keyEqb_eq in E. subst k'. intros H. injection H as ->. reflexivity.
  - intros H. now rewrite IH.
Qed.

Lemma mapSet_overwrite k v v' m : mapSet k v (mapSet k v' m) = mapSet k v m.
Proof.
  induction m as [| [k0 v0] rest IH]; simpl.
  - now rewrite keyEqb_refl.
  - destruct (keyEqb k k0) eqn:E; simpl; [now rewrite keyEqb_refl |].
    now rewrite E, IH.
Qed.

(** Writes to two keys commute when one of them is already in the map. *)
Lemma mapSet_comm k k1 v v1 m :
  k <> k1 -> mapGet k m <> None ->
  mapSet k1 v1 (mapSet k v m) = mapSet k v (mapSet k1 v1 m).
Proof.
  intros Hne. induction m as [| [k0 v0] rest IH]; simpl; [congruence |].
  intros Hin. destruct (keyEqb k k0) eqn:E.
  - apply keyEqb_eq in E. subst k0.
    assert (E1 : keyEqb k1 k = false) by (apply keyEqb_neq; congruence).
    simpl. rewrite E1. simpl. now rewrite keyEqb_refl.
  - destruct (keyEqb k1 k0) eqn:E1; simpl.
    + rewrite E1. simpl.
      assert (keyEqb k k1 = false) as -> by (now apply keyEqb_neq). reflexivity.
    + rewrite E1, E. now rewrite IH.
Qed.

Lemma selectRect_setAll data rect : forall m,
  selectRect data rect m = setAll (filter (inRect rect) data) m.
Proof.
  unfold selectRect, setAll. induction data as [| d rest IH]; intros m; simpl; [reflexivity |].
  destruct (inRect rect d); simpl; apply IH.
Qed.

Lemma mapGet_setAll_kept records : forall k m,
  mapGet k m <> None -> mapGet k (setAll records m) <> None.
Proof.
  induction records as [| d rest IH]; intros k m H; simpl; [assumption |].
  apply IH. destruct (keyEqb (id d) k) eqn:E.
  - apply keyEqb_eq in E. subst k. rewrite mapGet_set_same. discriminate.
  - apply keyEqb_neq in E. now rewrite mapGet_set_other.
Qed.

Lemma mapGet_setAll_absent records : forall k m,
  (forall d, In d records -> id d <> k) ->
  mapGet k (setAll records m) = mapGet k m.
Proof.
  induction records as [| d rest IH]; intros k m H; simpl; [reflexivity |].
  rewrite IH by (intros d' Hd'; apply H; now right).
  apply mapGet_set_other. apply H. now left.
Qed.

Lemma mapGet_setAll_added records : forall d m,
  In d records -> mapGet (id d) (setAll records m) <> None.
Proof.
  induction records as [| d0 rest IH]; intros d m Hin; [destruct Hin |].
  destruct Hin as [-> | Hin]; simpl.
  - apply mapGet_setAll_kept. rewrite mapGet_set_same. discriminate.
  - now apply IH.
Qed.

Lemma mapGet_setAll_origin records : forall k m,
  mapGet k (setAll records m) <> None ->
  mapGet k m <> None \/ exists d, In d records /\ id d = k.
Proof.
  induction records as [| d rest IH]; intros k m H; simpl in *; [now left |].
  apply IH in H. destruct H as [H | (d' & Hin & Hk)]; [| right; eauto].
  destruct (keyEqb (id d) k) eqn:E.
  - apply keyEqb_eq in E. right. eauto.
  - apply keyEqb_neq in E. rewrite mapGet_set_other in H by assumption. now left.
Qed.

Lemma mapGet_setAll_unique records : forall d m,
  NoDup (map id records) -> In d records ->
  mapGet (id d) (setAll records m) = Some d.
Proof.
  induction records as [| d0 rest IH]; intros d m Hnd Hin; [destruct Hin |].
  simpl in Hnd. inversion Hnd as [| ? ? Hnotin Hnd']; subst.
  destruct Hin as [-> | Hin]; simpl.
  - rewrite mapGet_setAll_absent; [apply mapGet_set_same |].
    intros d' Hd' Heq. apply Hnotin. rewrite <- Heq. now apply in_map.
  - now apply IH.
Qed.

(** A write to a key that is in the map is forgotten when a later record
    writes the same key. *)
Lemma setAll_overwritten records : forall k v m,
  mapGet k m <> None -> (exists d, In d records /\ id d = k) ->
  setAll records (mapSet k v m) = setAll records m.
Proof.
  induction records as [| d rest IH]; intros k v m Hin (d' & Hd' & Hk); [destruct Hd' |].
  simpl. destruct (keyEqb (id d) k) eqn:E.
  - apply keyEqb_eq in E. rewrite E. now rewrite mapSet_overwrite.
  - apply keyEqb_neq in E. destruct Hd' as [-> | Hd']; [congruence |].
    rewrite mapSet_comm by (auto; congruence).
    apply IH; [| eauto].
    rewrite mapGet_set_other by assumption. assumption.
Qed.

Lemma setAll_idempotent records : forall m,
  setAll records (setAll records m) = setAll records m.
Proof.
  induction records as [| d rest IH]; intros m; [reflexivity |].
  change (setAll (d :: rest) m) with (setAll rest (mapSet (id d) d m)).
  set (n := setAll rest (mapSet (id d) d m)).
  change (setAll (d :: rest) n) with (setAll rest (mapSet (id d) d n)).
  assert (Hn : mapGet (id d) n <> None).
  { apply mapGet_setAll_kept. rewrite mapGet_set_same. discriminate. }
  destruct (existsb (fun d' => keyEqb (id d') (id d)) rest) eqn:E.
  - apply existsb_exists in E. destruct E as (d' & Hd' & Hk). apply keyEqb_eq in Hk.
    rewrite setAll_overwritten by eauto. apply IH.
  - rewrite mapSet_same; [apply IH |].
    unfold n. rewrite mapGet_setAll_absent; [apply mapGet_set_same |].
    intros d' Hd' Hk.
    assert (existsb (fun d' => keyEqb (id d') (id d)) rest = true); [| congruence].
    apply existsb_exists. exists d'. split; [assumption | now apply keyEqb_eq].
Qed.

Lemma NoDup_id_filter (data : list RocketData) (r : WorldRect) :
  NoDup (map id data) -> NoDup (map id (filter (inRect r) data)).
Proof.
  intros Hnd. induction data as [| d0 rest IH]; simpl; [constructor |].
  inversion Hnd as [| ? ? Hnotin Hnd']; subst.
  destruct (inRect r d0); simpl; [| now apply IH].
  constructor; [| now apply IH].
  intros H. apply Hnotin. apply in_map_iff in H. destruct H as (d' & Hid & Hd').
  apply filter_In in Hd'. apply in_map_iff. exists d'. tauto.
Qed.

Lemma NoDup_id_inj (data : list RocketData) (d d' : RocketData) :
  NoDup (map id data) -> In d data -> In d' data -> id d' = id d -> d' = d.
Proof.
  intros Hnd Hd Hd' Hk. induction data as [| d0 rest IH]; [destruct Hd |].
  inversion Hnd as [| ? ? Hnotin Hnd']; subst.
  destruct Hd as [-> | Hd], Hd' as [-> | Hd']; auto.
  - exfalso. apply Hnotin. rewrite <- Hk. now apply in_map.
  - exfalso. apply Hnotin. rewrite Hk. now apply in_map.
Qed.

(** A drag leaves alone the entry of a key that no record inside the
    rectangle has as its id. *)
Lemma selectRect_untouched data r k m :
  (forall d, In d data -> id d = k -> inRect r d = false) ->
  mapGet k (selectRect data r m) = mapGet k m.
Proof.
  intros H. rewrite selectRect_setAll. apply mapGet_setAll_absent.
  intros d Hd Hk. apply filter_In in Hd. destruct Hd as [Hd Hr].
  rewrite (H d Hd Hk) in Hr. discriminate.
Qed.

(** A drag over a dataset of distinct ids keeps the entry of a record of
    that dataset as it is, inside the rectangle or not. *)
Lemma selectRect_keeps_record data r d m :
  NoDup (map id data) -> In d data ->
  mapGet (id d) m = Some d -> mapGet (id d) (selectRect data r m) = Some d.
Proof.
  intros Hnd Hd Hm. destruct (inRect r d) eqn:E.
  - rewrite selectRect_setAll.
    apply mapGet_setAll_unique; [now apply NoDup_id_filter |]. apply filter_In. auto.
  - rewrite selectRect_untouched; [exact Hm |].
    intros d' Hd' Hk. now rewrite (NoDup_id_inj data d d' Hnd Hd Hd' Hk).
Qed.

Lemma mapSet_keys k v m :
  exists added, map fst (mapSet k v m) = (map fst m ++ added)%list.
Proof.
  induction m as [| [k' v'] rest IH]; simpl.
  - now exists [k].
  - destruct (keyEqb k k') eqn:E.
    + apply keyEqb_eq in E. subst k'. exists []. simpl. now rewrite app_nil_r.
    + destruct IH as [added IH]. exists added. simpl. now rewrite IH.
Qed.

(** The keys of the selection stay where they are; a drag adds keys after
    them. *)
Lemma selectRect_keys data r : forall m,
  exists added, map fst (selectRect data r m) = (map fst m ++ added)%list.
Proof.
  unfold selectRect. induction data as [| d rest IH]; intros m; simpl.
  - exists []. now rewrite app_nil_r.
  - destruct (inRect r d).
    + destruct (mapSet_keys (id d) d m) as [a1 H1].
      destruct (IH (mapSet (id d) d m)) as [a2 H2].
      exists (a1 ++ a2)%list. now rewrite H2, H1, app_assoc.
    + apply IH.
Qed.

(** Claim C2.  A drag over a rectangle adds the records inside it and
    removes none: the same rectangle a second time changes nothing, and
    after two rectangles the selection holds what it held before and the
    records of both.  What it held before is kept as it is: the keys stay
    in their places with the new ones after them, an entry that no record
    inside a rectangle has the id of keeps its record, and over a dataset
    of distinct ids so does every entry that holds a record of the
    dataset. *)
Theorem selectRect_union (data : list RocketData) (m : SelectionMap)
    (r1 r2 : WorldRect) :
  selectRect data r1 (selectRect data r1 m) = selectRect data r1 m /\
  (forall k, mapGet k m <> None ->
     mapGet k (selectRect data r2 (selectRect data r1 m)) <> None) /\
  (forall d, In d data -> inRect r1 d = true \/ inRect r2 d = true ->
     mapGet (id d) (selectRect data r2 (selectRect data r1 m)) <> None) /\
  (forall k, mapGet k (selectRect data r2 (selectRect data r1 m)) <> None ->
     mapGet k m <> None \/
     exists d, In d data /\ id d = k /\ (inRect r1 d = true \/ inRect r2 d = true)) /\
  (NoDup (map id data) ->
   forall d, In d data -> inRect r1 d = true \/ inRect r2 d = true ->
     mapGet (id d) (selectRect data r2 (selectRect data r1 m)) = Some d) /\
  (exists added,
     map fst (selectRect data r2 (selectRect data r1 m)) = (map fst m ++ added)%list) /\
  (forall k,
     (forall d, In d data -> id d = k -> inRect r1 d = false /\ inRect r2 d = false) ->
     mapGet k (selectRect data r2 (selectRect data r1 m)) = mapGet k m) /\
  (NoDup (map id data) ->
   forall d, In d data -> mapGet (id d) m = Some d ->
     mapGet (id d) (selectRect data r2 (selectRect data r1 m)) = Some d) /\
  (NoDup (map id data) ->
   (forall k v, mapGet k m = Some v -> In v data /\ id v = k) ->
   forall k v, mapGet k m = Some v ->
     mapGet k (selectRect data r2 (selectRect data r1 m)) = Some v).
Proof.
  split; [| split; [| split; [| split; [| split; [| split; [| split; [| split]]]]]]].
  - rewrite !selectRect_setAll. apply setAll_idempotent.
  - rewrite !selectRect_setAll.
    intros k H. now apply mapGet_setAll_kept, mapGet_setAll_kept.
  - rewrite !selectRect_setAll. intros d Hd [H | H].
    + apply mapGet_setAll_kept, mapGet_setAll_added, filter_In. auto.
    + apply mapGet_setAll_added, filter_In. auto.
  - rewrite !selectRect_setAll. intros k H. apply mapGet_setAll_origin in H.
    destruct H as [H | (d & Hd & Hk)].
    + apply mapGet_setAll_origin in H. destruct H as [H | (d & Hd & Hk)]; [now left |].
      apply filter_In in Hd. right. exists d. tauto.
    + apply filter_In in Hd. right. exists d. tauto.
  - intros Hnd d Hd Hin. destruct (inRect r2 d) eqn:E2.
    + rewrite selectRect_setAll.
      apply mapGet_setAll_unique; [now apply NoDup_id_filter |]. apply filter_In. auto.
    + destruct Hin as [E1 | E1]; [| congruence].
      rewrite selectRect_untouched.
      * rewrite selectRect_setAll.
        apply mapGet_setAll_unique; [now apply NoDup_id_filter |]. apply filter_In. auto.
      * intros d' Hd' Hk. now rewrite (NoDup_id_inj data d d' Hnd Hd Hd' Hk).
  - destruct (selectRect_keys data r1 m) as [a1 H1].
    destruct (selectRect_keys data r2 (selectRect data r1 m)) as [a2 H2].
    exists (a1 ++ a2)%list. now rewrite H2, H1, app_assoc.
  - intros k H. rewrite !selectRect_untouched; [reflexivity | |];
      intros d Hd Hk; now destruct (H d Hd Hk).
  - intros Hnd d Hd Hm. now apply selectRect_keeps_record, selectRect_keeps_record.
  - intros Hnd Hfrom k v Hm. destruct (Hfrom k v Hm) as [Hv <-].
    now apply selectRect_keeps_record, selectRect_keeps_record.
Qed.

(** Four points and two drags: the second drag adds the point it holds to
    the two of the first, and the first drag again changes nothing. *)
Example selectRect_two_drags :
  let point i x :=
    {| id := Some i; latentx1 := x; latentx2 := x;
       design_var_1 := Some ""%string; design_var_2 := Some ""%string; feasible := true |} in
  let data := [point "a"%string 1%float; point "b"%string 2%float;
               point "c"%string 8%float; point "d"%string 20%float] in
  let once := selectRect data (0, 0, 3, 3)%float [] in
  let twice := selectRect data (9, 9, 7, 7)%float once in
  map fst once = [Some "a"%string; Some "b"%string] /\
  map fst twice = [Some "a"%string; Some "b"%string; Some "c"%string] /\
  selectRect data (0, 0, 3, 3)%float twice = twice /\
  selected (clearSelection {| selected := twice; isSelecting := false;
                              selectionBounds := None |}) = [].
Proof. cbv zeta. repeat split; vm_compute; reflexivity. Qed.

End SelectionFacts.

(** ** More on the parser: the rows it keeps *)

From Stdlib Require DecimalNat DecimalFacts.

Section ParsedRows.

Import JsString JsConv.
#[local] Open Scope char_scope.
#[local] Open Scope string_scope.

Lemma parseRows_length delim c lines : forall i rows,
  (List.length (parseRows delim c i lines rows) <= List.length rows + List.length lines)%nat.
Proof.
  induction lines as [| line rest IH]; intros i rows; simpl; [lia |].
  destruct (parseRow delim c i line).
  - specialize (IH (S i) (rows ++ [r])%list). rewrite length_app in IH. simpl in IH. lia.
  - specialize (IH (S i) rows). lia.
Qed.

Lemma parseRows_In_iff delim c lines : forall i rows d,
  In d (parseRows delim c i lines rows) <->
  In d rows \/
  exists k line, nth_error lines k = Some line /\ parseRow delim c (i + k) line = Some d.
Proof.
  induction lines as [| line rest IH]; intros i rows d; simpl.
  - split; [now left |]. intros [H | (k & line & Hk & _)]; [assumption |].
    destruct k; discriminate.
  - destruct (parseRow delim c i line) as [r |] eqn:E; rewrite IH; split.
    + intros [H | (k & l & Hk & Hr)].
      * apply in_app_iff in H. destruct H as [H | [<- | []]]; [now left |].
        right. exists 0%nat, line. rewrite Nat.add_0_r. auto.
      * right. exists (S k), l. rewrite Nat.add_succ_r. auto.
    + intros [H | (k & l & Hk & Hr)].
      * left. apply in_app_iff. now left.
      * destruct k as [| k]; simpl in Hk.
        -- injection Hk as <-. rewrite Nat.add_0_r in Hr. left. apply in_app_iff.
           right. left. congruence.
        -- right. exists k, l. rewrite Nat.add_succ_r in Hr. auto.
    + intros [H | (k & l & Hk & Hr)]; [now left |].
      right. exists (S k), l. rewrite Nat.add_succ_r. auto.
    + intros [H | (k & l & Hk & Hr)]; [now left |].
      destruct k as [| k]; simpl in Hk.
      * injection Hk as <-. rewrite Nat.add_0_r in Hr. congruence.
      * right. exists k, l. rewrite Nat.add_succ_r in Hr. auto.
Qed.

(** X1.  The dataset holds exactly the records of the data lines that the
    row loop keeps: there are at most as many records as non-empty lines
    after the header, and a record is in the dataset when and only when
    some line at an index [k >= 1] is read as that record. *)
Theorem parseCSV_rows (text : string) (dataset : list RocketData) :
  parseCSV text = Return dataset ->
  (List.length dataset <= List.length (linesOf text) - 1)%nat /\
  forall d, In d dataset <->
    exists k line, (1 <= k)%nat /\ nth_error (linesOf text) k = Some line /\
      parseRow (delimOf text) (columnsOf (delimOf text) (hd "" (linesOf text))) k line
        = Some d.
Proof.
  unfold parseCSV. destruct (linesOf text) as [| header rest].
  - intros H. injection H as <-. split; [simpl; lia |].
    intros d. split; [intros [] |]. intros (k & line & _ & Hk & _). destruct k; discriminate.
  - destruct (_ || _); [discriminate |]. intros H. injection H as <-. split.
    + pose proof (parseRows_length (delimOf text) (columnsOf (delimOf text) header) rest 1 []).
      simpl in *. lia.
    + intros d. rewrite parseRows_In_iff. cbn [hd]. split.
      * intros [[] | (k & line & Hk & Hr)]. exists (S k), line. repeat split; [lia | exact Hk | exact Hr].
      * intros (k & line & H1 & Hk & Hr). right. destruct k as [| k]; [lia |].
        exists k, line. split; [exact Hk | exact Hr].
Qed.

(** X1 on a text of three data lines, the second of which is dropped. *)
Lemma parseCSV_rows_witness :
  let text := "latentx1,latentx2" ++ String LF "1,2" ++ String LF "x,y" ++ String LF "3,4" in
  List.length (linesOf text) = 4%nat /\
  exists dataset, parseCSV text = Return dataset /\ (List.length dataset <= 4 - 1)%nat.
Proof.
  cbv zeta. split; [vm_compute; reflexivity |].
  destruct (parseCSV ("latentx1,latentx2" ++ String LF "1,2" ++ String LF "x,y" ++
                      String LF "3,4")) as [dataset | m] eqn:E; [| vm_compute in E; discriminate].
  exists dataset. split; [reflexivity |].
  pose proof (proj1 (parseCSV_rows _ _ E)) as H.
  replace (List.length (linesOf ("latentx1,latentx2" ++ String LF "1,2" ++ String LF "x,y" ++
                      String LF "3,4"))) with 4%nat in H by (vm_compute; reflexivity).
  exact H.
Defined.

(** *** What a kept record looks like *)

Lemma split_no_delim d s : Forall (fun x => allChars (isNot d) x = true) (split d s).
Proof.
  induction s as [| c s IH]; simpl; [repeat constructor |].
  destruct (Ascii.eqb c d) eqn:E; [constructor; [reflexivity | exact IH] |].
  destruct (split d s) as [| h t]; [repeat constructor; simpl; unfold isNot; now rewrite E |].
  inversion IH; subst. constructor; [| assumption].
  simpl. unfold isNot at 1. now rewrite E.
Qed.

Lemma cell_no_delim delim line i s :
  at_ (map trim (split delim line)) i = Some s -> allChars (isNot delim) s = true.
Proof.
  intros Hs. apply at_In, in_map_iff in Hs. destruct Hs as (s0 & <- & Hin).
  apply allChars_trim. pose proof (split_no_delim delim line) as H.
  rewrite Forall_forall in H. now apply H.
Qed.

Lemma delimOf_cases text :
  delimOf text = TAB \/ delimOf text = ";"%char \/ delimOf text = ","%char.
Proof.
  unfold delimOf. destruct (includes text TAB); [now left |].
  destruct (includes text ";"); auto.
Qed.

Lemma digits_no_delim text s :
  allChars isDigit s = true -> allChars (isNot (delimOf text)) s = true.
Proof.
  intros H. eapply allChars_weaken; [| exact H]. intros c Hc.
  apply digit_plain, plainChar_parts in Hc.
  destruct (delimOf_cases text) as [-> | [-> | ->]]; tauto.
Qed.

Lemma parseRow_no_delim text c i line d s :
  parseRow (delimOf text) c i line = Some d ->
  id d = Some s \/ design_var_1 d = Some s \/ design_var_2 d = Some s ->
  allChars (isNot (delimOf text)) s = true.
Proof.
  unfold parseRow. destruct (_ || _); [discriminate |]. intros H. injection H as <-.
  cbn [id design_var_1 design_var_2]. intros [H | [H | H]].
  - destruct (0 <=? iid c)%Z; [now apply cell_no_delim in H |].
    injection H as <-. apply digits_no_delim, ofNat_digits.
  - destruct (0 <=? idv1 c)%Z; [now apply cell_no_delim in H |].
    injection H as <-. reflexivity.
  - destruct (0 <=? idv2 c)%Z; [now apply cell_no_delim in H |].
    injection H as <-. reflexivity.
Qed.

(** X2.  Every record of a parsed dataset has finite coordinates, and each
    of its text fields that is defined is trimmed and holds neither a line
    feed nor the separator the text was read with. *)
Theorem parseCSV_record_invariant (text : string) (dataset : list RocketData)
    (d : RocketData) :
  parseCSV text = Return dataset -> In d dataset ->
  is_finite (latentx1 d) = true /\ is_finite (latentx2 d) = true /\
  forall s, id d = Some s \/ design_var_1 d = Some s \/ design_var_2 d = Some s ->
    trim s = s /\ allChars (isNot LF) s = true /\
    allChars (isNot (delimOf text)) s = true.
Proof.
  intros Hparse Hin.
  destruct (parseCSV_shape _ _ _ Hparse Hin) as (Pi & P1 & P2 & Fx & Fy).
  split; [exact Fx |]. split; [exact Fy |]. intros s Hs.
  assert (Hshape : trim s = s /\ allChars (isNot LF) s = true).
  { destruct Hs as [H | [H | H]]; [apply Pi | apply P1 | apply P2]; exact H. }
  split; [apply Hshape |]. split; [apply Hshape |].
  revert Hparse Hin. unfold parseCSV. destruct (linesOf text) as [| header rest].
  - intros H. injection H as <-. intros [].
  - destruct (_ || _); [discriminate |]. intros H. injection H as <-. intros Hd.
    apply parseRows_In in Hd. destruct Hd as [[] | (i & line & _ & Hrow)].
    eapply parseRow_no_delim; eassumption.
Qed.

(** X2 on a semicolon-separated line with blanks around its cells. *)
Lemma parseCSV_record_invariant_witness :
  let text := "id;latentx1;latentx2" ++ String LF " a,b ; 1 ;2" in
  let d := {| id := Some "a,b"; latentx1 := 1; latentx2 := 2;
              design_var_1 := Some ""; design_var_2 := Some ""; feasible := false |} in
  parseCSV text = Return [d] /\
  trim "a,b" = "a,b" /\ allChars (isNot ";"%char) "a,b" = true.
Proof.
  cbv zeta.
  assert (Hparse : parseCSV ("id;latentx1;latentx2" ++ String LF " a,b ; 1 ;2") =
            Return [ {| id := Some "a,b"; latentx1 := 1; latentx2 := 2;
                        design_var_1 := Some ""; design_var_2 := Some "";
                        feasible := false |} ]) by (vm_compute; reflexivity).
  split; [exact Hparse |].
  destruct (parseCSV_record_invariant _ _ _ Hparse (or_introl eq_refl)) as (_ & _ & H).
  destruct (H "a,b" (or_introl eq_refl)) as (H1 & _ & H3).
  split; [exact H1 | exact H3].
Defined.

(** *** Ids without an id column *)

Lemma to_uint_nonnil (n : nat) : Nat.to_uint n <> Decimal.Nil.
Proof.
  rewrite <- (DecimalNat.Unsigned.of_to n) at 1.
  rewrite DecimalNat.Unsigned.to_of. apply DecimalFacts.unorm_nonnil.
Qed.

Lemma ofNat_inj (n n' : nat) : ofNat n = ofNat n' -> n = n'.
Proof.
  unfold ofNat. intros H. apply DecimalNat.Unsigned.to_uint_inj.
  pose proof (NilZero.usu _ (to_uint_nonnil n)) as H1.
  pose proof (NilZero.usu _ (to_uint_nonnil n')) as H2.
  rewrite H in H1. congruence.
Qed.

Lemma parseRow_default_id delim c i line d :
  (iid c < 0)%Z -> parseRow delim c i line = Some d -> id d = Some (ofNat (i - 1)).
Proof.
  intros Hc. unfold parseRow. destruct (_ || _); [discriminate |].
  intros H. injection H as <-. cbn [id].
  destruct (Z.leb_spec 0 (iid c)); [lia | reflexivity].
Qed.

Lemma parseRows_default_ids delim c lines : forall i,
  (iid c < 0)%Z -> (1 <= i)%nat ->
  exists ks, map id (parseRows delim c i lines []) = map (fun k => Some (ofNat k)) ks /\
             NoDup ks /\ Forall (fun k => (i - 1 <= k)%nat) ks.
Proof.
  induction lines as [| line rest IH]; intros i Hc Hi; simpl.
  - exists []. repeat constructor.
  - destruct (IH (S i) Hc ltac:(lia)) as (ks & Hks & Hnd & Hge).
    destruct (parseRow delim c i line) as [r |] eqn:E.
    + rewrite parseRows_acc. cbn [app map].
      rewrite (parseRow_default_id _ _ _ _ _ Hc E), Hks.
      exists ((i - 1)%nat :: ks). split; [reflexivity |]. split.
      * constructor; [| assumption]. intros Hin.
        rewrite Forall_forall in Hge. specialize (Hge _ Hin). lia.
      * constructor; [lia |]. eapply Forall_impl; [| exact Hge]. simpl. intros; lia.
    + exists ks. split; [assumption |]. split; [assumption |].
      eapply Forall_impl; [| exact Hge]. simpl. intros; lia.
Qed.

Lemma parseRows_default_id_list delim c : forall lines pre,
  (iid c < 0)%Z ->
  map id (parseRows delim c (S (List.length pre)) lines []) =
  map (fun k => Some (ofNat k))
    (filter (fun k =>
               match nth_error (pre ++ lines) k with
               | Some line =>
                   match parseRow delim c (S k) line with Some _ => true | None => false end
               | None => false
               end)
            (seq (List.length pre) (List.length lines))).
Proof.
  induction lines as [| line rest IH]; intros pre Hc; [reflexivity |].
  cbn [parseRows List.length seq filter].
  rewrite nth_error_app2, Nat.sub_diag by lia. cbn [nth_error].
  specialize (IH (pre ++ [line])%list Hc).
  rewrite length_app, Nat.add_1_r, <- app_assoc in IH. cbn [app] in IH.
  destruct (parseRow delim c (S (List.length pre)) line) as [r |] eqn:E.
  - rewrite parseRows_acc. cbn [app map].
    rewrite (parseRow_default_id _ _ _ _ _ Hc E), IH.
    replace (S (List.length pre) - 1)%nat with (List.length pre) by lia. reflexivity.
  - exact IH.
Qed.

(** X3.  When the header has no id column, each record gets as its id the
    index of its own data line, counted from 0 after the header and
    without skipping the lines that are dropped: the ids of the dataset
    are, in order, the indices of the lines that are kept, and they are
    pairwise distinct. *)
Theorem parseCSV_default_ids_distinct (text header : string) (rest : list string)
    (dataset : list RocketData) :
  linesOf text = header :: rest ->
  ~ In "id" (headerNames text header) ->
  parseCSV text = Return dataset ->
  let row k line := parseRow (delimOf text) (columnsOf (delimOf text) header) (S k) line in
  NoDup (map id dataset) /\
  (forall d, In d dataset ->
     exists k line, nth_error rest k = Some line /\ row k line = Some d /\
                    id d = Some (ofNat k)) /\
  (forall k line d, nth_error rest k = Some line -> row k line = Some d ->
     In d dataset /\ id d = Some (ofNat k)) /\
  map id dataset =
    map (fun k => Some (ofNat k))
      (filter (fun k =>
                 match nth_error rest k with
                 | Some line => match row k line with Some _ => true | None => false end
                 | None => false
                 end)
              (seq 0 (List.length rest))).
Proof.
  intros Hlines Hid. unfold parseCSV. rewrite Hlines.
  destruct (_ || _); [discriminate |]. intros H. injection H as <-. cbv zeta.
  assert (Hc : (iid (columnsOf (delimOf text) header) < 0)%Z).
  { apply Z.ltb_lt. apply indexOf_absent. exact Hid. }
  split; [| split; [| split]].
  - destruct (parseRows_default_ids (delimOf text) _ rest 1 Hc (le_n 1)) as (ks & -> & Hnd & _).
    clear -Hnd. induction Hnd as [| k ks Hk _ IH]; simpl; constructor; [| exact IH].
    intros Hin. apply in_map_iff in Hin. destruct Hin as (k' & Heq & Hin).
    injection Heq as Heq. apply ofNat_inj in Heq. congruence.
  - intros d Hd. apply parseRows_In_iff in Hd. destruct Hd as [[] | (k & line & Hk & Hr)].
    exists k, line. split; [exact Hk |]. split; [exact Hr |].
    rewrite (parseRow_default_id _ _ _ _ _ Hc Hr). f_equal. f_equal. lia.
  - intros k line d Hk Hr. split.
    + apply parseRows_In_iff. right. exists k, line. split; [exact Hk | exact Hr].
    + rewrite (parseRow_default_id _ _ _ _ _ Hc Hr). f_equal. f_equal. lia.
  - exact (parseRows_default_id_list (delimOf text) _ rest [] Hc).
Qed.

(** X3 on three data lines without an id column, the second dropped: the
    ids are 0 and 2, and the record of the line at index 2 has the id 2. *)
Lemma parseCSV_default_ids_distinct_witness :
  let text := "latentx1,latentx2" ++ String LF "1,2" ++ String LF "x,y" ++ String LF "3,4" in
  let d := {| id := Some "2"; latentx1 := 3; latentx2 := 4;
              design_var_1 := Some ""; design_var_2 := Some ""; feasible := false |} in
  exists dataset,
    parseCSV text = Return dataset /\
    map id dataset = [Some "0"; Some "2"] /\
    In d dataset /\ id d = Some (ofNat 2).
Proof.
  cbv zeta.
  destruct (parseCSV ("latentx1,latentx2" ++ String LF "1,2" ++ String LF "x,y" ++
              String LF "3,4")) as [ds | m] eqn:E; [| vm_compute in E; discriminate].
  exists ds. split; [reflexivity |].
  assert (Hlines : linesOf ("latentx1,latentx2" ++ String LF "1,2" ++ String LF "x,y" ++
                            String LF "3,4") = ["latentx1,latentx2"; "1,2"; "x,y"; "3,4"])
    by (vm_compute; reflexivity).
  destruct (parseCSV_default_ids_distinct _ _ _ ds Hlines) as (_ & _ & Hown & Hids);
    [vm_compute; intros [H' | [H' | []]]; discriminate | exact E |].
  split; [rewrite Hids; vm_compute; reflexivity |].
  apply (Hown 2%nat "3,4"); [reflexivity | vm_compute; reflexivity].
Defined.

End ParsedRows.

(** ** More on the parser: line breaks *)

Section LineBreaks.

Import JsString JsConv.
#[local] Open Scope char_scope.
#[local] Open Scope string_scope.

Lemma splitLines_nonempty s : splitLines s <> [].
Proof.
  destruct s as [| c r]; simpl; [discriminate |].
  destruct (Ascii.eqb c LF); [discriminate |].
  assert (H : match splitLines r with h :: t => String c h :: t | [] => [String c ""] end <> [])
    by (destruct (splitLines r); discriminate).
  destruct (Ascii.eqb c CR); [| exact H].
  destruct r as [| c' r']; [exact H |].
  destruct (Ascii.eqb c' LF); [discriminate | exact H].
Qed.

Lemma keep_app c (l1 l2 : list string) :
  l1 <> [] ->
  match (l1 ++ l2)%list with h :: t => String c h :: t | [] => [String c ""] end =
  (match l1 with h :: t => String c h :: t | [] => [String c ""] end ++ l2)%list.
Proof. destruct l1; [congruence | reflexivity]. Qed.

Lemma endsWithChar_tail c d r :
  endsWithChar c (String d r) = false -> endsWithChar c r = false.
Proof. destruct r; [reflexivity | exact (fun H => H)]. Qed.

(** A line feed after a text that does not end with CR closes its last
    line and nothing else. *)
Lemma splitLines_LF_bounded (n : nat) : forall a b,
  (String.length a <= n)%nat -> endsWithChar CR a = false ->
  splitLines (a ++ String LF b) = (splitLines a ++ splitLines b)%list.
Proof.
  induction n as [| n IH]; intros a b Hlen He.
  - destruct a; [reflexivity | simpl in Hlen; lia].
  - destruct a as [| c r]; [reflexivity |]. simpl in Hlen.
    pose proof (endsWithChar_tail _ _ _ He) as Her.
    assert (Hr : splitLines (r ++ String LF b) = (splitLines r ++ splitLines b)%list)
      by (apply IH; [lia | exact Her]).
    change (String c r ++ String LF b) with (String c (r ++ String LF b)).
    cbn [splitLines]. rewrite Hr, keep_app by apply splitLines_nonempty.
    destruct (Ascii.eqb c LF); [reflexivity |].
    destruct (Ascii.eqb_spec c CR) as [-> | Hc]; [| reflexivity].
    destruct r as [| c' r']; [simpl in He; discriminate |].
    change (String c' r' ++ String LF b) with (String c' (r' ++ String LF b)). cbv iota.
    destruct (Ascii.eqb c' LF); [| reflexivity].
    cbn [app]. f_equal. apply IH; [simpl in Hlen; lia |].
    now apply endsWithChar_tail in Her.
Qed.

Lemma splitLines_LF a b :
  endsWithChar CR a = false ->
  splitLines (a ++ String LF b) = (splitLines a ++ splitLines b)%list.
Proof. now apply (splitLines_LF_bounded (String.length a)). Qed.

(** CR and LF together close a line after any text. *)
Lemma splitLines_CRLF_bounded (n : nat) : forall a b,
  (String.length a <= n)%nat ->
  splitLines (a ++ String CR (String LF b)) = (splitLines a ++ splitLines b)%list.
Proof.
  induction n as [| n IH]; intros a b Hlen.
  - destruct a; [reflexivity | simpl in Hlen; lia].
  - destruct a as [| c r]; [reflexivity |]. simpl in Hlen.
    assert (Hr : splitLines (r ++ String CR (String LF b)) = (splitLines r ++ splitLines b)%list)
      by (apply IH; lia).
    change (String c r ++ String CR (String LF b))
      with (String c (r ++ String CR (String LF b))).
    cbn [splitLines]. rewrite Hr, keep_app by apply splitLines_nonempty.
    destruct (Ascii.eqb c LF); [reflexivity |].
    destruct (Ascii.eqb c CR); [| reflexivity].
    destruct r as [| c' r']; [reflexivity |].
    change (String c' r' ++ String CR (String LF b))
      with (String c' (r' ++ String CR (String LF b))). cbv iota.
    destruct (Ascii.eqb c' LF); [| reflexivity].
    cbn [app]. f_equal. apply IH. simpl in Hlen. lia.
Qed.

Lemma splitLines_CRLF a b :
  splitLines (a ++ String CR (String LF b)) = (splitLines a ++ splitLines b)%list.
Proof. now apply (splitLines_CRLF_bounded (String.length a)). Qed.

Lemma includes_app a b c : includes (a ++ b) c = includes a c || includes b c.
Proof.
  induction a as [| d a IH]; simpl; [reflexivity |]. now rewrite IH, orb_assoc.
Qed.

Lemma delimOf_app_break a b (br : string) :
  includes br TAB = false -> includes br ";" = false ->
  delimOf (a ++ br ++ b) = delimOf (a ++ b).
Proof.
  intros H1 H2. unfold delimOf. now rewrite !includes_app, H1, H2.
Qed.

Lemma parseCSV_ext t1 t2 :
  delimOf t1 = delimOf t2 -> linesOf t1 = linesOf t2 -> parseCSV t1 = parseCSV t2.
Proof. unfold parseCSV. now intros -> ->. Qed.

(** X4.  Line breaks only separate lines: after a text that does not end
    with CR, a CR LF pair does what a line feed does, a second line feed
    (an empty line) changes nothing, and neither does a line feed at the
    end of the text. *)
Theorem parseCSV_line_breaks (a b : string) :
  endsWithChar CR a = false ->
  linesOf (a ++ String LF b) = (linesOf a ++ linesOf b)%list /\
  parseCSV (a ++ String CR (String LF b)) = parseCSV (a ++ String LF b) /\
  parseCSV (a ++ String LF (String LF b)) = parseCSV (a ++ String LF b) /\
  parseCSV (a ++ String LF "") = parseCSV a.
Proof.
  intros He.
  assert (HLF : forall b', linesOf (a ++ String LF b') = (linesOf a ++ linesOf b')%list).
  { intros b'. unfold linesOf. now rewrite splitLines_LF, filter_app. }
  assert (HCRLF : forall b', linesOf (a ++ String CR (String LF b')) = (linesOf a ++ linesOf b')%list).
  { intros b'. unfold linesOf. now rewrite splitLines_CRLF, filter_app. }
  split; [apply HLF |]. split; [| split].
  - apply parseCSV_ext; [| now rewrite HLF, HCRLF].
    change (a ++ String CR (String LF b)) with (a ++ String CR (String LF "") ++ b).
    change (a ++ String LF b) with (a ++ String LF "" ++ b).
    now rewrite !delimOf_app_break by reflexivity.
  - apply parseCSV_ext; [| rewrite !HLF; reflexivity].
    change (a ++ String LF (String LF b)) with (a ++ String LF (String LF "") ++ b).
    change (a ++ String LF b) with (a ++ String LF "" ++ b).
    now rewrite !delimOf_app_break by reflexivity.
  - apply parseCSV_ext; [| rewrite HLF; apply app_nil_r].
    change (a ++ String LF "") with (a ++ String LF "" ++ "").
    rewrite delimOf_app_break by reflexivity.
    f_equal. clear. induction a; simpl; congruence.
Qed.

(** X4 for a header and one data line. *)
Lemma parseCSV_line_breaks_witness :
  endsWithChar CR "latentx1,latentx2" = false /\
  parseCSV ("latentx1,latentx2" ++ String CR (String LF "1,2")) =
  parseCSV ("latentx1,latentx2" ++ String LF "1,2").
Proof.
  split; [reflexivity |].
  exact (proj1 (proj2 (parseCSV_line_breaks "latentx1,latentx2" "1,2" eq_refl))).
Defined.

End LineBreaks.

(** ** More on the parser: the case of the header *)

Section HeaderCase.

Import JsString JsConv.
#[local] Open Scope char_scope.
#[local] Open Scope string_scope.

Lemma lowerChar_idem c : lowerChar (lowerChar c) = lowerChar c.
Proof. destruct c as [[] [] [] [] [] [] [] []]; reflexivity. Qed.

Lemma lowerChar_space c : isWhiteSpace (lowerChar c) = isWhiteSpace c.
Proof. destruct c as [[] [] [] [] [] [] [] []]; reflexivity. Qed.

Lemma lowerChar_control c d :
  In d [TAB; ";"%char; ","%char; LF; CR] -> Ascii.eqb (lowerChar c) d = Ascii.eqb c d.
Proof.
  intros H. simpl in H.
  destruct H as [<- | [<- | [<- | [<- | [<- | []]]]]];
    destruct c as [[] [] [] [] [] [] [] []]; reflexivity.
Qed.

Lemma toLowerCase_idem s : toLowerCase (toLowerCase s) = toLowerCase s.
Proof. induction s; simpl; [reflexivity |]. now rewrite lowerChar_idem, IHs. Qed.

Lemma toLowerCase_trimStart s : trimStart (toLowerCase s) = toLowerCase (trimStart s).
Proof.
  induction s as [| c s IH]; simpl; [reflexivity |].
  rewrite lowerChar_space. destruct (isWhiteSpace c); [exact IH | reflexivity].
Qed.

Lemma toLowerCase_trimEnd s : trimEnd (toLowerCase s) = toLowerCase (trimEnd s).
Proof.
  induction s as [| c s IH]; simpl; [reflexivity |].
  rewrite IH, lowerChar_space. destruct (trimEnd s); simpl; [| reflexivity].
  destruct (isWhiteSpace c); reflexivity.
Qed.

Lemma toLowerCase_trim s : trim (toLowerCase s) = toLowerCase (trim s).
Proof. unfold trim. now rewrite toLowerCase_trimStart, toLowerCase_trimEnd. Qed.

Lemma toLowerCase_split d s :
  In d [TAB; ";"%char; ","%char; LF; CR] ->
  split d (toLowerCase s) = map toLowerCase (split d s).
Proof.
  intros Hd. induction s as [| c s IH]; simpl; [reflexivity |].
  rewrite lowerChar_control by exact Hd. rewrite IH.
  destruct (Ascii.eqb c d); [reflexivity |].
  destruct (split d s); reflexivity.
Qed.

Lemma toLowerCase_includes d s :
  In d [TAB; ";"%char; ","%char; LF; CR] -> includes (toLowerCase s) d = includes s d.
Proof.
  intros Hd. induction s as [| c s IH]; simpl; [reflexivity |].
  now rewrite lowerChar_control, IH.
Qed.

Lemma toLowerCase_app a b : toLowerCase (a ++ b) = toLowerCase a ++ toLowerCase b.
Proof. induction a; simpl; congruence. Qed.

Lemma delimOf_separator text : In (delimOf text) [TAB; ";"%char; ","%char; LF; CR].
Proof. destruct (delimOf_cases text) as [-> | [-> | ->]]; simpl; auto. Qed.

Lemma columnsOf_lower d header :
  In d [TAB; ";"%char; ","%char; LF; CR] ->
  columnsOf d (toLowerCase header) = columnsOf d header.
Proof.
  intros Hd. unfold columnsOf. rewrite toLowerCase_split by exact Hd.
  assert (H : map toLowerCase (map trim (map toLowerCase (split d header))) =
              map toLowerCase (map trim (split d header))).
  { rewrite !map_map. apply map_ext. intros s.
    now rewrite toLowerCase_trim, toLowerCase_idem. }
  now rewrite H.
Qed.

Lemma toLowerCase_endsWith_CR s : endsWithChar CR (toLowerCase s) = endsWithChar CR s.
Proof.
  induction s as [| c s IH]; [reflexivity |]. simpl.
  destruct s as [| c' s']; [| exact IH].
  apply (lowerChar_control c CR). simpl. auto 6.
Qed.

Lemma linesOf_single h :
  allChars (isNot LF) h = true -> linesOf h = if nonEmpty h then [h] else [].
Proof.
  intros H. unfold linesOf. rewrite splitLines_whole by exact H. reflexivity.
Qed.

Lemma toLowerCase_no_LF h :
  allChars (isNot LF) (toLowerCase h) = allChars (isNot LF) h.
Proof.
  induction h as [| c h IH]; simpl; [reflexivity |].
  unfold isNot at 1 3. rewrite (lowerChar_control c LF) by (simpl; auto). now rewrite IH.
Qed.

(** X5.  The case of the header does not matter: a text whose first line
    is put in lower case is read as the same dataset, or rejected with the
    same error. *)
Theorem parseCSV_header_case (header body : string) :
  allChars (isNot LF) header = true -> endsWithChar CR header = false ->
  parseCSV (toLowerCase header ++ String LF body) = parseCSV (header ++ String LF body).
Proof.
  intros Hlf Hcr. unfold parseCSV.
  assert (Hdelim : delimOf (toLowerCase header ++ String LF body) =
                   delimOf (header ++ String LF body)).
  { unfold delimOf. rewrite !includes_app, !toLowerCase_includes by (simpl; auto).
    reflexivity. }
  rewrite Hdelim.
  unfold linesOf.
  rewrite (splitLines_LF (toLowerCase header)) by (rewrite toLowerCase_endsWith_CR; exact Hcr).
  rewrite (splitLines_LF header) by exact Hcr.
  rewrite !filter_app.
  rewrite (splitLines_whole (toLowerCase header)) by (rewrite toLowerCase_no_LF; exact Hlf).
  rewrite (splitLines_whole header) by exact Hlf.
  cbn [filter]. destruct header as [| c header']; [reflexivity |].
  cbn [toLowerCase nonEmpty app].
  change (String (lowerChar c) (toLowerCase header')) with (toLowerCase (String c header')).
  rewrite columnsOf_lower by apply delimOf_separator. reflexivity.
Qed.

(** X5 for a header in capitals. *)
Lemma parseCSV_header_case_witness :
  toLowerCase "ID,LatentX1,LATENTX2" = "id,latentx1,latentx2" /\
  parseCSV ("id,latentx1,latentx2" ++ String LF "a,1,2") =
  parseCSV ("ID,LatentX1,LATENTX2" ++ String LF "a,1,2").
Proof.
  split; [reflexivity |].
  exact (parseCSV_header_case "ID,LatentX1,LATENTX2" "a,1,2" eq_refl eq_refl).
Defined.

End HeaderCase.

(** ** More on the export: its lines *)

Section ExportLines.

Import JsString JsConv.
#[local] Open Scope char_scope.
#[local] Open Scope string_scope.

Lemma numberToString_no_LF x : allChars (isNot LF) (numberToString x) = true.
Proof.
  eapply allChars_weaken; [| apply numberToString_chars].
  intros c Hc. apply numberChar_plain, plainChar_parts in Hc. tauto.
Qed.

Lemma exportLine_one_line d :
  allChars (isNot LF)
    (cellText (id d) ++ cellText (design_var_1 d) ++ cellText (design_var_2 d)) = true ->
  allChars (isNot LF) (exportLine d) = true /\ endsWithChar CR (exportLine d) = false.
Proof.
  rewrite !allChars_app, !andb_true_iff. intros (Hi & H1 & H2).
  unfold exportLine, exportRow. split.
  - apply allChars_join; [reflexivity |].
    repeat constructor; simpl; try assumption; try apply numberToString_no_LF.
    destruct (feasible d); reflexivity.
  - change [id d; Some (numberToString (latentx1 d)); Some (numberToString (latentx2 d));
            design_var_1 d; design_var_2 d; Some (booleanToString (feasible d))]
      with ([id d; Some (numberToString (latentx1 d)); Some (numberToString (latentx2 d));
             design_var_1 d; design_var_2 d] ++ [Some (booleanToString (feasible d))])%list.
    rewrite endsWithChar_join; destruct (feasible d); reflexivity.
Qed.

(** X6.  The text of the download has the header line and then one line
    for each entry of the selection, in the order of the map, when no text
    field holds a line feed (a field that does would break its line in
    two). *)
Theorem exportText_one_line_each (sel : SelectionMap) (text : string) :
  Forall (fun kv =>
    allChars (isNot LF)
      (cellText (id (snd kv)) ++ cellText (design_var_1 (snd kv)) ++
       cellText (design_var_2 (snd kv))) = true) sel ->
  handleSelectionExport sel = Some text ->
  splitLines text =
    "id,latentx1,latentx2,design_var_1,design_var_2,feasible" ::
    map exportLine (map snd sel) /\
  List.length (splitLines text) = S (List.length sel).
Proof.
  intros Hsel Hexp.
  assert (Htext : text = exportText sel) by (destruct sel; [discriminate | now injection Hexp]).
  subst text. rewrite exportText_lines.
  assert (Hsplit : splitLines (join (String LF "")
            (map Some (exportHeaderLine :: map exportLine (map snd sel)))) =
          exportHeaderLine :: map exportLine (map snd sel)).
  { apply splitLines_join; [discriminate |]. constructor; [split; reflexivity |].
    rewrite map_map. apply Forall_map. eapply Forall_impl; [| exact Hsel].
    intros kv Hkv. now apply exportLine_one_line. }
  rewrite Hsplit. split; [reflexivity |]. simpl. now rewrite !length_map.
Qed.

(** X6 for two selected records. *)
Lemma exportText_one_line_each_witness :
  let r1 := {| id := Some "1"; latentx1 := 0.5; latentx2 := 0.5;
               design_var_1 := Some ""; design_var_2 := Some ""; feasible := true |} in
  let r3 := {| id := Some "3"; latentx1 := 2; latentx2 := 2;
               design_var_1 := Some ""; design_var_2 := Some ""; feasible := true |} in
  let sel := [(Some "1", r1); (Some "3", r3)] in
  handleSelectionExport sel = Some (exportText sel) /\
  splitLines (exportText sel) =
    ["id,latentx1,latentx2,design_var_1,design_var_2,feasible";
     "1,0.5,0.5,,,true"; "3,2,2,,,true"].
Proof.
  cbv zeta. split; [reflexivity |].
  match goal with |- splitLines (exportText ?sel) = _ =>
    refine (eq_trans (proj1 (exportText_one_line_each sel (exportText sel) _ _)) _)
  end.
  - repeat constructor.
  - reflexivity.
  - vm_compute. reflexivity.
Defined.

(** A line feed inside a field makes two lines of one record. *)
Example exportText_field_with_LF :
  List.length (splitLines (exportText
    [(Some "a", {| id := Some (String "a" (String LF "b")); latentx1 := 1; latentx2 := 2;
                   design_var_1 := Some ""; design_var_2 := Some "";
                   feasible := false |})])) = 3%nat.
Proof. vm_compute. reflexivity. Qed.

End ExportLines.

(** ** Loading the file *)

Section LoadOutcome.

Import JsString JsConv.
#[local] Open Scope string_scope.

Variable log2 : float -> float.
Variables innerWidth innerHeight : float.

Lemma parseCSV_throws text message :
  parseCSV text = Throw message -> message = SchemaError.
Proof.
  unfold parseCSV. destruct (linesOf text); [discriminate |].
  destruct (_ || _); [| discriminate]. now intros [= <-].
Qed.

(** X7.  Whatever the fetch comes to, [loadCSV] ends with the loading flag
    down and leaves the selection as it was.  Either the file was fetched
    and parsed: the dataset is the parsed one, the view is fitted to it and
    one toast gives the number of records.  Or something failed: dataset
    and view stay as they were and one destructive toast is shown.  Its
    text is fixed for every kind of failure: the message of the error that
    the fetch or the reading of the body was rejected with (the fallback
    text when that is not an [Error]), the not-found text when the response
    was not ok, and the schema error when the body was read. *)
Theorem loadCSV_outcome (st : AppState) (f : fetched) :
  let st' := applyEffects st (loadCSV log2 innerWidth innerHeight f) in
  loading st' = false /\
  selection st' = selection st /\
  ((exists text parsedData,
      f = FetchResolves true (TextResolves text) /\
      parseCSV text = Return parsedData /\
      data st' = parsedData /\
      viewState st' = zoomToFit log2 innerWidth innerHeight parsedData defaultMargin /\
      toasts st' =
        (toasts st ++
         [{| title := "Data loaded successfully";
             description := "Loaded " ++ ofNat (List.length parsedData) ++ " rocket designs";
             destructive := false |}])%list)
   \/
   (data st' = data st /\
    viewState st' = viewState st /\
    exists message,
      toasts st' =
        (toasts st ++
         [{| title := "Error loading data"; description := message;
             destructive := true |}])%list /\
      match f with
      | FetchRejects (ErrorValue e) => message = e
      | FetchRejects OtherValue => message = "Failed to load CSV"
      | FetchResolves false _ =>
          message = "CSV not found at /data/combined.csv. Please ensure the file exists."
      | FetchResolves true (TextRejects (ErrorValue e)) => message = e
      | FetchResolves true (TextRejects OtherValue) => message = "Failed to load CSV"
      | FetchResolves true (TextResolves text) =>
          parseCSV text = Throw message /\
          message = "CSV must include 'latentx1' and 'latentx2' columns"
      end)).
Proof.
  cbv zeta. unfold loadCSV, loadCSVTry.
  destruct f as [e | ok body].
  - split; [reflexivity |]. split; [reflexivity |]. right.
    split; [reflexivity |]. split; [reflexivity |].
    destruct e as [m |]; eexists; (split; [reflexivity |]); reflexivity.
  - destruct ok; simpl negb; cbv iota.
    + destruct body as [e | text].
      * split; [reflexivity |]. split; [reflexivity |]. right.
        split; [reflexivity |]. split; [reflexivity |].
        destruct e as [m |]; eexists; (split; [reflexivity |]); reflexivity.
      * destruct (parseCSV text) as [parsedData | message] eqn:Hparse.
        -- split; [reflexivity |]. split; [reflexivity |]. left.
           exists text, parsedData. repeat split; assumption || reflexivity.
        -- split; [reflexivity |]. split; [reflexivity |]. right.
           split; [reflexivity |]. split; [reflexivity |].
           exists message. split; [reflexivity |]. split; [reflexivity |].
           now apply parseCSV_throws in Hparse.
    + split; [reflexivity |]. split; [reflexivity |]. right.
      split; [reflexivity |]. split; [reflexivity |].
      eexists. split; reflexivity.
Qed.

(** X7 for a body that cannot be read: the toast carries the message of
    the rejection. *)
Example loadCSV_unreadable_body :
  forall st,
    toasts (applyEffects st
              (loadCSV log2 innerWidth innerHeight
                 (FetchResolves true (TextRejects (ErrorValue "body stream already read"))))) =
    (toasts st ++
     [{| title := "Error loading data"; description := "body stream already read";
         destructive := true |}])%list.
Proof. reflexivity. Qed.

End LoadOutcome.

(** ** More on the parser: the separator *)

Section Separator.

Import JsString JsConv.
#[local] Open Scope char_scope.
#[local] Open Scope string_scope.

(** X8.  The separator is chosen from the whole text, a tab before a
    semicolon before a comma, and the header is split at it: when the
    header line does not hold the separator, it is one name, and the parser
    throws the schema error.  So one tab or semicolon anywhere in a
    comma-separated file makes the whole file unreadable. *)
Theorem parseCSV_header_without_separator (text header : string) (rest : list string) :
  linesOf text = header :: rest ->
  allChars (isNot (delimOf text)) header = true ->
  parseCSV text = Throw SchemaError.
Proof.
  intros Hlines Hheader. unfold parseCSV. rewrite Hlines.
  unfold columnsOf. rewrite split_whole by exact Hheader.
  cbn [map indexOf ix iy].
  destruct (String.eqb_spec (toLowerCase (trim header)) "latentx1") as [-> | _];
    reflexivity.
Qed.

(** X8 for a comma-separated file with a semicolon in its last cell. *)
Lemma parseCSV_header_without_separator_witness :
  parseCSV ("latentx1,latentx2" ++ String LF "1,2" ++ String LF "3,4;5") = Throw SchemaError /\
  parseCSV ("latentx1,latentx2" ++ String LF "1,2" ++ String LF "3,4") =
    Return [ {| id := Some "0"; latentx1 := 1; latentx2 := 2;
                design_var_1 := Some ""; design_var_2 := Some ""; feasible := false |};
             {| id := Some "1"; latentx1 := 3; latentx2 := 4;
                design_var_1 := Some ""; design_var_2 := Some ""; feasible := false |} ].
Proof.
  split; [| vm_compute; reflexivity].
  apply (parseCSV_header_without_separator _ "latentx1,latentx2" ["1,2"; "3,4;5"]).
  - vm_compute. reflexivity.
  - vm_compute. reflexivity.
Defined.

End Separator.

(** ** More on the grid: the coordinates of the lines *)

Section GridLines.

#[local] Open Scope float_scope.

(** X9.  The lines of the grid: the vertical lines come first, at the
    coordinates [startX], [startX + step], [startX + step + step], ..., each
    from [startY] to [endY]; the horizontal lines follow in the same way.
    Every coordinate is at most the end of its range plus 1e-9, and a pass
    that is not ended by the counter stops at the first coordinate that is
    beyond that. *)
Theorem buildGridPaths_lines (fuel : nat) (minX minY maxX maxY : float)
    (step : option float) (lines : list GridLine) :
  buildGridPaths fuel (minX, minY, maxX, maxY) step = Some lines ->
  let s := safeStep (minX, minY, maxX, maxY) step in
  let startX := Js.floor (minX / s) * s in
  let endX := Js.ceil (maxX / s) * s in
  let startY := Js.floor (minY / s) * s in
  let endY := Js.ceil (maxY / s) * s in
  let xAt k := Nat.iter k (fun c => c + s) startX in
  let yAt k := Nat.iter k (fun c => c + s) startY in
  exists nx ny,
    lines =
      (map (fun k => {| path := ((xAt k, startY), (xAt k, endY));
                        major := isMajor (xAt k) s |}) (seq 0 nx) ++
       map (fun k => {| path := ((startX, yAt k), (endX, yAt k));
                        major := isMajor (yAt k) s |}) (seq 0 ny))%list /\
    (forall k, (k < nx)%nat -> (xAt k <=? endX + 1e-9) = true) /\
    (forall k, (k < ny)%nat -> (yAt k <=? endY + 1e-9) = true) /\
    ((nx <= 400)%nat -> (xAt nx <=? endX + 1e-9) = false) /\
    ((nx + ny <= 800)%nat -> (yAt ny <=? endY + 1e-9) = false).
Proof.
  intros H. cbv zeta. unfold buildGridPaths in H.
  destruct (verticalPass fuel (minX, minY, maxX, maxY) step) as [[count vertical] |] eqn:Hv;
    [| discriminate].
  unfold verticalPass in Hv. apply gridLoop_chain in Hv.
  destruct Hv as (nx & -> & -> & Hx & Hxend).
  match type of H with
  | match ?g with _ => _ end = _ => destruct g as [[count' all] |] eqn:Hh; [| discriminate]
  end.
  injection H as <-. apply gridLoop_chain in Hh.
  destruct Hh as (ny & -> & -> & Hy & Hyend).
  exists nx, ny. simpl app in *. unfold MAX in *.
  split; [reflexivity |]. split; [exact Hx |]. split; [exact Hy |]. split.
  - intros Hle. destruct Hxend as [Hc | Hc]; [lia | exact Hc].
  - intros Hle. destruct Hyend as [Hc | Hc]; [lia | exact Hc].
Qed.

(** X9 for the square from (0, 0) to (10, 10) and a step of 5: three lines
    each way. *)
Lemma buildGridPaths_lines_witness :
  exists nx ny lines,
    buildGridPaths 4 (0, 0, 10, 10) (Some 5) = Some lines /\
    lines =
      (map (fun k => {| path := ((Nat.iter k (fun c => c + 5) 0, 0),
                                 (Nat.iter k (fun c => c + 5) 0, 10));
                        major := isMajor (Nat.iter k (fun c => c + 5) 0) 5 |}) (seq 0 nx) ++
       map (fun k => {| path := ((0, Nat.iter k (fun c => c + 5) 0),
                                 (10, Nat.iter k (fun c => c + 5) 0));
                        major := isMajor (Nat.iter k (fun c => c + 5) 0) 5 |}) (seq 0 ny))%list.
Proof.
  assert (H : buildGridPaths 4 (0, 0, 10, 10) (Some 5) =
              Some [ {| path := ((0, 0), (0, 10)); major := true |};
                     {| path := ((5, 0), (5, 10)); major := false |};
                     {| path := ((10, 0), (10, 10)); major := false |};
                     {| path := ((0, 0), (10, 0)); major := true |};
                     {| path := ((0, 5), (10, 5)); major := false |};
                     {| path := ((0, 10), (10, 10)); major := false |} ])
    by (vm_compute; reflexivity).
  destruct (buildGridPaths_lines 4 0 0 10 10 (Some 5) _ H) as (nx & ny & Hl & _).
  exists nx, ny. eexists. split; [exact H |].
  refine (eq_trans Hl _). apply f_equal2; apply map_ext; intros k.
  - change (safeStep (0, 0, 10, 10) (Some 5)) with 5.
    change (Js.floor (0 / 5) * 5) with 0. change (Js.ceil (10 / 5) * 5) with 10.
    reflexivity.
  - change (safeStep (0, 0, 10, 10) (Some 5)) with 5.
    change (Js.floor (0 / 5) * 5) with 0. change (Js.ceil (10 / 5) * 5) with 10.
    reflexivity.
Defined.

End GridLines.

(** ** More on the viewport fit: the bounds *)

Section FitBounds.

#[local] Open Scope float_scope.

Lemma SFleb_trans (x y z : spec_float) :
  SFleb x y = true -> SFleb y z = true -> SFleb x z = true.
Proof.
  unfold SFleb.
  destruct x as [sx | sx | | sx mx ex], y as [sy | sy | | sy my ey],
           z as [sz | sz | | sz mz ez]; simpl;
    try discriminate; try reflexivity;
    try (destruct sx; try discriminate; try reflexivity);
    try (destruct sy; try discriminate; try reflexivity);
    try (destruct sz; try discriminate; try reflexivity).
  all: change (Pos.compare_cont Eq) with Pos.compare.
  all: destruct (Z.compare_spec ex ey), (Z.compare_spec ey ez), (Z.compare_spec ex ez);
    simpl; try discriminate; try reflexivity; try lia.
  all: subst.
  all: destruct (Pos.compare_spec mx my), (Pos.compare_spec my mz), (Pos.compare_spec mx mz);
    simpl; try discriminate; try reflexivity; try lia.
Qed.

Lemma leb_trans (a b c : float) :
  (a <=? b) = true -> (b <=? c) = true -> (a <=? c) = true.
Proof. rewrite !FloatAxioms.leb_spec. apply SFleb_trans. Qed.

Lemma leb_refl (a : float) : is_nan a = false -> (a <=? a) = true.
Proof.
  intros N. rewrite FloatAxioms.leb_spec. unfold SFleb. rewrite SFcompare_refl; [reflexivity |].
  intros E. apply is_nan_spec in E. congruence.
Qed.

(** [Math.min] and [Math.max] of two numbers return one of them, the one
    that is not the larger (the smaller). *)
Lemma min2_spec (a b : float) :
  is_nan a = false -> is_nan b = false ->
  (Js.min2 a b = a \/ Js.min2 a b = b) /\
  (Js.min2 a b <=? a) = true /\ (Js.min2 a b <=? b) = true.
Proof.
  intros Na Nb. unfold Js.min2. rewrite Na, Nb. cbn [orb].
  destruct (a <? b) eqn:L1.
  { split; [now left |]. split; [now apply leb_refl | now apply ltb_leb]. }
  destruct (b <? a) eqn:L2.
  { split; [now right |]. split; [now apply ltb_leb | now apply leb_refl]. }
  pose proof (not_ltb_leb _ _ Na Nb L1). pose proof (not_ltb_leb _ _ Nb Na L2).
  destruct (get_sign a).
  - split; [now left |]. split; [now apply leb_refl | assumption].
  - split; [now right |]. split; [assumption | now apply leb_refl].
Qed.

Lemma max2_spec (a b : float) :
  is_nan a = false -> is_nan b = false ->
  (Js.max2 a b = a \/ Js.max2 a b = b) /\
  (a <=? Js.max2 a b) = true /\ (b <=? Js.max2 a b) = true.
Proof.
  intros Na Nb. unfold Js.max2. rewrite Na, Nb. cbn [orb].
  destruct (a <? b) eqn:L1.
  { split; [now right |]. split; [now apply ltb_leb | now apply leb_refl]. }
  destruct (b <? a) eqn:L2.
  { split; [now left |]. split; [now apply leb_refl | now apply ltb_leb]. }
  pose proof (not_ltb_leb _ _ Na Nb L1). pose proof (not_ltb_leb _ _ Nb Na L2).
  destruct (get_sign a).
  - split; [now right |]. split; [assumption | now apply leb_refl].
  - split; [now left |]. split; [now apply leb_refl | assumption].
Qed.

Lemma fold_min2 (xs : list float) : forall acc,
  is_nan acc = false -> Forall (fun x => is_nan x = false) xs ->
  let r := fold_left Js.min2 xs acc in
  (r = acc \/ In r xs) /\ (r <=? acc) = true /\ forall x, In x xs -> (r <=? x) = true.
Proof.
  induction xs as [| x xs IH]; intros acc Na Hxs; cbn [fold_left].
  - split; [now left |]. split; [now apply leb_refl | intros x []].
  - inversion Hxs as [| ? ? Nx Hxs']; subst.
    destruct (min2_spec acc x Na Nx) as (Hm & La & Lx).
    assert (Nm : is_nan (Js.min2 acc x) = false) by (destruct Hm as [-> | ->]; assumption).
    destruct (IH (Js.min2 acc x) Nm Hxs') as (Hr & Lr & Hall).
    split; [| split].
    + destruct Hr as [-> | Hr]; [destruct Hm as [-> | ->]; [now left | right; now left] |].
      right. now right.
    + eapply leb_trans; eassumption.
    + intros y [<- | Hy]; [eapply leb_trans; eassumption | now apply Hall].
Qed.

Lemma fold_max2 (xs : list float) : forall acc,
  is_nan acc = false -> Forall (fun x => is_nan x = false) xs ->
  let r := fold_left Js.max2 xs acc in
  (r = acc \/ In r xs) /\ (acc <=? r) = true /\ forall x, In x xs -> (x <=? r) = true.
Proof.
  induction xs as [| x xs IH]; intros acc Na Hxs; cbn [fold_left].
  - split; [now left |]. split; [now apply leb_refl | intros x []].
  - inversion Hxs as [| ? ? Nx Hxs']; subst.
    destruct (max2_spec acc x Na Nx) as (Hm & La & Lx).
    assert (Nm : is_nan (Js.max2 acc x) = false) by (destruct Hm as [-> | ->]; assumption).
    destruct (IH (Js.max2 acc x) Nm Hxs') as (Hr & Lr & Hall).
    split; [| split].
    + destruct Hr as [-> | Hr]; [destruct Hm as [-> | ->]; [now left | right; now left] |].
      right. now right.
    + eapply leb_trans; eassumption.
    + intros y [<- | Hy]; [eapply leb_trans; eassumption | now apply Hall].
Qed.

(** [Math.min(...xs)] of numbers that are not [NaN] is below each of them
    and, when there is one, is one of them; likewise [Math.max(...xs)]. *)
Lemma min_list_spec (xs : list float) :
  Forall (fun x => is_nan x = false) xs ->
  (forall x, In x xs -> (Js.min_list xs <=? x) = true) /\
  (xs <> [] -> In (Js.min_list xs) xs).
Proof.
  intros Hxs. unfold Js.min_list. split.
  - apply (fold_min2 xs infinity); [reflexivity | assumption].
  - intros Hne. destruct xs as [| x xs]; [congruence |]. cbn [fold_left].
    rewrite min2_infinity. inversion Hxs as [| ? ? Nx Hxs']; subst.
    destruct (fold_min2 xs x Nx Hxs') as ([-> | Hr] & _); [now left | now right].
Qed.

Lemma max_list_spec (xs : list float) :
  Forall (fun x => is_nan x = false) xs ->
  (forall x, In x xs -> (x <=? Js.max_list xs) = true) /\
  (xs <> [] -> In (Js.max_list xs) xs).
Proof.
  intros Hxs. unfold Js.max_list. split.
  - apply (fold_max2 xs neg_infinity); [reflexivity | assumption].
  - intros Hne. destruct xs as [| x xs]; [congruence |]. cbn [fold_left].
    rewrite max2_neg_infinity. inversion Hxs as [| ? ? Nx Hxs']; subst.
    destruct (fold_max2 xs x Nx Hxs') as ([-> | Hr] & _); [now left | now right].
Qed.

Variable log2 : float -> float.
Variables innerWidth innerHeight : float.

(** X10.  The bounds of the fit are the bounding box of the points: no
    coordinate of the dataset is [NaN], then every point lies within the
    bounds, and each of the four bounds is the coordinate of some point of
    the dataset. *)
Theorem zoomToFit_bounding_box (data : list RocketData) (margin : float) :
  Forall (fun d => is_nan (latentx1 d) = false /\ is_nan (latentx2 d) = false) data ->
  exists minX minY maxX maxY,
    bounds (zoomToFit log2 innerWidth innerHeight data margin) =
      Some (minX, minY, maxX, maxY) /\
    (forall d, In d data ->
       (minX <=? latentx1 d) = true /\ (latentx1 d <=? maxX) = true /\
       (minY <=? latentx2 d) = true /\ (latentx2 d <=? maxY) = true) /\
    (data <> [] ->
     (exists d, In d data /\ latentx1 d = minX) /\
     (exists d, In d data /\ latentx1 d = maxX) /\
     (exists d, In d data /\ latentx2 d = minY) /\
     (exists d, In d data /\ latentx2 d = maxY)).
Proof.
  intros Hdata.
  assert (Hx : Forall (fun x => is_nan x = false) (map latentx1 data)).
  { apply Forall_map. eapply Forall_impl; [| exact Hdata]. now intros d []. }
  assert (Hy : Forall (fun x => is_nan x = false) (map latentx2 data)).
  { apply Forall_map. eapply Forall_impl; [| exact Hdata]. now intros d []. }
  destruct (min_list_spec _ Hx) as [Lx Ix], (max_list_spec _ Hx) as [Ux Jx].
  destruct (min_list_spec _ Hy) as [Ly Iy], (max_list_spec _ Hy) as [Uy Jy].
  do 4 eexists. split; [reflexivity |]. split.
  - intros d Hd. repeat split;
      first [apply Lx | apply Ux | apply Ly | apply Uy]; now apply in_map.
  - intros Hne.
    assert (Hnx : map latentx1 data <> []) by (destruct data; [congruence | discriminate]).
    assert (Hny : map latentx2 data <> []) by (destruct data; [congruence | discriminate]).
    specialize (Ix Hnx). specialize (Jx Hnx). specialize (Iy Hny). specialize (Jy Hny).
    apply in_map_iff in Ix, Jx, Iy, Jy.
    destruct Ix as (d1 & E1 & H1), Jx as (d2 & E2 & H2),
             Iy as (d3 & E3 & H3), Jy as (d4 & E4 & H4).
    repeat split; eauto.
Qed.

End FitBounds.

(** X10 for three points. *)
Lemma zoomToFit_bounding_box_witness :
  let r x y := {| id := None; latentx1 := x; latentx2 := y;
                  design_var_1 := None; design_var_2 := None; feasible := true |} in
  let data := [r 3 4; r (-1) 7; r 2 (-5)]%float in
  bounds (zoomToFit log2Approx 1920 1080 data defaultMargin) = Some (-1, -5, 3, 7)%float /\
  exists minX minY maxX maxY,
    bounds (zoomToFit log2Approx 1920 1080 data defaultMargin) =
      Some (minX, minY, maxX, maxY) /\
    (forall d, In d data ->
       (minX <=? latentx1 d)%float = true /\ (latentx1 d <=? maxX)%float = true /\
       (minY <=? latentx2 d)%float = true /\ (latentx2 d <=? maxY)%float = true).
Proof.
  cbv zeta. split; [vm_compute; reflexivity |].
  match goal with
  | |- context [zoomToFit _ _ _ ?data _] =>
      destruct (zoomToFit_bounding_box log2Approx 1920 1080 data defaultMargin)
        as (minX & minY & maxX & maxY & Hb & Hin & _)
  end.
  - repeat constructor.
  - exists minX, minY, maxX, maxY. split; assumption.
Defined.

(** ** From the file to the picture *)

Section Picture.

Import JsString JsConv.
#[local] Open Scope float_scope.

Variable log2 : float -> float.
Variables innerWidth innerHeight : float.

(** X11.  After a load that succeeds, every record of the dataset lies
    within the bounds of the view. *)
Theorem loadCSV_points_in_view (st : AppState) (text : string)
    (parsedData : list RocketData) :
  parseCSV text = Return parsedData ->
  let st' := applyEffects st
               (loadCSV log2 innerWidth innerHeight (FetchResolves true (TextResolves text))) in
  data st' = parsedData /\
  exists minX minY maxX maxY,
    bounds (viewState st') = Some (minX, minY, maxX, maxY) /\
    forall d, In d (data st') ->
      (minX <=? latentx1 d) = true /\ (latentx1 d <=? maxX) = true /\
      (minY <=? latentx2 d) = true /\ (latentx2 d <=? maxY) = true.
Proof.
  intros Hparse. cbv zeta. unfold loadCSV, loadCSVTry. cbn [negb]. rewrite Hparse.
  cbn [app applyEffects fold_left applyEffect data viewState]. split; [reflexivity |].
  assert (Hfin : forall f : RocketData -> float,
            (forall d, In d parsedData -> is_finite (f d) = true) ->
            Forall (fun x => is_nan x = false) (map f parsedData)).
  { intros f Hf. apply Forall_map, Forall_forall. intros d Hd.
    now apply is_finite_not_nan, Hf. }
  assert (Hx : Forall (fun x => is_nan x = false) (map latentx1 parsedData)).
  { apply Hfin. intros d Hd. now destruct (parseCSV_shape _ _ _ Hparse Hd) as (_ & _ & _ & Fx & _). }
  assert (Hy : Forall (fun x => is_nan x = false) (map latentx2 parsedData)).
  { apply Hfin. intros d Hd. now destruct (parseCSV_shape _ _ _ Hparse Hd) as (_ & _ & _ & _ & Fy). }
  do 4 eexists. split; [reflexivity |]. intros d Hd.
  repeat split;
    first [apply (min_list_spec _ Hx) | apply (max_list_spec _ Hx)
          | apply (min_list_spec _ Hy) | apply (max_list_spec _ Hy)];
    now apply in_map.
Qed.

End Picture.

(** X11 for a file of two rows. *)
Lemma loadCSV_points_in_view_witness :
  let st := {| data := []; loading := false;
               viewState := {| target := (0, 0, 0)%float; zoom := 0%float; bounds := None |};
               selection := {| selected := []; isSelecting := false;
                               selectionBounds := None |};
               toasts := [] |} in
  let text := ("latentx1,latentx2" ++ String JsString.LF ("1,2" ++ String JsString.LF "3,-4"))%string in
  let st' := applyEffects st
               (loadCSV log2Approx 1920 1080 (FetchResolves true (TextResolves text))) in
  bounds (viewState st') = Some (1, -4, 3, 2)%float /\
  exists minX minY maxX maxY,
    bounds (viewState st') = Some (minX, minY, maxX, maxY) /\
    forall d, In d (data st') ->
      (minX <=? latentx1 d)%float = true /\ (latentx1 d <=? maxX)%float = true /\
      (minY <=? latentx2 d)%float = true /\ (latentx2 d <=? maxY)%float = true.
Proof.
  cbv zeta. split; [vm_compute; reflexivity |].
  eapply (fun st text parsedData H =>
            proj2 (loadCSV_points_in_view log2Approx 1920 1080 st text parsedData H)).
  vm_compute. reflexivity.
Defined.

(** ** The step field and the grid *)

Section StepField.

Import JsString JsConv.
#[local] Open Scope float_scope.

(** What the grid builder is called with for the text of the step field. *)
Lemma stepArgument_input (value : string) :
  stepArgument (gridStepOfInput value) =
    if Js.truthy (parseFloat value) then Some (parseFloat value) else None.
Proof.
  unfold gridStepOfInput, stepArgument. destruct value as [| c value]; reflexivity.
Qed.

(** X12.  The step of the grid for the text of the step field: the number
    the text starts with when that is neither a zero nor [NaN] (a negative
    number and an infinity are taken as they are), and a tenth of the
    larger side of the bounds otherwise, as for an empty field.  The grid
    is the one that [parseFloat] of the text gives as a step: the tests of
    the field and of the layer add nothing to the test in the builder. *)
Theorem safeStep_of_input (fuel : nat) (minX minY maxX maxY : float) (value : string) :
  safeStep (minX, minY, maxX, maxY) (stepArgument (gridStepOfInput value)) =
    (if Js.truthy (parseFloat value) then parseFloat value
     else Js.max2 (maxX - minX) (maxY - minY) / 10) /\
  buildGridPaths fuel (minX, minY, maxX, maxY) (stepArgument (gridStepOfInput value)) =
    buildGridPaths fuel (minX, minY, maxX, maxY) (Some (parseFloat value)).
Proof.
  rewrite stepArgument_input.
  assert (Hs : safeStep (minX, minY, maxX, maxY)
                 (if Js.truthy (parseFloat value) then Some (parseFloat value) else None) =
               safeStep (minX, minY, maxX, maxY) (Some (parseFloat value))).
  { unfold safeStep. destruct (Js.truthy (parseFloat value)) eqn:T; cbv beta iota; rewrite ?T; reflexivity. }
  split.
  - rewrite Hs. unfold safeStep. reflexivity.
  - unfold buildGridPaths, verticalPass. rewrite Hs. reflexivity.
Qed.

(** The field's texts [5px], [-2], [0], [abc] and the empty one, for the
    bounds from (0, 0) to (10, 20). *)
Example safeStep_of_input_values :
  map (fun value => safeStep (0, 0, 10, 20) (stepArgument (gridStepOfInput value)))
      ["5px"; "-2"; "0"; "abc"; ""]%string = [5; -2; 2; 2; 2].
Proof. vm_compute. reflexivity. Qed.

(** Neither loop runs when both first coordinates are [NaN]. *)
Lemma buildGridPaths_no_start fuel minX minY maxX maxY step :
  let s := safeStep (minX, minY, maxX, maxY) step in
  Js.floor (minX / s) * s = nan -> Js.floor (minY / s) * s = nan ->
  buildGridPaths (S fuel) (minX, minY, maxX, maxY) step = Some [].
Proof.
  cbv zeta. intros Hx Hy. unfold buildGridPaths, verticalPass.
  rewrite Hx, Hy, !gridLoop_nan. reflexivity.
Qed.

Lemma constant_list (xs : list float) (x : float) :
  Forall (fun v => v = x) xs -> forall v, In v xs -> v = x.
Proof. intros H. now apply Forall_forall. Qed.

Variable log2 : float -> float.
Variables innerWidth innerHeight : float.

(** X13.  A dataset with no record, or with all its records at one point,
    has no grid as long as the step field gives no step: the fit leaves
    bounds of no extent, the automatic step is a zero (or, with no record,
    an infinity), and the first coordinate of each pass is [NaN]. *)
Theorem no_grid_for_one_point (data : list RocketData) (margin x y : float)
    (value : string) (fuel : nat) :
  is_finite x = true -> is_finite y = true ->
  Forall (fun d => latentx1 d = x /\ latentx2 d = y) data ->
  Js.truthy (parseFloat value) = false ->
  exists b,
    bounds (zoomToFit log2 innerWidth innerHeight data margin) = Some b /\
    b = match data with [] => (infinity, infinity, neg_infinity, neg_infinity)
                      | _ => (x, y, x, y) end /\
    buildGridPaths (S fuel) b (stepArgument (gridStepOfInput value)) = Some [].
Proof.
  intros Fx Fy Hdata Hvalue. rewrite stepArgument_input, Hvalue.
  eexists. split; [reflexivity |].
  destruct data as [| d data].
  - split; [reflexivity |]. apply buildGridPaths_no_start; vm_compute; reflexivity.
  - set (ds := d :: data) in *.
    assert (Hx : Forall (fun v => v = x) (map latentx1 ds)).
    { apply Forall_map. eapply Forall_impl; [| exact Hdata]. now intros r []. }
    assert (Hy : Forall (fun v => v = y) (map latentx2 ds)).
    { apply Forall_map. eapply Forall_impl; [| exact Hdata]. now intros r []. }
    assert (Nx : Forall (fun v => is_nan v = false) (map latentx1 ds)).
    { eapply Forall_impl; [| exact Hx]. intros v ->. now apply is_finite_not_nan. }
    assert (Ny : Forall (fun v => is_nan v = false) (map latentx2 ds)).
    { eapply Forall_impl; [| exact Hy]. intros v ->. now apply is_finite_not_nan. }
    assert (Hnx : map latentx1 ds <> []) by discriminate.
    assert (Hny : map latentx2 ds <> []) by discriminate.
    rewrite (constant_list _ _ Hx _ (proj2 (min_list_spec _ Nx) Hnx)).
    rewrite (constant_list _ _ Hx _ (proj2 (max_list_spec _ Nx) Hnx)).
    rewrite (constant_list _ _ Hy _ (proj2 (min_list_spec _ Ny) Hny)).
    rewrite (constant_list _ _ Hy _ (proj2 (max_list_spec _ Ny) Hny)).
    split; [reflexivity |].
    assert (Hs : safeStep (x, y, x, y) None = 0).
    { unfold safeStep. rewrite !sub_self by assumption. reflexivity. }
    apply buildGridPaths_no_start; rewrite Hs; now apply floor_div_mul_falsy.
Qed.

End StepField.

(** X13 for one record at (3, 4) and an empty step field. *)
Lemma no_grid_for_one_point_witness :
  let r := {| id := Some "a"%string; latentx1 := 3; latentx2 := 4;
              design_var_1 := None; design_var_2 := None; feasible := true |} in
  exists b,
    bounds (zoomToFit log2Approx 1920 1080 [r] defaultMargin) = Some b /\
    b = (3, 4, 3, 4)%float /\
    buildGridPaths 1 b (stepArgument (gridStepOfInput "")) = Some [].
Proof.
  cbv zeta.
  refine (no_grid_for_one_point log2Approx 1920 1080 [_] defaultMargin 3 4 "" 0 _ _ _ _).
  - reflexivity.
  - reflexivity.
  - repeat constructor.
  - vm_compute. reflexivity.
Defined.

(** ** More on the viewport fit: the zoom of any dataset *)

Section RoundingClasses.

#[local] Open Scope Z_scope.

Lemma Zdigits2_spec (m : Z) : 0 < m -> 2 ^ (Zdigits2 m - 1) <= m < 2 ^ Zdigits2 m.
Proof.
  destruct m as [| p | p]; try lia. intros _. split.
  - change (Zdigits2 (Zpos p)) with (Zpos (digits2_pos p)).
    rewrite digits2_size. pose proof (Pos.size_le p) as H.
    assert (H' : 2 ^ Zpos (Pos.size p) <= 2 * Zpos p).
    { rewrite <- Pos2Z.inj_pow. change (2 * Zpos p) with (Zpos p~0). exact H. }
    set (k := Zpos (Pos.size p)) in *.
    replace k with (k - 1 + 1) in H' by lia.
    rewrite Z.pow_add_r in H' by lia. change (2 ^ 1) with 2 in H'. lia.
  - now apply Zdigits2_mantissa.
Qed.

Lemma Zdigits2_pos (m : Z) : 0 < m -> 0 < Zdigits2 m.
Proof. destruct m; simpl; lia. Qed.

Lemma Zdigits2_unique (m k : Z) : 2 ^ (k - 1) <= m < 2 ^ k -> 0 < k -> Zdigits2 m = k.
Proof.
  intros [Hl Hu] Hk.
  assert (Hm : 0 < m) by (pose proof (Z.pow_pos_nonneg 2 (k - 1)); lia).
  pose proof (Zdigits2_spec m Hm) as [Dl Du]. pose proof (Zdigits2_pos m Hm) as Dp.
  assert (H1 : 2 ^ (k - 1) < 2 ^ Zdigits2 m) by lia.
  assert (H2 : 2 ^ (Zdigits2 m - 1) < 2 ^ k) by lia.
  apply Z.pow_lt_mono_r_iff in H1; [| lia | lia].
  apply Z.pow_lt_mono_r_iff in H2; [| lia | lia]. lia.
Qed.

Lemma Zdigits2_mono (m m' : Z) : 0 < m -> m <= m' -> Zdigits2 m <= Zdigits2 m'.
Proof.
  intros Hm Hle. pose proof (Zdigits2_spec m Hm) as [Dl _].
  pose proof (Zdigits2_spec m' ltac:(lia)) as [_ Du'].
  pose proof (Zdigits2_pos m Hm). pose proof (Zdigits2_pos m' ltac:(lia)).
  assert (H1 : 2 ^ (Zdigits2 m - 1) < 2 ^ Zdigits2 m') by lia.
  apply Z.pow_lt_mono_r_iff in H1; lia.
Qed.

Lemma shr_1_half (mrs : shr_record) :
  0 <= shr_m mrs -> shr_m (shr_1 mrs) = shr_m mrs / 2.
Proof.
  destruct mrs as [m r s]. simpl. destruct m as [| p | p]; [reflexivity | | lia].
  intros _. destruct p as [p | p |]; simpl shr_m.
  - rewrite Pos2Z.inj_xI. apply Z.div_unique with (r := 1); lia.
  - rewrite Pos2Z.inj_xO. apply Z.div_unique with (r := 0); lia.
  - reflexivity.
Qed.

Lemma iter_shr_1_div (p : positive) : forall mrs,
  0 <= shr_m mrs -> shr_m (iter_pos shr_1 p mrs) = shr_m mrs / 2 ^ Zpos p.
Proof.
  induction p as [p IH | p IH |]; intros mrs H; simpl iter_pos.
  - pose proof (shr_1_bound mrs H) as H1.
    pose proof (iter_shr_1_bound p _ (proj1 H1)) as H2.
    pose proof (Z.pow_pos_nonneg 2 (Zpos p) ltac:(lia) ltac:(lia)) as Hp.
    rewrite IH, IH, shr_1_half by lia.
    rewrite !Z.div_div by lia. f_equal.
    rewrite Pos2Z.inj_xI, Z.pow_add_r, Z.pow_twice_r by lia.
    change (2 ^ 1) with 2. lia.
  - pose proof (iter_shr_1_bound p _ H) as H2.
    pose proof (Z.pow_pos_nonneg 2 (Zpos p) ltac:(lia) ltac:(lia)) as Hp.
    rewrite IH, IH by lia. rewrite Z.div_div by lia. f_equal.
    change (Zpos p~0) with (2 * Zpos p). rewrite Z.pow_twice_r. reflexivity.
  - rewrite shr_1_half by assumption. reflexivity.
Qed.

(** The first step of rounding keeps a positive mantissa positive when the
    number is not below the normal range, and does not lower the
    exponent. *)
Lemma shr_fexp_pos (m e : Z) (l : location) :
  0 < m -> emin + prec <= Zdigits2 m + e ->
  0 < shr_m (fst (shr_fexp prec emax m e l)) /\
  e <= snd (shr_fexp prec emax m e l) /\
  emin + prec <=
    Zdigits2 (shr_m (fst (shr_fexp prec emax m e l))) + snd (shr_fexp prec emax m e l).
Proof.
  intros Hm He. pose proof (Zdigits2_spec m Hm) as [Dl Du].
  pose proof (Zdigits2_pos m Hm) as Dp.
  unfold shr_fexp, shr.
  assert (Hf : fexp prec emax (Zdigits2 m + e) - e = Zdigits2 m - prec).
  { unfold fexp in *. lia. }
  rewrite Hf.
  destruct (Zdigits2 m - prec) as [| p | p] eqn:E; cbn [fst snd].
  - rewrite shr_record_of_loc_m. lia.
  - rewrite iter_shr_1_div by (rewrite shr_record_of_loc_m; lia).
    rewrite shr_record_of_loc_m.
    assert (Hd : Zdigits2 m = prec + Zpos p) by lia.
    assert (Hq : 2 ^ (prec - 1) <= m / 2 ^ Zpos p < 2 ^ prec).
    { rewrite Hd in Dl, Du. unfold prec in *.
      replace (53 + Zpos p - 1) with (52 + Zpos p) in Dl by lia.
      rewrite Z.pow_add_r in Dl, Du by lia.
      pose proof (Z.pow_pos_nonneg 2 (Zpos p) ltac:(lia) ltac:(lia)) as Hp.
      split.
      - apply Z.div_le_lower_bound; lia.
      - apply Z.div_lt_upper_bound; lia. }
    rewrite (Zdigits2_unique _ prec Hq) by (unfold prec; lia).
    unfold prec in *. change (2 ^ (53 - 1)) with 4503599627370496 in Hq. lia.
  - rewrite shr_record_of_loc_m. lia.
Qed.

(** Rounding a positive mantissa of a number in the normal range gives a
    finite number that is not a zero, at an exponent that is not lower, or
    an infinity. *)
Lemma binary_round_aux_pos (sx : bool) (mx ex : Z) (lx : location) :
  0 < mx -> emin + prec <= Zdigits2 mx + ex ->
  binary_round_aux prec emax sx mx ex lx = S754_infinity sx \/
  exists m e, binary_round_aux prec emax sx mx ex lx = S754_finite sx m e /\ ex <= e.
Proof.
  intros Hm He. unfold binary_round_aux.
  pose proof (shr_fexp_pos mx ex lx Hm He) as (P1 & E1 & D1).
  destruct (shr_fexp prec emax mx ex lx) as [mrs' e1]. cbn [fst snd] in *.
  pose proof (round_nearest_even_bounds (shr_m mrs') (loc_of_shr_record mrs')) as Hr.
  set (m1 := round_nearest_even (shr_m mrs') (loc_of_shr_record mrs')) in *.
  assert (Hm1 : 0 < m1) by lia.
  pose proof (Zdigits2_mono (shr_m mrs') m1 P1 (proj1 Hr)) as Hmono.
  pose proof (shr_fexp_pos m1 e1 loc_Exact Hm1 ltac:(lia)) as (P2 & E2 & _).
  destruct (shr_fexp prec emax m1 e1 loc_Exact) as [mrs'' e2]. cbn [fst snd] in *.
  destruct (shr_m mrs'') as [| p | p]; try lia.
  destruct (e2 <=? emax - prec); [right | now left].
  exists p, e2. split; [reflexivity | lia].
Qed.

(** Rounding a mantissa that is not negative does not give [NaN]. *)
Lemma binary_round_aux_not_nan (sx : bool) (mx ex : Z) (lx : location) :
  0 <= mx -> binary_round_aux prec emax sx mx ex lx <> S754_nan.
Proof.
  intros Hm. unfold binary_round_aux.
  pose proof (shr_fexp_bounds mx ex lx Hm) as [Hm1 _].
  destruct (shr_fexp prec emax mx ex lx) as [mrs' e1]. cbn [fst snd] in *.
  pose proof (round_nearest_even_bounds (shr_m mrs') (loc_of_shr_record mrs')) as Hr.
  set (m1 := round_nearest_even (shr_m mrs') (loc_of_shr_record mrs')) in *.
  pose proof (shr_fexp_bounds m1 e1 loc_Exact ltac:(lia)) as [Hm2 _].
  destruct (shr_fexp prec emax m1 e1 loc_Exact) as [mrs'' e2]. cbn [fst snd] in *.
  destruct (shr_m mrs'') as [| p | p]; [discriminate | | lia].
  destruct (e2 <=? emax - prec); discriminate.
Qed.

Lemma binary_normalize_not_nan (m e : Z) (szero : bool) :
  binary_normalize prec emax m e szero <> S754_nan.
Proof.
  unfold binary_normalize, binary_round. destruct m as [| p | p]; [discriminate | |];
    destruct (shl_align _ _ _) as [mz ez]; apply binary_round_aux_not_nan; lia.
Qed.

(** The difference of two finite numbers is not [NaN]. *)
Lemma SFsub_finite_not_nan (x y : spec_float) :
  Js.finiteSF x = true -> Js.finiteSF y = true -> SFsub prec emax x y <> S754_nan.
Proof.
  destruct x as [sx | sx | | sx mx ex], y as [sy | sy | | sy my ey]; try discriminate;
    intros _ _; simpl; try discriminate.
  - destruct sx, sy; discriminate.
  - apply binary_normalize_not_nan.
Qed.

(** A finite number of full precision: its mantissa has 53 digits. *)
Lemma valid_normal (m : positive) (e : Z) :
  bounded prec emax m e = true -> emin < e ->
  Zpos (digits2_pos m) = 53 /\ e <= 971.
Proof.
  unfold bounded, canonical_mantissa. rewrite andb_true_iff, Z.eqb_eq, Z.leb_le.
  unfold fexp, emin, prec, emax. lia.
Qed.

(** The quotient of a number between 1 and 2^31 - 1 by a positive number
    of full precision that is not below 2^-82 is finite. *)
Lemma SFdiv_small_quotient (m : positive) (e : Z) (sy : bool) (my : positive) (ey : Z) :
  Zpos (digits2_pos m) = 53 -> -52 <= e <= -22 ->
  Zpos (digits2_pos my) = 53 -> -134 <= ey <= 971 ->
  Js.finiteSF (SFdiv prec emax (S754_finite false m e) (S754_finite sy my ey)) = true.
Proof.
  intros Hd He Hdy Hey. unfold SFdiv, SFdiv_core_binary. cbn [Zdigits2]. rewrite Hd, Hdy.
  set (e' := Z.min (fexp prec emax (53 + e - (53 + ey))) (e - ey)).
  assert (He' : e' = Z.max (e - ey - 53) (-1074)).
  { unfold e', fexp, emin, prec, emax. lia. }
  destruct (e - ey - e') as [| p | p] eqn:Es; try lia.
  rewrite Z.shiftl_mul_pow2 by lia.
  pose proof (Zdigits2_spec (Zpos m) ltac:(lia)) as [_ Hm].
  pose proof (Zdigits2_spec (Zpos my) ltac:(lia)) as [Hmy _].
  cbn [Zdigits2] in Hm, Hmy. rewrite Hd in Hm. rewrite Hdy in Hmy.
  change (2 ^ (53 - 1)) with 4503599627370496 in Hmy.
  assert (Hp : 2 ^ Zpos p <= 2 ^ 53) by (apply Z.pow_le_mono_r; lia).
  pose proof (Z.pow_pos_nonneg 2 (Zpos p) ltac:(lia) ltac:(lia)) as Hp0.
  pose proof (Z_div_mod (Zpos m * 2 ^ Zpos p) (Zpos my) ltac:(lia)) as Hdiv.
  destruct (Z.div_eucl (Zpos m * 2 ^ Zpos p) (Zpos my)) as [q r].
  destruct Hdiv as [Hq Hr].
  apply binary_round_aux_finite; [| lia].
  change (2 ^ 53) with 9007199254740992 in *. change (2 ^ 64) with 18446744073709551616.
  assert (Hprod : Zpos m * 2 ^ Zpos p < 9007199254740992 * 9007199254740992) by nia.
  nia.
Qed.

End RoundingClasses.

Section ZoomOfDataset.

#[local] Open Scope float_scope.

Lemma sub_not_nan (a b : float) :
  is_finite a = true -> is_finite b = true -> is_nan (a - b) = false.
Proof.
  rewrite !is_finite_spec. intros Fa Fb. destruct (is_nan (a - b)) eqn:N; [| reflexivity].
  apply is_nan_spec in N. rewrite sub_spec in N.
  now apply SFsub_finite_not_nan in N.
Qed.

(** The span of the fit, [Math.max(w, h) * (1 + margin)] with the default
    margin, is a positive number that is not below 2^-82, or an infinity. *)
Lemma span_class (v : float) :
  (1e-9 <=? v) = true ->
  Prim2SF (v * (1 + defaultMargin)) = S754_infinity false \/
  exists m e, Prim2SF (v * (1 + defaultMargin)) = S754_finite false m e /\ (-134 <= e)%Z.
Proof.
  intros H. rewrite mul_spec. rewrite FloatAxioms.leb_spec in H.
  change (Prim2SF 1e-9) with (S754_finite false 4835703278458517 (-82)) in H.
  change (Prim2SF (1 + defaultMargin)) with (S754_finite false 4953959590107546 (-52)).
  pose proof (Prim2SF_valid v) as Hv.
  destruct (Prim2SF v) as [s | s | | s m e].
  - discriminate H.
  - destruct s; [discriminate H | now left].
  - discriminate H.
  - destruct s; [discriminate H |].
    assert (He : (-82 <= e)%Z).
    { unfold SFleb, SFcompare in H. destruct (Z.compare_spec (-82) e); [lia | lia | discriminate]. }
    destruct (valid_normal m e Hv ltac:(unfold emin, emax, prec; lia)) as [Hd _].
    unfold SF64mul, SFmul. cbn [xorb].
    pose proof (Zdigits2_spec (Zpos m) ltac:(lia)) as [Hm _]. cbn [Zdigits2] in Hm.
    rewrite Hd in Hm. change (2 ^ (53 - 1))%Z with 4503599627370496%Z in Hm.
    assert (Hdig : (105 <= Zdigits2 (Zpos (m * 4953959590107546)))%Z).
    { pose proof (Zdigits2_mono (2 ^ 104) (Zpos (m * 4953959590107546))
                    ltac:(reflexivity)) as Hmono.
      change (Zdigits2 (2 ^ 104)) with 105%Z in Hmono. apply Hmono.
      rewrite Pos2Z.inj_mul.
      change (2 ^ 104)%Z with (4503599627370496 * 4503599627370496)%Z. nia. }
    destruct (binary_round_aux_pos false (Zpos (m * 4953959590107546)) (e + -52) loc_Exact)
      as [Hinf | (m' & e' & Hfin & He')]; [lia | unfold emin, emax, prec; lia | |].
    + now left.
    + right. exists m', e'. split; [exact Hfin | lia].
Qed.

(** The screen span over the span of the fit is a finite number. *)
Lemma scale_finite (screenSpan span : float) :
  (1 <=? screenSpan) = true -> (screenSpan <=? 2147483647) = true ->
  (Prim2SF span = S754_infinity false \/
   exists m e, Prim2SF span = S754_finite false m e /\ (-134 <= e)%Z) ->
  is_finite (screenSpan / span) = true.
Proof.
  intros H1 H2 Hspan. rewrite is_finite_spec, div_spec.
  rewrite FloatAxioms.leb_spec in H1, H2.
  change (Prim2SF 1) with (S754_finite false 4503599627370496 (-52)) in H1.
  change (Prim2SF 2147483647) with (S754_finite false 9007199250546688 (-22)) in H2.
  pose proof (Prim2SF_valid screenSpan) as Hv. pose proof (Prim2SF_valid span) as Hw.
  destruct (Prim2SF screenSpan) as [s | s | | s m e].
  - discriminate H1.
  - destruct s; [discriminate H1 | discriminate H2].
  - discriminate H1.
  - destruct s; [discriminate H1 |].
    assert (He1 : (-52 <= e)%Z).
    { unfold SFleb, SFcompare in H1. destruct (Z.compare_spec (-52) e); [lia | lia | discriminate]. }
    assert (He2 : (e <= -22)%Z).
    { unfold SFleb, SFcompare in H2. destruct (Z.compare_spec e (-22)); [lia | lia | discriminate]. }
    destruct (valid_normal m e Hv ltac:(unfold emin, emax, prec; lia)) as [Hd _].
    destruct Hspan as [-> | (my & ey & Hs & Hey)]; [reflexivity |].
    rewrite Hs in Hw |- *.
    destruct (valid_normal my ey Hw ltac:(unfold emin, emax, prec; lia)) as [Hdy Hey'].
    apply SFdiv_small_quotient; lia.
Qed.

Lemma In_finite (f : RocketData -> float) (data : list RocketData) (v : float) :
  Forall (fun d => is_finite (f d) = true) data -> In v (map f data) -> is_finite v = true.
Proof.
  intros H Hv. apply in_map_iff in Hv. destruct Hv as (d & <- & Hd).
  rewrite Forall_forall in H. now apply H.
Qed.

(** The extent of the dataset along one coordinate is not [NaN]. *)
Lemma extent_not_nan (f : RocketData -> float) (data : list RocketData) :
  Forall (fun d => is_finite (f d) = true) data ->
  is_nan (Js.max_list (map f data) - Js.min_list (map f data)) = false.
Proof.
  intros H. destruct data as [| d data]; [reflexivity |].
  assert (N : Forall (fun v => is_nan v = false) (map f (d :: data))).
  { apply Forall_map. eapply Forall_impl; [| exact H]. intros r. apply is_finite_not_nan. }
  assert (Hne : map f (d :: data) <> []) by discriminate.
  apply sub_not_nan; eapply In_finite; try exact H.
  - now apply max_list_spec.
  - now apply min_list_spec.
Qed.

Variable log2 : float -> float.
Variables innerWidth innerHeight : float.

(** X14.  For every dataset of finite points, in a viewport whose sides are
    at most 2^31 - 1 pixels, the zoom of the fit is [Math.log2] of a finite
    number that is at least 1e-6, however far apart or close together the
    points are; so the zoom is finite for every [Math.log2] that is finite
    on the finite positive numbers. *)
Theorem zoomToFit_zoom_finite (data : list RocketData) :
  Forall (fun d => is_finite (latentx1 d) = true /\ is_finite (latentx2 d) = true) data ->
  (innerWidth <=? 2147483647) = true -> (innerHeight <=? 2147483647) = true ->
  (exists s,
     zoom (zoomToFit log2 innerWidth innerHeight data defaultMargin) = log2 s /\
     is_finite s = true /\ (1e-6 <=? s) = true /\ (0 <? s) = true) /\
  ((forall t, is_finite t = true -> (0 <? t) = true -> is_finite (log2 t) = true) ->
   is_finite (zoom (zoomToFit log2 innerWidth innerHeight data defaultMargin)) = true).
Proof.
  intros Hdata Hw Hh.
  assert (Hzoom : exists s,
    zoom (zoomToFit log2 innerWidth innerHeight data defaultMargin) = log2 s /\
    is_finite s = true /\ (1e-6 <=? s) = true /\ (0 <? s) = true).
  { unfold zoomToFit. cbn [zoom].
    set (dx := Js.max_list (map latentx1 data) - Js.min_list (map latentx1 data)).
    set (dy := Js.max_list (map latentx2 data) - Js.min_list (map latentx2 data)).
    assert (Nx : is_nan dx = false).
    { apply extent_not_nan. eapply Forall_impl; [| exact Hdata]. now intros d []. }
    assert (Ny : is_nan dy = false).
    { apply extent_not_nan. eapply Forall_impl; [| exact Hdata]. now intros d []. }
    destruct (max2_spec 1e-9 dx eq_refl Nx) as (Cw & Lw & _).
    destruct (max2_spec 1e-9 dy eq_refl Ny) as (Ch & _ & _).
    assert (Nw : is_nan (Js.max2 1e-9 dx) = false) by (destruct Cw as [-> | ->]; auto).
    assert (Nh : is_nan (Js.max2 1e-9 dy) = false) by (destruct Ch as [-> | ->]; auto).
    destruct (max2_spec _ _ Nw Nh) as (_ & Lm & _).
    pose proof (leb_trans _ _ _ Lw Lm) as Lspan.
    pose proof (min2_range _ _ _ _ (max2_one_range _ Hw) (max2_one_range _ Hh)) as [S1 S2].
    pose proof (scale_finite _ _ S1 S2 (span_class _ Lspan)) as Fs.
    destruct (max2_floor _ Fs) as [Fm Lf].
    eexists. split; [reflexivity |]. split; [exact Fm |]. split; [exact Lf |].
    now apply leb_floor_positive. }
  split; [exact Hzoom |]. intros Hlog.
  destruct Hzoom as (s & Hz & Fs & Ls & Ps). rewrite Hz. now apply Hlog.
Qed.

End ZoomOfDataset.

(** X14 for two points as far apart as the format allows: their extent is
    an infinity, the scale a zero, and the zoom [log2] of 1e-6. *)
Lemma zoomToFit_zoom_finite_witness :
  let r x y := {| id := None; latentx1 := x; latentx2 := y;
                  design_var_1 := None; design_var_2 := None; feasible := true |} in
  let data := [r (-1.7e308) 0; r 1.7e308 1]%float in
  exists s,
    zoom (zoomToFit log2Approx 1920 1080 data defaultMargin) = log2Approx s /\
    is_finite s = true /\ (1e-6 <=? s)%float = true /\ (0 <? s)%float = true.
Proof.
  cbv zeta.
  refine (proj1 (zoomToFit_zoom_finite log2Approx 1920 1080 _ _ _ _)).
  - repeat constructor.
  - reflexivity.
  - reflexivity.
Defined.

(** ** More on the grid: the major lines *)

Section MajorLines.

#[local] Open Scope float_scope.

Lemma binary_round_aux_opp (s : bool) (m e : Z) (l : location) :
  binary_round_aux prec emax (negb s) m e l = SFopp (binary_round_aux prec emax s m e l).
Proof.
  unfold binary_round_aux. destruct (shr_fexp prec emax m e l) as [mrs' e'].
  destruct (shr_fexp prec emax _ e' loc_Exact) as [mrs'' e''].
  destruct (shr_m mrs''); try reflexivity.
  destruct (e'' <=? emax - prec)%Z; reflexivity.
Qed.

Lemma binary_normalize_opp (z e : Z) (s : bool) :
  binary_normalize prec emax (- z) e (negb s) = SFopp (binary_normalize prec emax z e s).
Proof.
  unfold binary_normalize, binary_round. destruct z as [| p | p]; simpl Z.opp; cbv iota.
  - reflexivity.
  - destruct (shl_align _ _ _) as [mz ez]. apply (binary_round_aux_opp false).
  - destruct (shl_align _ _ _) as [mz ez]. apply (binary_round_aux_opp true).
Qed.

Lemma SFdiv_opp_l (x y : spec_float) :
  SFdiv prec emax (SFopp x) y = SFopp (SFdiv prec emax x y).
Proof.
  destruct x as [sx | sx | | sx mx ex], y as [sy | sy | | sy my ey]; simpl;
    try reflexivity; try (destruct sx, sy; reflexivity).
  destruct (SFdiv_core_binary prec emax (Zpos mx) ex (Zpos my) ey) as [[mz ez] lz].
  rewrite <- binary_round_aux_opp. destruct sx, sy; reflexivity.
Qed.

Lemma SFdiv_opp_r (x y : spec_float) :
  SFdiv prec emax x (SFopp y) = SFopp (SFdiv prec emax x y).
Proof.
  destruct x as [sx | sx | | sx mx ex], y as [sy | sy | | sy my ey]; simpl;
    try reflexivity; try (destruct sx, sy; reflexivity).
  destruct (SFdiv_core_binary prec emax (Zpos mx) ex (Zpos my) ey) as [[mz ez] lz].
  rewrite <- binary_round_aux_opp. destruct sx, sy; reflexivity.
Qed.

Lemma remSF_opp_l (a b : spec_float) : Js.remSF (SFopp a) b = SFopp (Js.remSF a b).
Proof.
  destruct a as [sa | sa | | sa ma ea], b as [sb | sb | | sb mb eb]; simpl;
    try reflexivity.
  rewrite <- binary_normalize_opp. f_equal. destruct sa; simpl; lia.
Qed.

Lemma SFopp_involutive (x : spec_float) : SFopp (SFopp x) = x.
Proof. destruct x as [s | s | | s m e]; simpl; try rewrite negb_involutive; reflexivity. Qed.

Lemma opp_involutive (x : float) : - (- x) = x.
Proof. apply Prim2SF_inj. rewrite !opp_spec. apply SFopp_involutive. Qed.

Lemma SF2Prim_opp (x : spec_float) : SF2Prim (SFopp x) = - SF2Prim x.
Proof.
  destruct x as [s | s | | s m e]; try (destruct s; reflexivity); try reflexivity.
  destruct s; simpl; [now rewrite opp_involutive | reflexivity].
Qed.

Lemma div_opp_l (c step : float) : (- c) / step = - (c / step).
Proof. apply Prim2SF_inj. rewrite opp_spec, !div_spec, opp_spec. apply SFdiv_opp_l. Qed.

Lemma div_opp_r (c step : float) : c / (- step) = - (c / step).
Proof. apply Prim2SF_inj. rewrite opp_spec, !div_spec, opp_spec. apply SFdiv_opp_r. Qed.

Lemma rem_opp_l (a b : float) : Js.rem (- a) b = - Js.rem a b.
Proof. unfold Js.rem. now rewrite opp_spec, remSF_opp_l, SF2Prim_opp. Qed.

Lemma abs_opp (x : float) : abs (- x) = abs x.
Proof.
  apply Prim2SF_inj. rewrite !abs_spec, opp_spec. now destruct (Prim2SF x).
Qed.

(** A zero divided by a number that is neither a zero nor [NaN] is a
    zero. *)
Lemma zero_div (step : float) :
  Js.truthy step = true -> 0 / step = 0 \/ 0 / step = (-0).
Proof.
  intros H. unfold Js.truthy in H. apply andb_true_iff in H. destruct H as [Hz Hn].
  apply negb_true_iff in Hz, Hn.
  assert (Hs : exists s, Prim2SF (0 / step) = S754_zero s).
  { rewrite div_spec. change (Prim2SF 0) with (S754_zero false).
    destruct (Prim2SF step) as [s | s | | s m e] eqn:E; simpl; eauto.
    - assert ((step =? 0) = true) by (apply eqb_zero_spec; eauto). congruence.
    - assert (is_nan step = true) by now apply is_nan_spec. congruence. }
  destruct Hs as [[] Hs]; [right | left]; apply Prim2SF_inj; rewrite Hs; reflexivity.
Qed.

(** X15.  Which lines are major is symmetric about the origin and does not
    depend on the sign of the step; and a line through the origin is major
    for every step that is neither a zero nor [NaN]. *)
Theorem isMajor_symmetric (c step : float) :
  isMajor (- c) step = isMajor c step /\
  isMajor c (- step) = isMajor c step /\
  (Js.truthy step = true -> isMajor 0 step = true).
Proof.
  unfold isMajor. split; [| split].
  - now rewrite div_opp_l, rem_opp_l, abs_opp.
  - now rewrite div_opp_r, rem_opp_l, abs_opp.
  - intros H. destruct (zero_div step H) as [-> | ->]; reflexivity.
Qed.

(** X15 at the coordinates 10 and -10 with the steps 2 and -2. *)
Lemma isMajor_symmetric_witness :
  isMajor (-10) 2 = true /\ isMajor 10 (-2) = true /\ isMajor 0 2 = true.
Proof.
  destruct (isMajor_symmetric 10 2) as (H1 & H2 & H3).
  split; [| split].
  - exact (eq_trans H1 eq_refl).
  - exact (eq_trans H2 eq_refl).
  - exact (H3 eq_refl).
Defined.

End MajorLines.

(** ** More on the parser: the columns that may be missing *)

Section OptionalColumns.

Import JsString JsConv.
#[local] Open Scope char_scope.
#[local] Open Scope string_scope.

Lemma parseRow_absent delim c i line d :
  parseRow delim c i line = Some d ->
  ((ifeas c < 0)%Z -> feasible d = false) /\
  ((idv1 c < 0)%Z -> design_var_1 d = Some "") /\
  ((idv2 c < 0)%Z -> design_var_2 d = Some "").
Proof.
  unfold parseRow. destruct (_ || _); [discriminate |].
  intros H. injection H as <-. cbn [feasible design_var_1 design_var_2].
  split; [| split]; intros Hc.
  - destruct (Z.leb_spec 0 (ifeas c)); [lia | reflexivity].
  - destruct (Z.leb_spec 0 (idv1 c)); [lia | reflexivity].
  - destruct (Z.leb_spec 0 (idv2 c)); [lia | reflexivity].
Qed.

(** X16.  The columns [feasible], [design_var_1] and [design_var_2] may be
    missing from the header: without a [feasible] column every record is
    infeasible, and without a design column the field is the empty string
    in every record. *)
Theorem parseCSV_absent_columns (text header : string) (rest : list string)
    (dataset : list RocketData) (d : RocketData) :
  linesOf text = header :: rest ->
  parseCSV text = Return dataset -> In d dataset ->
  (~ In "feasible" (headerNames text header) -> feasible d = false) /\
  (~ In "design_var_1" (headerNames text header) -> design_var_1 d = Some "") /\
  (~ In "design_var_2" (headerNames text header) -> design_var_2 d = Some "").
Proof.
  intros Hlines. unfold parseCSV. rewrite Hlines.
  destruct (_ || _); [discriminate |]. intros H. injection H as <-. intros Hd.
  apply parseRows_In in Hd. destruct Hd as [[] | (i & line & _ & Hrow)].
  destruct (parseRow_absent _ _ _ _ _ Hrow) as (Hf & H1 & H2).
  split; [| split]; intros Habsent; [apply Hf | apply H1 | apply H2];
    apply Z.ltb_lt, indexOf_absent; exact Habsent.
Qed.

(** X16 for a file with the two coordinate columns only. *)
Lemma parseCSV_absent_columns_witness :
  let text := "latentx1,latentx2" ++ String LF "1,2" in
  let d := {| id := Some "0"; latentx1 := 1; latentx2 := 2;
              design_var_1 := Some ""; design_var_2 := Some ""; feasible := false |} in
  parseCSV text = Return [d] /\ feasible d = false /\ design_var_1 d = Some "".
Proof.
  cbv zeta.
  assert (Hparse : parseCSV ("latentx1,latentx2" ++ String LF "1,2") =
            Return [ {| id := Some "0"; latentx1 := 1; latentx2 := 2;
                        design_var_1 := Some ""; design_var_2 := Some "";
                        feasible := false |} ]) by (vm_compute; reflexivity).
  split; [exact Hparse |].
  assert (Hlines : linesOf ("latentx1,latentx2" ++ String LF "1,2") =
                   ["latentx1,latentx2"; "1,2"]) by (vm_compute; reflexivity).
  destruct (parseCSV_absent_columns _ _ _ _ _ Hlines Hparse (or_introl eq_refl))
    as (Hf & H1 & _).
  split; [apply Hf | apply H1]; vm_compute; intros [H | [H | []]]; discriminate.
Defined.

End OptionalColumns.
